(** * A shallow embedding of the one-wire bus driver (one-wire.c)

    The driver is bit-banged C for an AVR: a handful of pin operations,
    two polling loops and a supersampling loop written in inline assembly,
    and on top of them the reset handshake, bit and byte transfer, the ROM
    search and the session state machine.  The embedding keeps the C
    integers as [Z] with the wrap-around of [uint8_t] written out, the two
    file-scope variables and the caller's buffers in an explicit world that
    every operation threads, and the pin behind a small interface so that
    the same driver code runs against any model of the line. *)

From Stdlib Require Import ZArith List Bool Lia Sorted Permutation.
Import ListNotations.
Local Open Scope Z_scope.

(** ** C integers *)

(** Conversion to [uint8_t]. *)
Definition u8 (z : Z) : Z := z mod 256.

(** [#define BV(n) (1 << (n))] *)
Definition BV (n : Z) : Z := Z.shiftl 1 n.

Definition is_byte (z : Z) : Prop := 0 <= z < 256.

(** A C truth value: anything but zero. *)
Definition truthy (z : Z) : bool := negb (z =? 0).

(** [for (int i = 0; i < n; i++) acc = body(i, acc);] *)
Fixpoint for_from {A : Type} (n : nat) (i : Z) (body : Z -> A -> A) (acc : A) : A :=
  match n with
  | O => acc
  | S n' => for_from n' (i + 1) body (body i acc)
  end.

Definition for_upto {A : Type} (n : nat) (body : Z -> A -> A) (acc : A) : A :=
  for_from n 0 body acc.

(** ** Constants of the header *)

Definition W1_CRC_POLYNOMIAL : Z := 0x8C.
Definition W1_ADDR_BYTE_CRC : Z := 7.
Definition W1_ADDR_BYTE_DEV_TYPE : Z := 0.
Definition W1_ROMCMD_READ : Z := 0x33.
Definition W1_ROMCMD_MATCH : Z := 0x55.
Definition W1_ROMCMD_SEARCH : Z := 0xF0.
Definition W1_ROMCMD_ALARM : Z := 0xEC.
Definition W1_ROMCMD_SKIP : Z := 0xCC.
Definition W1_FUNC_PARASITE_POWER : Z := 0xB4.

(** ** The checksum *)

(** [data[i]] of a C array seen as a list. *)
Definition idx (data : list Z) (i : Z) : Z := nth (Z.to_nat i) data 0.

(** The body of the inner loop of [crc8]: one bit of one data byte. *)
Definition crc8_bit (polynomial data_i : Z) (j : Z) (remainder : Z) : Z :=
  let data_bit_j := Z.land (Z.shiftr data_i j) (BV 0) in
  let rem_bit_0 := Z.land remainder (BV 0) in
  let remainder := u8 (Z.shiftr remainder 1) in
  if truthy (Z.lxor data_bit_j rem_bit_0)
  then u8 (Z.lxor remainder polynomial)
  else remainder.

(** The inner loop: the eight bits of one data byte, bit 0 first. *)
Definition crc8_byte (polynomial data_i : Z) (remainder : Z) : Z :=
  for_upto 8 (crc8_bit polynomial data_i) remainder.

(** [uint8_t crc8(uint8_t crcIn, uint8_t polynomial, uint8_t *const data,
    uint8_t const size)] *)
Definition crc8 (crcIn polynomial : Z) (data : list Z) (size : Z) : Z :=
  for_upto (Z.to_nat size)
           (fun i remainder => crc8_byte polynomial (idx data i) remainder)
           crcIn.


(** ** The session state *)

(** [enum wire1state_t] *)
Inductive wire1state_t : Type :=
| IDLE
| ROM_COMMAND
| FUNCTION_COMMAND
| WAIT_POLL.

Definition wire1state_eqb (a b : wire1state_t) : bool :=
  match a, b with
  | IDLE, IDLE | ROM_COMMAND, ROM_COMMAND
  | FUNCTION_COMMAND, FUNCTION_COMMAND | WAIT_POLL, WAIT_POLL => true
  | _, _ => false
  end.

(** ** The line and the world of the driver *)

(** What the driver can do to the pin: drive it low, let it go, look at it.
    [pin_sample] answers [true] for a high pin. *)
Class Line (L : Type) : Type := {
  pin_hold : L -> L;
  pin_release : L -> L;
  pin_sample : L -> bool * L
}.

(** Every access to the pin is recorded, newest first. *)
Inductive LineOp : Type :=
| OpHold
| OpRelease
| OpSample.

(** The line, the record of what was done to it, the two file-scope
    variables of one-wire.c and the memory the caller's pointers refer to. *)
Record World (L : Type) : Type := mkWorld {
  line : L;
  trace : list LineOp;
  wire1state : wire1state_t;
  wire1_idleloops : Z;
  mem : Z -> Z
}.
Arguments mkWorld {L} _ _ _ _ _.
Arguments line {L} _.
Arguments trace {L} _.
Arguments wire1state {L} _.
Arguments wire1_idleloops {L} _.
Arguments mem {L} _ _.

(** The driver's functions read and change the world and return a value. *)
Definition M (L A : Type) : Type := World L -> A * World L.

Definition ret {L A : Type} (a : A) : M L A := fun w => (a, w).

Definition bind {L A B : Type} (c : M L A) (k : A -> M L B) : M L B :=
  fun w => let (a, w') := c w in k a w'.

Notation "x <- c ;; k" := (bind c (fun x => k))
  (at level 61, c at next level, right associativity).
Notation "c ;; k" := (bind c (fun _ => k))
  (at level 61, right associativity).

(** [for (int i = 0; i < n; i++) acc = body(i, acc);] with effects. *)
Fixpoint forM_from {L A : Type} (n : nat) (i : Z) (body : Z -> A -> M L A) (acc : A)
  : M L A :=
  match n with
  | O => ret acc
  | S n' => a <- body i acc ;; forM_from n' (i + 1) body a
  end.

Definition forM_upto {L A : Type} (n : nat) (body : Z -> A -> M L A) (acc : A) : M L A :=
  forM_from n 0 body acc.

(** The eight bytes behind a pointer. *)
Definition load (m : Z -> Z) (p : Z) (n : nat) : list Z :=
  map (fun i => m (p + Z.of_nat i)) (seq 0 n).

Definition store (m : Z -> Z) (p v : Z) : Z -> Z :=
  fun q => if q =? p then v else m q.

(** [arr[bit/8] & BV(bit%8)] for an array in memory. *)
Definition maskBitInArray (m : Z -> Z) (arr : Z) (bit : Z) : Z :=
  Z.land (m (arr + bit / 8)) (BV (bit mod 8)).

Section Driver.

Context {L : Type} {HL : Line L}.

Definition get_state : M L wire1state_t := fun w => (wire1state w, w).

Definition set_state (s : wire1state_t) : M L unit :=
  fun w => (tt, mkWorld (line w) (trace w) s (wire1_idleloops w) (mem w)).

Definition get_idleloops : M L Z := fun w => (wire1_idleloops w, w).

Definition set_idleloops (n : Z) : M L unit :=
  fun w => (tt, mkWorld (line w) (trace w) (wire1state w) n (mem w)).

Definition get_mem : M L (Z -> Z) := fun w => (mem w, w).

Definition set_mem (p v : Z) : M L unit :=
  fun w => (tt, mkWorld (line w) (trace w) (wire1state w) (wire1_idleloops w)
                        (store (mem w) p v)).

(** [p[0] |= v] *)
Definition or_mem (p v : Z) : M L unit :=
  m <- get_mem ;; set_mem p (u8 (Z.lor (m p) v)).

(** [enum wire1state_t wire1GetState(void)] *)
Definition wire1GetState : M L wire1state_t := get_state.

(** [inline void wire1Hold(void)] *)
Definition wire1Hold : M L unit :=
  fun w => (tt, mkWorld (pin_hold (line w)) (OpHold :: trace w)
                        (wire1state w) (wire1_idleloops w) (mem w)).

(** [inline void wire1Release(void)] *)
Definition wire1Release : M L unit :=
  fun w => (tt, mkWorld (pin_release (line w)) (OpRelease :: trace w)
                        (wire1state w) (wire1_idleloops w) (mem w)).

(** One look at the pin register, as [sbic] and [sbis] take it. *)
Definition sample_pin : M L bool :=
  fun w => let (lvl, l) := pin_sample (line w) in
           (lvl, mkWorld l (OpSample :: trace w)
                         (wire1state w) (wire1_idleloops w) (mem w)).

(** The assembly loop shared by the two polls.  [count] is the register
    that [subi] decrements; the skip instruction leaves the loop when the
    pin is at [wanted], [brne loop] stays in it while [count] is not zero.
    Past the loop, [brne done] keeps [nloops] when [count] is not zero and
    [clr] zeroes it otherwise, and [sub] takes [count] off. *)
Fixpoint poll_loop (wanted : bool) (nloops : Z) (count : nat) : M L Z :=
  match count with
  | O => ret 0
  | S c =>
      lvl <- sample_pin ;;
      if Bool.eqb lvl wanted
      then ret (match c with O => 0 | S _ => u8 (nloops - Z.of_nat c) end)
      else match c with
           | O => ret 0
           | S _ => poll_loop wanted nloops c
           end
  end.

(** [uint8_t wire1Poll4Hold(uint8_t nloops)]: [sbic] leaves on a low pin. *)
Definition wire1Poll4Hold (nloops : Z) : M L Z :=
  if nloops =? 0 then ret 0 else poll_loop false nloops (Z.to_nat nloops).

(** [uint8_t wire1Poll4Release(uint8_t nloops)]: [sbis] leaves on a high pin. *)
Definition wire1Poll4Release (nloops : Z) : M L Z :=
  if nloops =? 0 then ret 0 else poll_loop true nloops (Z.to_nat nloops).

(** [sbis port, pin] followed by [inc bittest]: count a low pin. *)
Definition sample_inc (bittest : Z) : M L Z :=
  lvl <- sample_pin ;;
  ret (if lvl then bittest else u8 (bittest + 1)).

(** The supersampling loop of [wire1ReadBit]: six samples a round, [i]
    rounds. *)
Fixpoint supersample (i : nat) (bittest : Z) : M L Z :=
  match i with
  | O => ret bittest
  | S i' =>
      b1 <- sample_inc bittest ;;
      b2 <- sample_inc b1 ;;
      b3 <- sample_inc b2 ;;
      b4 <- sample_inc b3 ;;
      b5 <- sample_inc b4 ;;
      b6 <- sample_inc b5 ;;
      supersample i' b6
  end.

(** [uint8_t wire1ReadBit(void)] *)
Definition wire1ReadBit : M L Z :=
  wire1Hold ;;
  wire1Release ;;
  bittest <- supersample 4 0 ;;
  ret (if bittest >? 0 then 0 else 0xFF).

(** [void wire1WriteBit(uint8_t bit)] *)
Definition wire1WriteBit (bit : Z) : M L unit :=
  wire1Hold ;;
  if truthy bit
  then wire1Release ;; _ <- wire1Poll4Hold 15 ;; ret tt
  else _ <- wire1Poll4Release 15 ;; wire1Release.

(** [uint8_t wire1ReadByte(void)] *)
Definition wire1ReadByte : M L Z :=
  forM_upto 8
    (fun i readByte =>
       b <- wire1ReadBit ;;
       ret (if truthy b then u8 (Z.lor readByte (BV i)) else readByte))
    0.

(** [void wire1WriteByte(uint8_t writeByte)] *)
Definition wire1WriteByte (writeByte : Z) : M L unit :=
  forM_upto 8 (fun i _ => wire1WriteBit (u8 (Z.land writeByte (BV i)))) tt.

(** The loop of [wire1Poll4Idle]: the read slot comes first in the test,
    the bound second.  The test runs at most [wire1_idleloops + 1] times. *)
Fixpoint poll4idle_loop (fuel : nat) (i : Z) : M L Z :=
  match fuel with
  | O => ret i
  | S fuel' =>
      b <- wire1ReadBit ;;
      n <- get_idleloops ;;
      if negb (truthy b) && (i <? n)
      then poll4idle_loop fuel' (i + 1)
      else ret i
  end.

(** [uint16_t wire1Poll4Idle(void)] *)
Definition wire1Poll4Idle : M L Z :=
  n <- get_idleloops ;;
  i <- poll4idle_loop (S (Z.to_nat n)) 0 ;;
  if i =? n
  then ret 0
  else set_state IDLE ;; ret i.

(** [void wire1SetupPoll4Idle(uint16_t nloops)] *)
Definition wire1SetupPoll4Idle (nloops : Z) : M L unit :=
  set_state WAIT_POLL ;; set_idleloops nloops.

(** [int8_t wire1Reset(void)] *)
Definition wire1Reset : M L Z :=
  st <- get_state ;;
  waiting <- (if wire1state_eqb st WAIT_POLL
              then r <- wire1Poll4Idle ;; ret (negb (truthy r))
              else ret false) ;;
  if waiting then ret (-1) else
  wire1Hold ;;
  _ <- wire1Poll4Release 122 ;;
  wire1Release ;;
  r1 <- wire1Poll4Hold 15 ;;
  if negb (truthy r1) then set_state IDLE ;; ret 0 else
  r2 <- wire1Poll4Release 60 ;;
  if negb (truthy r2) then set_state IDLE ;; ret (-1) else
  r3 <- wire1Poll4Hold 58 ;;
  if truthy r3 then set_state IDLE ;; ret (-2)
  else set_state ROM_COMMAND ;; ret 1.

(** The choice at a conflict, lines 350 to 364: the bit to write and the
    conflict position to return.  The start address is read only in the
    last branch. *)
Definition search_conflict (addrStart lastConfPos iBit currConfPos : Z) : M L (Z * Z) :=
  if iBit =? lastConfPos then ret (1, currConfPos)
  else if lastConfPos =? -1 then ret (0, currConfPos)
  else
    m <- get_mem ;;
    let writeBit := maskBitInArray m addrStart iBit in
    ret (writeBit,
         if negb (truthy (maskBitInArray m addrStart iBit)) then iBit else currConfPos).

(** Lines 337 to 340: at every eighth bit the next byte of the output
    address is taken up and cleared.  [iByte] is a [uint8_t]. *)
Definition search_next_byte (addrOut iBit iByte : Z) : M L Z :=
  if iBit mod 8 =? 0
  then let iByte := u8 (iByte + 1) in
       set_mem (addrOut + iByte) 0 ;; ret iByte
  else ret iByte.

(** One round of the loop of [wire1Search].  The loop carries [iByte] and
    [currConfPos]; [inl] is a [return] out of the loop. *)
Definition search_body (addrOut addrStart lastConfPos : Z) (iBit : Z) (st : Z * Z)
  : M L (Z + Z * Z) :=
  let '(iByte, currConfPos) := st in
  iByte <- search_next_byte addrOut iBit iByte ;;
  addrAck <- wire1ReadBit ;;
  addrNAck <- wire1ReadBit ;;
  if negb (truthy addrAck) && negb (truthy addrNAck) then
    wc <- search_conflict addrStart lastConfPos iBit currConfPos ;;
    let '(writeBit, currConfPos) := wc in
    (if truthy writeBit then or_mem (addrOut + iByte) (BV (iBit mod 8)) else ret tt) ;;
    wire1WriteBit writeBit ;;
    ret (inr (iByte, currConfPos))
  else if truthy addrAck && truthy addrNAck then
    ret (inl (-128))
  else
    wire1WriteBit addrAck ;;
    (if truthy addrAck then or_mem (addrOut + iByte) (BV (iBit mod 8)) else ret tt) ;;
    ret (inr (iByte, currConfPos)).

(** [n] rounds of the loop from bit [iBit] on. *)
Fixpoint search_loop (addrOut addrStart lastConfPos : Z) (n : nat) (iBit : Z)
  (st : Z * Z) : M L (Z + Z * Z) :=
  match n with
  | O => ret (inr st)
  | S n' =>
      r <- search_body addrOut addrStart lastConfPos iBit st ;;
      match r with
      | inl v => ret (inl v)
      | inr st' => search_loop addrOut addrStart lastConfPos n' (iBit + 1) st'
      end
  end.

(** Lines 380 to 389: the checksum test that ends [wire1Search]. *)
Definition search_finish (addrOut currConfPos : Z) : M L Z :=
  m <- get_mem ;;
  if m (addrOut + W1_ADDR_BYTE_CRC) =? crc8 0 W1_CRC_POLYNOMIAL (load m addrOut 8) 7
  then set_state FUNCTION_COMMAND ;; ret currConfPos
  else set_state IDLE ;; ret (-1).

(** Lines 324 to 378: the reset, the command byte and the 64 rounds. *)
Definition search_bits (addrOut addrStart lastConfPos rom_command : Z)
  : M L (Z + Z * Z) :=
  r <- wire1Reset ;;
  if negb (r =? 1) then ret (inl (-1)) else
  wire1WriteByte rom_command ;;
  search_loop addrOut addrStart lastConfPos 64 0 (u8 (-1), 64).

(** [static int8_t wire1Search(uint8_t *addrOut, uint8_t *addrStart,
    const uint8_t lastConfPos, const uint8_t rom_command)] *)
Definition wire1Search (addrOut addrStart lastConfPos rom_command : Z) : M L Z :=
  r <- search_bits addrOut addrStart lastConfPos rom_command ;;
  match r with
  | inl v => ret v
  | inr (_, currConfPos) => search_finish addrOut currConfPos
  end.

(** [int8_t wire1SearchLargerROM(uint8_t *addrOut, uint8_t *addrStart,
    const uint8_t lastConfPos)] *)
Definition wire1SearchLargerROM (addrOut addrStart lastConfPos : Z) : M L Z :=
  wire1Search addrOut addrStart lastConfPos W1_ROMCMD_SEARCH.

(** [int8_t wire1AlarmSearchLargerROM(uint8_t *addrOut, uint8_t *addrStart,
    const uint8_t lastConfPos)] *)
Definition wire1AlarmSearchLargerROM (addrOut addrStart lastConfPos : Z) : M L Z :=
  wire1Search addrOut addrStart lastConfPos W1_ROMCMD_ALARM.

(** [int8_t wire1ReadSingleROM(uint8_t *const addr)] *)
Definition wire1ReadSingleROM (addr : Z) : M L Z :=
  _ <- wire1Reset ;;
  st <- get_state ;;
  if negb (wire1state_eqb st ROM_COMMAND) then ret (-1) else
  wire1WriteByte W1_ROMCMD_READ ;;
  forM_upto 8 (fun i _ => b <- wire1ReadByte ;; set_mem (addr + i) b) tt ;;
  m <- get_mem ;;
  if m (addr + W1_ADDR_BYTE_CRC) =? crc8 0 W1_CRC_POLYNOMIAL (load m addr 8) 7
  then set_state FUNCTION_COMMAND ;; ret 0
  else set_state IDLE ;; ret 1.

(** The loop of [wire1MatchROM] that sends the eight address bytes. *)
Definition write_address (addr : Z) : M L unit :=
  forM_upto 8 (fun i _ => m <- get_mem ;; wire1WriteByte (m (addr + i))) tt.

(** [int8_t wire1MatchROM(uint8_t *const addr)] *)
Definition wire1MatchROM (addr : Z) : M L Z :=
  _ <- wire1Reset ;;
  st <- get_state ;;
  if negb (wire1state_eqb st ROM_COMMAND) then ret (-1) else
  wire1WriteByte W1_ROMCMD_MATCH ;;
  write_address addr ;;
  set_state FUNCTION_COMMAND ;;
  ret 0.

(** [int8_t wire1SkipROM(void)] *)
Definition wire1SkipROM : M L Z :=
  _ <- wire1Reset ;;
  st <- get_state ;;
  if negb (wire1state_eqb st ROM_COMMAND) then ret (-1) else
  wire1WriteByte W1_ROMCMD_SKIP ;;
  set_state FUNCTION_COMMAND ;;
  ret 0.

(** [int8_t wire1ReadPowerSupply(void)] *)
Definition wire1ReadPowerSupply : M L Z :=
  st <- get_state ;;
  if negb (wire1state_eqb st FUNCTION_COMMAND) then ret (-2) else
  wire1WriteByte W1_FUNC_PARASITE_POWER ;;
  b <- wire1ReadBit ;;
  let parasite_power := if truthy b then 0 else 1 in
  set_state IDLE ;;
  ret parasite_power.

End Driver.

(** ** A simulated bus

    The slaves are not part of the repository.  What follows is the
    environment the driver is run against: a line that decodes the master's
    pulses into slots, and behind it slaves that follow the bus protocol. *)

(** Modelled from the spec: the slaves as the protocol sees them, slot by
    slot.  A reset pulse is answered by presence or not; a slot in which
    the master holds the line throughout writes a 0; a slot that the master
    opens with a short pulse either writes a 1 or is a read slot, and only
    the slaves know which: the answer is the level they leave on the line,
    [false] when one of them pulls it low. *)
Class Slave (S : Type) : Type := {
  slave_reset : S -> bool * S;
  slave_zero : S -> S;
  slave_one : S -> bool * S
}.

(** Who but the master pulls the line low: nobody, a slave for the rest of
    the slot, or the slaves during their presence pulse, [k] samples after
    the master let go of its reset pulse. *)
Inductive Drive : Type :=
| DriveNone
| DriveSlot
| DrivePresence (k : nat).

Record Bus (S : Type) : Type := mkBus {
  slaves : S;
  master_low : bool;
  held : nat;
  drive : Drive
}.
Arguments mkBus {S} _ _ _ _.
Arguments slaves {S} _.
Arguments master_low {S} _.
Arguments held {S} _.
Arguments drive {S} _.

(** Time is counted in samples of the polls, 4 us each at 1 MHz: a low
    pulse of [reset_min] samples is a reset; the presence pulse starts
    [presence_from] samples after its end and lasts until [presence_to]. *)
Definition reset_min : nat := 120.
Definition presence_from : nat := 5.
Definition presence_to : nat := 30.

Section SimulatedLine.

Context {S : Type} {HS : Slave S}.

(** Modelled from the spec: the line as the pin sees it.  The master
    drives the line low; samples taken while it does so measure the pulse;
    when it lets go, the length of the pulse decides what the slaves were
    told: no sample in between is the short pulse that opens a read slot or
    writes a 1, [reset_min] samples or more are a reset, anything between
    writes a 0. *)
Definition bus_hold (b : Bus S) : Bus S :=
  if master_low b then b else mkBus (slaves b) true 0 DriveNone.

Definition bus_release (b : Bus S) : Bus S :=
  if negb (master_low b) then b
  else if Nat.eqb (held b) 0 then
    let (lvl, s) := slave_one (slaves b) in
    mkBus s false 0 (if lvl then DriveNone else DriveSlot)
  else if Nat.ltb (held b) reset_min then
    mkBus (slave_zero (slaves b)) false 0 DriveNone
  else
    let (present, s) := slave_reset (slaves b) in
    mkBus s false 0 (if present then DrivePresence 0 else DriveNone).

(** The level of the line: low while the master or a slave drives it. *)
Definition bus_sample (b : Bus S) : bool * Bus S :=
  if master_low b then (false, mkBus (slaves b) true (Datatypes.S (held b)) (drive b))
  else match drive b with
       | DriveNone => (true, b)
       | DriveSlot => (false, b)
       | DrivePresence k =>
           (negb (Nat.leb presence_from k && Nat.ltb k presence_to),
            mkBus (slaves b) false (held b) (DrivePresence (Datatypes.S k)))
       end.

#[export] Instance Bus_Line : Line (Bus S) := {
  pin_hold := bus_hold;
  pin_release := bus_release;
  pin_sample := bus_sample
}.

End SimulatedLine.

(** *** Devices with a ROM address *)

(** Bit [i] of an address, counted as [maskBitInArray] counts. *)
Definition rom_bit (d : list Z) (i : Z) : bool :=
  truthy (Z.land (idx d (i / 8)) (BV (i mod 8))).

Inductive SearchStep : Type :=
| SendBit
| SendComplement
| Receive.

(** Modelled from the spec: devices that answer a reset with presence,
    take a ROM command, and then follow the search (send the bit, send its
    complement, take the master's bit and drop out when it is not theirs),
    match an address, or send their address.  All devices hear the same
    slots, so they move through the protocol together and differ only in
    whether they still take part. *)
Inductive DevPhase : Type :=
| PhIdle
| PhRomCommand (k : Z) (cmd : Z)
| PhSearch (i : Z) (step : SearchStep)
| PhMatch (i : Z)
| PhRead (i : Z)
| PhFunction.

Record Devices : Type := mkDevices {
  roms : list (list Z);
  active : list (list Z);
  phase : DevPhase
}.

(** The phase a complete ROM command leads to. *)
Definition dev_dispatch (cmd : Z) : DevPhase :=
  if cmd =? W1_ROMCMD_SEARCH then PhSearch 0 SendBit
  else if cmd =? W1_ROMCMD_MATCH then PhMatch 0
  else if cmd =? W1_ROMCMD_READ then PhRead 0
  else if cmd =? W1_ROMCMD_SKIP then PhFunction
  else PhIdle.

(** The devices that stay in after the master wrote [b] for bit [i]. *)
Definition keep (i : Z) (b : bool) (ds : list (list Z)) : list (list Z) :=
  filter (fun d => Bool.eqb (rom_bit d i) b) ds.

(** A device takes the bit [b] written by the master. *)
Definition dev_receive (b : bool) (s : Devices) : Devices :=
  match phase s with
  | PhRomCommand k cmd =>
      let cmd := if b then Z.lor cmd (BV k) else cmd in
      mkDevices (roms s) (active s)
                (if k =? 7 then dev_dispatch cmd else PhRomCommand (k + 1) cmd)
  | PhSearch i Receive =>
      mkDevices (roms s) (keep i b (active s))
                (if i =? 63 then PhFunction else PhSearch (i + 1) SendBit)
  | PhMatch i =>
      mkDevices (roms s) (keep i b (active s))
                (if i =? 63 then PhFunction else PhMatch (i + 1))
  | _ => s
  end.

(** The level the devices leave on the line while they send, and where
    that leaves them. *)
Definition dev_send (s : Devices) : option (bool * Devices) :=
  match phase s with
  | PhSearch i SendBit =>
      Some (forallb (fun d => rom_bit d i) (active s),
            mkDevices (roms s) (active s) (PhSearch i SendComplement))
  | PhSearch i SendComplement =>
      Some (forallb (fun d => negb (rom_bit d i)) (active s),
            mkDevices (roms s) (active s) (PhSearch i Receive))
  | PhRead i =>
      Some (forallb (fun d => rom_bit d i) (active s),
            mkDevices (roms s) (active s)
                      (if i =? 63 then PhFunction else PhRead (i + 1)))
  | _ => None
  end.

Definition dev_reset (s : Devices) : bool * Devices :=
  (match roms s with [] => false | _ :: _ => true end,
   mkDevices (roms s) (roms s) (PhRomCommand 0 0)).

Definition dev_zero (s : Devices) : Devices :=
  match dev_send s with
  | Some (_, s') => s'
  | None => dev_receive false s
  end.

Definition dev_one (s : Devices) : bool * Devices :=
  match dev_send s with
  | Some r => r
  | None => (true, dev_receive true s)
  end.

#[export] Instance Devices_Slave : Slave Devices := {
  slave_reset := dev_reset;
  slave_zero := dev_zero;
  slave_one := dev_one
}.

(** *** A loopback slave *)

(** Modelled from the spec: the slave of a loopback bus.  It takes eight
    bits and then gives them back in the next eight slots. *)
Record Echo : Type := mkEcho {
  echo_in : list bool;
  echo_out : list bool
}.

Definition echo_receive (b : bool) (e : Echo) : Echo :=
  let l := echo_in e ++ [b] in
  if Nat.eqb (length l) 8 then mkEcho [] l else mkEcho l [].

Definition echo_one (e : Echo) : bool * Echo :=
  match echo_out e with
  | b :: rest => (b, mkEcho (echo_in e) rest)
  | [] => (true, echo_receive true e)
  end.

Definition echo_zero (e : Echo) : Echo :=
  match echo_out e with
  | _ :: rest => mkEcho (echo_in e) rest
  | [] => echo_receive false e
  end.

#[export] Instance Echo_Slave : Slave Echo := {
  slave_reset := fun _ => (true, mkEcho [] []);
  slave_zero := echo_zero;
  slave_one := echo_one
}.

(** *** Worlds to run the driver in *)

(** A quiet bus: the master has let go of the line and nobody drives it. *)
Definition quiet {S : Type} (s : S) : Bus S := mkBus s false 0 DriveNone.

(** The world at power-up: [wire1state = IDLE], [wire1_idleloops = 0],
    nothing done to the line yet. *)
Definition power_up {S : Type} (s : S) (m : Z -> Z) : World (Bus S) :=
  mkWorld (quiet s) [] IDLE 0 m.

Definition bus_of (ds : list (list Z)) : Devices := mkDevices ds [] PhIdle.

(** [memcpy(p, bytes, n)] *)
Fixpoint store_list (m : Z -> Z) (p : Z) (bytes : list Z) : Z -> Z :=
  match bytes with
  | [] => m
  | b :: rest => store_list (store m p b) (p + 1) rest
  end.

Definition set_bytes {L : Type} (p : Z) (bytes : list Z) (w : World L) : World L :=
  mkWorld (line w) (trace w) (wire1state w) (wire1_idleloops w)
          (store_list (mem w) p bytes).

(** *** The caller's enumeration *)

(** The caller of [wire1SearchLargerROM] as its comment asks for it: the
    first call starts from [lastConfPos] above 63, each later call from the
    address that the call before it found, copied into the start buffer,
    and from the value that call returned.  The calls stop at 64 and at any
    value that is no conflict position.  The result lists what each call
    found and returned. *)
Fixpoint search_all {L : Type} {HL : Line L} (calls : nat)
  (addrOut addrStart lastConfPos : Z) (w : World L) : list (list Z * Z) :=
  match calls with
  | O => []
  | Datatypes.S calls' =>
      let (r, w') := wire1SearchLargerROM addrOut addrStart lastConfPos w in
      let found := load (mem w') addrOut 8 in
      if (0 <=? r) && (r <? 64) then
        (found, r) :: search_all calls' addrOut addrStart r (set_bytes addrStart found w')
      else if r =? 64 then [(found, r)]
      else []
  end.



(** An address with the checksum of its first seven bytes in the eighth. *)
Definition valid_address (d : list Z) : Prop :=
  length d = 8%nat /\ Forall is_byte d /\
  idx d W1_ADDR_BYTE_CRC = crc8 0 W1_CRC_POLYNOMIAL d 7.

(** The order of the search: the first bit, counted from bit 0 of byte 0,
    in which two addresses differ decides, 0 before 1. *)
Definition search_lt (a b : list Z) : Prop :=
  exists j, 0 <= j < 64 /\
    (forall k, 0 <= k < j -> rom_bit a k = rom_bit b k) /\
    rom_bit a j = false /\ rom_bit b j = true.

(** A conflict position [c] returned together with the address [a]: a bit
    in which [a] has 0 and a device that agrees with [a] below it has 1. *)
Definition open_branch (ds : list (list Z)) (a : list Z) (c : Z) : Prop :=
  0 <= c < 64 /\ rom_bit a c = false /\
  exists e, In e ds /\ rom_bit e c = true /\
            forall k, 0 <= k < c -> rom_bit e k = rom_bit a k.

(** ** The vocabulary of the statements

    What the theorems below are stated with: bits of buffers, what an
    operation leaves alone, the slots as the slaves see them, the walk
    that the search takes through the addresses, and the worlds of the
    examples. *)

(** Bit [i] of the array at [p], as a truth value. *)
Definition mem_bit (m : Z -> Z) (p i : Z) : bool := truthy (maskBitInArray m p i).

(** The memory and the two variables of the driver are the same in both
    worlds. *)
Definition frame {L : Type} (w w' : World L) : Prop :=
  mem w' = mem w /\ wire1state w' = wire1state w /\
  wire1_idleloops w' = wire1_idleloops w.

(** An operation on the line only. *)
Definition line_only {L A : Type} (c : M L A) : Prop :=
  forall w, frame w (snd (c w)).

(** What holds of the output buffer before round [n]: [iByte] is the byte
    that the bits so far went to, and the bits of that byte from [n] on
    are still clear. *)
Definition out_inv (addrOut n iByte : Z) (m : Z -> Z) : Prop :=
  iByte = u8 ((n + 7) / 8 - 1) /\
  (forall k, n <= k < 8 * ((n + 7) / 8) -> mem_bit m addrOut k = false) /\
  (forall j, 0 <= j < (n + 7) / 8 -> is_byte (m (addrOut + j))).

(** What the slaves see of the driver's transfers, slot by slot. *)
Section SlotLevelDefinitions.

Context {S : Type} {HS : Slave S}.

(** A write slot. *)
Definition slave_write (bit : Z) (s : S) : S :=
  if truthy bit then snd (slave_one s) else slave_zero s.

(** The eight write slots of a byte. *)
Definition slave_write_byte (b : Z) (s : S) : S :=
  for_upto 8 (fun i s => slave_write (u8 (Z.land b (BV i))) s) s.

(** The eight read slots of a byte and the byte that they make. *)
Definition slave_read_byte (s : S) : S * Z :=
  for_upto 8
    (fun i '(s, acc) =>
       (snd (slave_one s),
        if fst (slave_one s) then u8 (Z.lor acc (BV i)) else acc))
    (s, 0).

(** The master is not holding the line. *)
Definition released (w : World (Bus S)) : Prop := master_low (line w) = false.

End SlotLevelDefinitions.

(** The byte that eight bits make, the first the least significant. *)
Definition byte_of_bits (q : list bool) : Z :=
  fold_right (fun (b : bool) acc => (if b then 1 else 0) + 2 * acc) 0 q.

(** The bits of a byte, bit 0 first. *)
Definition bits_of_byte (b : Z) : list bool :=
  map (Z.testbit b) [0; 1; 2; 3; 4; 5; 6; 7].

Definition echo_eqb (e1 e2 : Echo) : bool :=
  if list_eq_dec bool_dec (echo_in e1) (echo_in e2)
  then if list_eq_dec bool_dec (echo_out e1) (echo_out e2) then true else false
  else false.

(** What the 64 rounds compute, without the bus: the devices still taking
    part, the bits chosen so far and the conflict position. *)
Record Walk : Type := mkWalk {
  wk_active : list (list Z);
  wk_bits : Z -> bool;
  wk_conf : Z
}.

Definition all_ones (i : Z) (R : list (list Z)) : bool :=
  forallb (fun d => rom_bit d i) R.

Definition all_zeros (i : Z) (R : list (list Z)) : bool :=
  forallb (fun d => negb (rom_bit d i)) R.

(** Two addresses have the same bits below [i]. *)
Definition agree_below (f g : Z -> bool) (i : Z) : Prop :=
  forall k, 0 <= k < i -> f k = g k.

Section WalkDefinitions.

Variable ds : list (list Z).
Variable start : Z -> bool.
Variable lc : Z.

(** The bit of round [i]: the bit of the devices when they agree, and at
    a conflict 1 in round [lc] and the start bit in any other. *)
Definition walk_bit (i : Z) (R : list (list Z)) : bool :=
  if all_ones i R then true
  else if all_zeros i R then false
  else (i =? lc) || start i.

Definition walk_conf (i : Z) (R : list (list Z)) (conf : Z) : Z :=
  if negb (all_ones i R) && negb (all_zeros i R) && negb (i =? lc) && negb (start i)
  then i else conf.

Definition walk_step (i : Z) (s : Walk) : Walk :=
  mkWalk (keep i (walk_bit i (wk_active s)) (wk_active s))
         (fun k => if k =? i then walk_bit i (wk_active s) else wk_bits s k)
         (walk_conf i (wk_active s) (wk_conf s)).

Fixpoint walk_from (n : nat) (i : Z) (s : Walk) : Walk :=
  match n with
  | O => s
  | S n' => walk_from n' (i + 1) (walk_step i s)
  end.

Definition walk_start : Walk := mkWalk ds (fun _ => false) 64.

(** What holds before round [i]: the devices taking part are the ones that
    have the bits chosen so far; there is one; and the conflict position
    is 64 or a round in which 0 was chosen although a device taking part
    had 1. *)
Definition walk_inv (i : Z) (s : Walk) : Prop :=
  (forall d, In d (wk_active s) <->
             In d ds /\ agree_below (rom_bit d) (wk_bits s) i) /\
  wk_active s <> [] /\
  (wk_conf s = 64 \/
   (0 <= wk_conf s < i /\ wk_bits s (wk_conf s) = false /\
    exists e, In e ds /\ rom_bit e (wk_conf s) = true /\
              agree_below (rom_bit e) (wk_bits s) (wk_conf s))).

(** With no bit set in the start address and [lc] beyond the rounds, every
    device either still takes part or has a 1 where the walk chose 0, at
    the first bit in which it leaves the walk. *)
Definition first_inv (i : Z) (s : Walk) : Prop :=
  forall d, In d ds ->
    In d (wk_active s) \/
    exists j, 0 <= j < i /\ agree_below (rom_bit d) (wk_bits s) j /\
              wk_bits s j = false /\ rom_bit d j = true.

(** Starting from a device [P] and a conflict position [lc] at which [P]
    has 0 and another device, equal to [P] below [lc], has 1: the walk
    follows [P] up to [lc] and takes 1 there. *)
Definition next_inv (P : list Z) (i : Z) (s : Walk) : Prop :=
  if i <=? lc
  then agree_below (wk_bits s) (rom_bit P) i
  else agree_below (wk_bits s) (rom_bit P) lc /\ wk_bits s lc = true.

End WalkDefinitions.

(** The phase of the devices before round [i]. *)
Definition phase_at (i : Z) : DevPhase :=
  if i <? 64 then PhSearch i SendBit else PhFunction.

(** The bus between two calls: the master has let go of the line, the
    devices are the ones given, and no poll for idle is pending. *)
Definition bus_ready (ds : list (list Z)) (w : World (Bus Devices)) : Prop :=
  released w /\ roms (slaves (line w)) = ds /\ wire1state w <> WAIT_POLL.

Section EnumerationDefinitions.

Variable ds : list (list Z).




End EnumerationDefinitions.


(** Three addresses with their checksums.  Bits 0 and 1 are 0 and 1 in the
    first, 1 and 0 in the second, 1 and 1 in the third. *)
Definition rom_a : list Z := [0x06; 0; 0; 0; 0; 0; 0; 0x8E].
Definition rom_b : list Z := [0x01; 0; 0; 0; 0; 0; 0; 0x3D].
Definition rom_c : list Z := [0x03; 0; 0; 0; 0; 0; 0; 0x47].

(** The first of them with a wrong checksum byte. *)
Definition rom_bad : list Z := [0x06; 0; 0; 0; 0; 0; 0; 0x01].

Definition cleared : Z -> Z := fun _ => 0.

(** The first round of the first call on that bus: the world after the
    reset and the command, after the byte is cleared, and after each of
    the two read slots. *)
Definition round_w0 : World (Bus Devices) :=
  snd ((_ <- wire1Reset ;; wire1WriteByte W1_ROMCMD_SEARCH)
         (power_up (bus_of [rom_a; rom_b; rom_c]) cleared)).
Definition round_wc : World (Bus Devices) :=
  snd (search_next_byte 100 0 (u8 (-1)) round_w0).
Definition round_w1 : World (Bus Devices) := snd (wire1ReadBit round_wc).
Definition round_w2 : World (Bus Devices) := snd (wire1ReadBit round_w1).

(** The world after the 64 rounds of the first call. *)
Definition rounds_done : World (Bus Devices) :=
  snd (search_bits 100 200 255 W1_ROMCMD_SEARCH
         (power_up (bus_of [rom_a; rom_b; rom_c]) cleared)).
(** ** More vocabulary: the checksum, the polls, the trace *)

(** The bit positions, out of the 64 of an address, in which two addresses
    differ. *)
Definition differing_bits (a b : list Z) : list Z :=
  filter (fun i => negb (Bool.eqb (rom_bit a i) (rom_bit b i)))
         (map Z.of_nat (seq 0 64)).

(** Eight bytes with the bits [i] and [j] set and no other. *)
Definition two_bits (i j : Z) : list Z :=
  map (fun k => Z.lor (if k =? i / 8 then BV (i mod 8) else 0)
                      (if k =? j / 8 then BV (j mod 8) else 0))
      [0; 1; 2; 3; 4; 5; 6; 7].

(** The number, counted from 1, of the first of [n] looks at the pin of
    the line [l] that finds it at the level [wanted]. *)
Fixpoint first_level {L : Type} {HL : Line L} (wanted : bool) (n : nat) (l : L)
  : option nat :=
  match n with
  | O => None
  | S n' =>
      let (lvl, l') := pin_sample l in
      if Bool.eqb lvl wanted then Some 1%nat
      else option_map S (first_level wanted n' l')
  end.

(** [n] times [sbis] and [inc]: the unrolled body of the supersampling
    loop. *)
Fixpoint sample_times {L : Type} {HL : Line L} (n : nat) (bittest : Z) : M L Z :=
  match n with
  | O => ret bittest
  | S n' => b <- sample_inc bittest ;; sample_times n' b
  end.

(** The last thing done to the pin other than looking at it. *)
Fixpoint last_drive (tr : list LineOp) : option LineOp :=
  match tr with
  | [] => None
  | OpSample :: rest => last_drive rest
  | op :: _ => Some op
  end.

(** What a read slot does to the pin, newest first: the short pulse and
    24 looks. *)
Definition read_slot_ops : list LineOp :=
  repeat OpSample 24 ++ [OpRelease; OpHold].

(** The functions of one-wire.c that a caller can reach, and the world
    that each leaves. *)
Inductive Call : Type :=
| CallGetState
| CallHold
| CallRelease
| CallPoll4Hold (nloops : Z)
| CallPoll4Release (nloops : Z)
| CallPoll4Idle
| CallSetupPoll4Idle (nloops : Z)
| CallReset
| CallReadBit
| CallWriteBit (bit : Z)
| CallReadByte
| CallWriteByte (writeByte : Z)
| CallSearchLargerROM (addrOut addrStart lastConfPos : Z)
| CallAlarmSearchLargerROM (addrOut addrStart lastConfPos : Z)
| CallReadSingleROM (addr : Z)
| CallMatchROM (addr : Z)
| CallSkipROM
| CallReadPowerSupply.

Definition after {L : Type} {HL : Line L} (c : Call) (w : World L) : World L :=
  match c with
  | CallGetState => snd (wire1GetState w)
  | CallHold => snd (wire1Hold w)
  | CallRelease => snd (wire1Release w)
  | CallPoll4Hold n => snd (wire1Poll4Hold n w)
  | CallPoll4Release n => snd (wire1Poll4Release n w)
  | CallPoll4Idle => snd (wire1Poll4Idle w)
  | CallSetupPoll4Idle n => snd (wire1SetupPoll4Idle n w)
  | CallReset => snd (wire1Reset w)
  | CallReadBit => snd (wire1ReadBit w)
  | CallWriteBit b => snd (wire1WriteBit b w)
  | CallReadByte => snd (wire1ReadByte w)
  | CallWriteByte b => snd (wire1WriteByte b w)
  | CallSearchLargerROM o s c => snd (wire1SearchLargerROM o s c w)
  | CallAlarmSearchLargerROM o s c => snd (wire1AlarmSearchLargerROM o s c w)
  | CallReadSingleROM a => snd (wire1ReadSingleROM a w)
  | CallMatchROM a => snd (wire1MatchROM a w)
  | CallSkipROM => snd (wire1SkipROM w)
  | CallReadPowerSupply => snd (wire1ReadPowerSupply w)
  end.

(** A program of calls, run from left to right. *)
Fixpoint after_all {L : Type} {HL : Line L} (cs : list Call) (w : World L) : World L :=
  match cs with
  | [] => w
  | c :: rest => after_all rest (after c w)
  end.

(** An operation that drives the pin either not at all or ends by letting
    it go: what it adds to the trace has no drive in it, or a release as
    its last. *)
Definition lets_go {L A : Type} (c : M L A) : Prop :=
  forall w, exists ops,
    trace (snd (c w)) = ops ++ trace w /\
    (last_drive ops = None \/ last_drive ops = Some OpRelease).

(** The bytes that a call may write: the eight of the output buffer of a
    search or of [wire1ReadSingleROM], and none for any other call. *)
Definition output_buffer (c : Call) (q : Z) : Prop :=
  match c with
  | CallSearchLargerROM addrOut _ _ => addrOut <= q < addrOut + 8
  | CallAlarmSearchLargerROM addrOut _ _ => addrOut <= q < addrOut + 8
  | CallReadSingleROM addr => addr <= q < addr + 8
  | _ => False
  end.

Definition is_setup (c : Call) : bool :=
  match c with
  | CallSetupPoll4Idle _ => true
  | _ => false
  end.

Definition is_hold (c : Call) : bool :=
  match c with
  | CallHold => true
  | _ => false
  end.

(** From [w] to [w']: the poll count is kept, the state WAIT_POLL is not
    newly entered, and memory changes only where [out] allows. *)
Definition tame_step {L : Type} (out : Z -> Prop) (w w' : World L) : Prop :=
  wire1_idleloops w' = wire1_idleloops w /\
  (wire1state w' = WAIT_POLL -> wire1state w = WAIT_POLL) /\
  (forall q, ~ out q -> mem w' q = mem w q).

Definition tame {L A : Type} (out : Z -> Prop) (c : M L A) : Prop :=
  forall w, tame_step out w (snd (c w)).

(** The window of eight bytes at [p]. *)
Definition window (p : Z) (q : Z) : Prop := p <= q < p + 8.

(** [n] read slots one after the other and what each found. *)
Fixpoint read_slots {L : Type} {HL : Line L} (n : nat) : M L (list bool) :=
  match n with
  | O => ret []
  | S n' => b <- wire1ReadBit ;; rest <- read_slots n' ;; ret (truthy b :: rest)
  end.

(** One write slot for each bit of a list. *)
Fixpoint write_slots {L : Type} {HL : Line L} (bits : list bool) : M L unit :=
  match bits with
  | [] => ret tt
  | b :: rest => wire1WriteBit (if b then 1 else 0) ;; write_slots rest
  end.

(** The phase of the devices before bit [i] of a matched address, and
    before bit [i] of the address that they send. *)
Definition match_phase (i : Z) : DevPhase :=
  if i <? 64 then PhMatch i else PhFunction.

Definition read_phase (i : Z) : DevPhase :=
  if i <? 64 then PhRead i else PhFunction.

(** Worlds for the examples: a bus with one device and a bus with two,
    at power-up. *)
Definition one_device : World (Bus Devices) := power_up (bus_of [rom_a]) cleared.
Definition two_devices : World (Bus Devices) := power_up (bus_of [rom_a; rom_b]) cleared.
(** *** Properties of the checksum *)

Lemma for_from_snoc {A : Type} (n : nat) (i : Z) (body : Z -> A -> A) (acc : A) :
  for_from (S n) i body acc = body (i + Z.of_nat n) (for_from n i body acc).
Proof.
  revert i acc. induction n as [|n IH]; intros i acc.
  - simpl. now rewrite Z.add_0_r.
  - change (for_from (S (S n)) i body acc)
      with (for_from (S n) (i + 1) body (body i acc)).
    rewrite IH. simpl for_from at 2.
    f_equal. lia.
Qed.

Lemma for_from_ext {A : Type} (n : nat) (i : Z) (f g : Z -> A -> A) (acc : A) :
  (forall k a, i <= k < i + Z.of_nat n -> f k a = g k a) ->
  for_from n i f acc = for_from n i g acc.
Proof.
  revert i acc. induction n as [|n IH]; intros i acc Hfg; simpl; [reflexivity|].
  rewrite Hfg by lia. apply IH. intros k a Hk. apply Hfg. lia.
Qed.

Lemma u8_range (z : Z) : is_byte (u8 z).
Proof. unfold is_byte, u8. apply Z.mod_pos_bound. lia. Qed.

Lemma crc8_bit_range (p d j r : Z) : is_byte (crc8_bit p d j r).
Proof. unfold crc8_bit. destruct (truthy _); apply u8_range. Qed.

Lemma crc8_byte_range (p d r : Z) : is_byte (crc8_byte p d r).
Proof.
  unfold crc8_byte, for_upto. rewrite for_from_snoc. apply crc8_bit_range.
Qed.

(** The checksum of at least one byte is a byte, whatever the seed. *)
Lemma crc8_range (c p : Z) (data : list Z) (size : Z) :
  0 < size -> is_byte (crc8 c p data size).
Proof.
  intros Hs. unfold crc8, for_upto.
  destruct (Z.to_nat size) as [|n] eqn:E; [lia|].
  rewrite for_from_snoc. apply crc8_byte_range.
Qed.

(** Folding a byte into a remainder equal to it leaves nothing: each of the
    eight steps finds the data bit equal to the low bit of the remainder. *)
Lemma crc8_byte_self (r : Z) :
  is_byte r -> crc8_byte W1_CRC_POLYNOMIAL r r = 0.
Proof.
  intros Hr.
  assert (Hall : forallb (fun n => crc8_byte W1_CRC_POLYNOMIAL (Z.of_nat n) (Z.of_nat n) =? 0)
                         (seq 0 256) = true) by (vm_compute; reflexivity).
  rewrite forallb_forall in Hall.
  specialize (Hall (Z.to_nat r)).
  rewrite Z2Nat.id in Hall by (unfold is_byte in Hr; lia).
  apply Z.eqb_eq, Hall, in_seq. unfold is_byte in Hr. lia.
Qed.

(** One more byte of data is one more round of the outer loop. *)
Lemma crc8_snoc (c p : Z) (data : list Z) (x : Z) :
  crc8 c p (data ++ [x]) (Z.of_nat (length data) + 1) =
  crc8_byte p x (crc8 c p data (Z.of_nat (length data))).
Proof.
  unfold crc8, for_upto.
  replace (Z.to_nat (Z.of_nat (length data) + 1)) with (S (length data)) by lia.
  rewrite Nat2Z.id, for_from_snoc. simpl Z.add.
  unfold idx at 1. rewrite Nat2Z.id, nth_middle. f_equal.
  apply for_from_ext. intros k a Hk. f_equal.
  unfold idx. apply app_nth1. lia.
Qed.

(** C2.  For every seed byte and every payload of seven bytes, the checksum
    recomputed over the payload followed by its own checksum byte, with the
    same seed and the polynomial 0x8C, is zero. *)
Theorem crc8_self_check (seed : Z) (payload : list Z) :
  is_byte seed ->
  Forall is_byte payload ->
  length payload = 7%nat ->
  crc8 seed W1_CRC_POLYNOMIAL
       (payload ++ [crc8 seed W1_CRC_POLYNOMIAL payload 7]) 8 = 0.
Proof.
  intros _ _ Hlen.
  change 8 with (7 + 1). change 7 with (Z.of_nat 7) at 1 2.
  rewrite <- Hlen, crc8_snoc, Hlen.
  apply crc8_byte_self, crc8_range. lia.
Qed.

Lemma crc8_self_check_witness :
  crc8 0 W1_CRC_POLYNOMIAL
       ([0x28; 0xFF; 0x4B; 0x46; 0x92; 0x16; 0x03] ++
        [crc8 0 W1_CRC_POLYNOMIAL [0x28; 0xFF; 0x4B; 0x46; 0x92; 0x16; 0x03] 7]) 8 = 0.
Proof.
  apply crc8_self_check.
  - unfold is_byte; lia.
  - repeat constructor; unfold is_byte; lia.
  - reflexivity.
Defined.

(** ** Bits of bytes and of memory *)

Lemma truthy_land_BV (x k : Z) :
  0 <= k -> truthy (Z.land x (BV k)) = Z.testbit x k.
Proof.
  intros Hk. unfold truthy, BV. rewrite Z.shiftl_1_l.
  destruct (Z.testbit x k) eqn:Hx.
  - destruct (Z.land x (2 ^ k) =? 0) eqn:E; [|reflexivity].
    apply Z.eqb_eq in E.
    assert (Hb : Z.testbit (Z.land x (2 ^ k)) k = true)
      by (rewrite Z.land_spec, Hx, Z.pow2_bits_true by lia; reflexivity).
    rewrite E, Z.bits_0 in Hb. discriminate.
  - replace (Z.land x (2 ^ k)) with 0; [reflexivity|].
    symmetry. apply Z.bits_inj_0. intros n.
    rewrite Z.land_spec, Z.pow2_bits_eqb by lia.
    destruct (k =? n) eqn:E.
    + apply Z.eqb_eq in E. subst n. now rewrite Hx.
    + apply andb_false_r.
Qed.

Lemma mem_bit_testbit (m : Z -> Z) (p i : Z) :
  0 <= i -> mem_bit m p i = Z.testbit (m (p + i / 8)) (i mod 8).
Proof.
  intros Hi. unfold mem_bit, maskBitInArray. apply truthy_land_BV.
  apply Z.mod_pos_bound. lia.
Qed.

Lemma rom_bit_testbit (d : list Z) (i : Z) :
  0 <= i -> rom_bit d i = Z.testbit (idx d (i / 8)) (i mod 8).
Proof.
  intros Hi. unfold rom_bit. apply truthy_land_BV.
  apply Z.mod_pos_bound. lia.
Qed.

Lemma testbit_u8 (x k : Z) : Z.testbit (u8 x) k = (k <? 8) && Z.testbit x k.
Proof. unfold u8. change 256 with (2 ^ 8). apply Z.testbit_mod_pow2. lia. Qed.

Lemma testbit_BV (j k : Z) : 0 <= j -> Z.testbit (BV j) k = (j =? k).
Proof. intros Hj. unfold BV. rewrite Z.shiftl_1_l. now apply Z.pow2_bits_eqb. Qed.

Lemma u8_small (x : Z) : is_byte x -> u8 x = x.
Proof. intros Hx. apply Z.mod_small. exact Hx. Qed.

Lemma store_eq (m : Z -> Z) (p v : Z) : store m p v p = v.
Proof. unfold store. now rewrite Z.eqb_refl. Qed.

Lemma store_neq (m : Z -> Z) (p v q : Z) : q <> p -> store m p v q = m q.
Proof. intros Hq. unfold store. destruct (q =? p) eqn:E; [|reflexivity]. apply Z.eqb_eq in E. contradiction. Qed.

(** Two bytes with the same eight bits are the same byte. *)
Lemma byte_bits_inj (x y : Z) :
  is_byte x -> is_byte y ->
  (forall k, 0 <= k < 8 -> Z.testbit x k = Z.testbit y k) -> x = y.
Proof.
  intros Hx Hy Hb. rewrite <- (u8_small x Hx), <- (u8_small y Hy).
  apply Z.bits_inj'. intros n Hn. rewrite !testbit_u8.
  destruct (n <? 8) eqn:E; [|reflexivity]. apply Z.ltb_lt in E.
  simpl. apply Hb. lia.
Qed.

Section DriverFacts.

Context {L : Type} {HL : Line L}.

(** *** Sequencing *)

Lemma bind_inv {A B : Type} (c : M L A) (k : A -> M L B) (w w2 : World L) (b : B) :
  bind c k w = (b, w2) -> exists a w1, c w = (a, w1) /\ k a w1 = (b, w2).
Proof.
  unfold bind. destruct (c w) as [a w1]. intros H. now exists a, w1.
Qed.

Lemma bind_eq {A B : Type} (c : M L A) (k : A -> M L B) (w w1 : World L) (a : A) :
  c w = (a, w1) -> bind c k w = k a w1.
Proof. unfold bind. now intros ->. Qed.

(** *** What the line operations leave alone *)

Lemma frame_refl (w : World L) : frame w w.
Proof. now repeat split. Qed.

Lemma frame_trans (w1 w2 w3 : World L) : frame w1 w2 -> frame w2 w3 -> frame w1 w3.
Proof.
  intros (Ha & Hb & Hc) (Ha' & Hb' & Hc'). repeat split; congruence.
Qed.

Lemma line_only_ret {A : Type} (a : A) : line_only (ret (L := L) a).
Proof. intros w. apply frame_refl. Qed.

Lemma line_only_bind {A B : Type} (c : M L A) (k : A -> M L B) :
  line_only c -> (forall a, line_only (k a)) -> line_only (bind c k).
Proof.
  intros Hc Hk w. unfold bind. specialize (Hc w).
  destruct (c w) as [a w1]. simpl in Hc.
  eapply frame_trans; [exact Hc | apply Hk].
Qed.

Lemma line_only_hold : line_only wire1Hold.
Proof. intros w. now repeat split. Qed.

Lemma line_only_release : line_only wire1Release.
Proof. intros w. now repeat split. Qed.

Lemma line_only_sample : line_only sample_pin.
Proof.
  intros w. unfold sample_pin. destruct (pin_sample (line w)). now repeat split.
Qed.

Lemma line_only_poll_loop (wanted : bool) (nloops : Z) (count : nat) :
  line_only (poll_loop wanted nloops count).
Proof.
  induction count as [|c IH]; simpl.
  - apply line_only_ret.
  - apply line_only_bind; [apply line_only_sample|].
    intros lvl. destruct (Bool.eqb lvl wanted); [apply line_only_ret|].
    destruct c; [apply line_only_ret | exact IH].
Qed.

Lemma line_only_poll4hold (n : Z) : line_only (wire1Poll4Hold n).
Proof.
  unfold wire1Poll4Hold. destruct (n =? 0);
    [apply line_only_ret | apply line_only_poll_loop].
Qed.

Lemma line_only_poll4release (n : Z) : line_only (wire1Poll4Release n).
Proof.
  unfold wire1Poll4Release. destruct (n =? 0);
    [apply line_only_ret | apply line_only_poll_loop].
Qed.

Lemma line_only_sample_inc (b : Z) : line_only (sample_inc b).
Proof.
  apply line_only_bind; [apply line_only_sample | intros; apply line_only_ret].
Qed.

Lemma line_only_supersample (i : nat) (b : Z) : line_only (supersample i b).
Proof.
  revert b. induction i as [|i IH]; intros b; simpl.
  - apply line_only_ret.
  - repeat (apply line_only_bind; [apply line_only_sample_inc | intros ?]).
    apply IH.
Qed.

Lemma line_only_readbit : line_only wire1ReadBit.
Proof.
  unfold wire1ReadBit.
  apply line_only_bind; [apply line_only_hold | intros _].
  apply line_only_bind; [apply line_only_release | intros _].
  apply line_only_bind; [apply line_only_supersample | intros ?].
  apply line_only_ret.
Qed.

Lemma line_only_writebit (bit : Z) : line_only (wire1WriteBit bit).
Proof.
  unfold wire1WriteBit.
  apply line_only_bind; [apply line_only_hold | intros _].
  destruct (truthy bit).
  - apply line_only_bind; [apply line_only_release | intros _].
    apply line_only_bind; [apply line_only_poll4hold | intros ?].
    apply line_only_ret.
  - apply line_only_bind; [apply line_only_poll4release | intros ?].
    apply line_only_release.
Qed.

Lemma line_only_forM {A : Type} (body : Z -> A -> M L A) (n : nat) (i : Z) (a : A) :
  (forall j x, line_only (body j x)) -> line_only (forM_from n i body a).
Proof.
  intros Hb. revert i a. induction n as [|n IH]; intros i a; simpl.
  - apply line_only_ret.
  - apply line_only_bind; [apply Hb | intros ?; apply IH].
Qed.

Lemma line_only_writebyte (b : Z) : line_only (wire1WriteByte b).
Proof. apply line_only_forM. intros. apply line_only_writebit. Qed.

Lemma line_only_readbyte : line_only wire1ReadByte.
Proof.
  apply line_only_forM. intros.
  apply line_only_bind; [apply line_only_readbit | intros; apply line_only_ret].
Qed.

Lemma frame_of {A : Type} (c : M L A) (w w1 : World L) (a : A) :
  line_only c -> c w = (a, w1) -> frame w w1.
Proof. intros Hc E. specialize (Hc w). now rewrite E in Hc. Qed.

(** *** Out of phase *)

(** C5.  In every state but FUNCTION_COMMAND, [wire1ReadPowerSupply]
    returns -2 and hands back the world it was given: nothing was done to
    the line (the line and the record of operations are the same) and the
    session state is unchanged. *)
Theorem wire1ReadPowerSupply_out_of_phase (w : World L) :
  wire1state w <> FUNCTION_COMMAND ->
  wire1ReadPowerSupply w = (-2, w).
Proof.
  intros Hst. unfold wire1ReadPowerSupply, bind, get_state.
  destruct (wire1state w) eqn:E; try reflexivity. contradiction.
Qed.

(** *** The conflict branch *)

(** C10.  [lastConfPos] is a [uint8_t], so it is never -1: at a conflict
    (both read slots low) in a round whose bit index is not [lastConfPos],
    the round reads the start address, writes that bit, keeps it in the
    output address and takes the index as the new conflict position when
    the bit is 0.  The branch that would write 0 is never taken. *)
Theorem search_conflict_reads_start
  (addrOut addrStart lastConfPos iBit iByte currConfPos iByte' : Z)
  (w wc w1 w2 : World L) :
  is_byte lastConfPos ->
  iBit <> lastConfPos ->
  search_next_byte addrOut iBit iByte w = (iByte', wc) ->
  wire1ReadBit wc = (0, w1) ->
  wire1ReadBit w1 = (0, w2) ->
  (lastConfPos =? -1) = false /\
  search_body addrOut addrStart lastConfPos iBit (iByte, currConfPos) w =
  (let writeBit := maskBitInArray (mem w2) addrStart iBit in
   (if truthy writeBit then or_mem (addrOut + iByte') (BV (iBit mod 8)) else ret tt) ;;
   wire1WriteBit writeBit ;;
   ret (inr (iByte', if truthy writeBit then currConfPos else iBit))) w2.
Proof.
  intros Hlc Hne Hc H1 H2.
  assert (Hm1 : (lastConfPos =? -1) = false)
    by (apply Z.eqb_neq; unfold is_byte in Hlc; lia).
  split; [exact Hm1|].
  unfold search_body.
  rewrite (bind_eq _ _ _ _ _ Hc), (bind_eq _ _ _ _ _ H1), (bind_eq _ _ _ _ _ H2).
  change (negb (truthy 0) && negb (truthy 0)) with true. cbv iota.
  unfold search_conflict. rewrite Hm1.
  replace (iBit =? lastConfPos) with false by (symmetry; now apply Z.eqb_neq).
  unfold bind at 1 2, get_mem, ret. cbv zeta.
  destruct (truthy (maskBitInArray (mem w2) addrStart iBit)); reflexivity.
Qed.

End DriverFacts.

(** ** The rounds of the search on any line *)

Section SearchRounds.

Context {L : Type} {HL : Line L}.

Lemma out_inv_start (addrOut : Z) (m : Z -> Z) : out_inv addrOut 0 (u8 (-1)) m.
Proof.
  split; [reflexivity|].
  split; intros k Hk; change ((0 + 7) / 8) with 0 in Hk; lia.
Qed.

Lemma mem_bit_store (m : Z -> Z) (p q v k : Z) :
  0 <= k ->
  mem_bit (store m q v) p k =
  if p + k / 8 =? q then Z.testbit v (k mod 8) else mem_bit m p k.
Proof.
  intros Hk. rewrite !mem_bit_testbit by lia. unfold store.
  destruct (p + k / 8 =? q); reflexivity.
Qed.

(** Setting bit [n] of the output buffer changes that bit and no other. *)
Lemma mem_bit_or (m : Z -> Z) (p n k : Z) :
  0 <= n -> 0 <= k ->
  mem_bit (store m (p + n / 8) (u8 (Z.lor (m (p + n / 8)) (BV (n mod 8))))) p k =
  mem_bit m p k || (k =? n).
Proof.
  intros Hn Hk. rewrite mem_bit_store by lia.
  assert (Hm : 0 <= k mod 8 < 8) by (apply Z.mod_pos_bound; lia).
  assert (Hm' : 0 <= n mod 8 < 8) by (apply Z.mod_pos_bound; lia).
  destruct (p + k / 8 =? p + n / 8) eqn:E.
  - apply Z.eqb_eq in E.
    rewrite testbit_u8, Z.lor_spec, testbit_BV by lia.
    replace (k mod 8 <? 8) with true by (symmetry; apply Z.ltb_lt; lia).
    rewrite mem_bit_testbit by lia. simpl andb.
    replace (p + k / 8) with (p + n / 8) by lia. f_equal.
    destruct (k =? n) eqn:E2.
    + apply Z.eqb_eq in E2. subst k. apply Z.eqb_refl.
    + apply Z.eqb_neq in E2. apply Z.eqb_neq.
      pose proof (Z.div_mod k 8). pose proof (Z.div_mod n 8). lia.
  - apply Z.eqb_neq in E.
    replace (k =? n) with false; [now rewrite orb_false_r|].
    symmetry. apply Z.eqb_neq. intros ->. lia.
Qed.

(** The first step of a round: afterwards [iByte] is the byte of bit [n]
    and the bits of that byte from [n] on are clear. *)
Lemma search_next_byte_spec (addrOut n iByte iByte' : Z) (w wc : World L) :
  0 <= n < 64 ->
  out_inv addrOut n iByte (mem w) ->
  search_next_byte addrOut n iByte w = (iByte', wc) ->
  iByte' = n / 8 /\
  line wc = line w /\ trace wc = trace w /\
  wire1state wc = wire1state w /\ wire1_idleloops wc = wire1_idleloops w /\
  (forall k, n <= k < 8 * (n / 8) + 8 -> mem_bit (mem wc) addrOut k = false) /\
  (forall k, 0 <= k < n -> mem_bit (mem wc) addrOut k = mem_bit (mem w) addrOut k) /\
  (forall q, q < addrOut \/ addrOut + 8 <= q -> mem wc q = mem w q) /\
  (forall j, 0 <= j <= n / 8 -> is_byte (mem wc (addrOut + j))).
Proof.
  intros Hn (Hib & Hclr & Hby) Hnb. unfold search_next_byte in Hnb.
  pose proof (Z.div_mod n 8 ltac:(lia)) as Hdm.
  pose proof (Z.mod_pos_bound n 8 ltac:(lia)) as Hmb.
  destruct (n mod 8 =? 0) eqn:E.
  - apply Z.eqb_eq in E.
    assert (Hq : (n + 7) / 8 = n / 8).
    { symmetry. apply Z.div_unique with (r := 7); lia. }
    assert (Hi' : u8 (iByte + 1) = n / 8).
    { subst iByte. rewrite Hq. unfold u8. rewrite Z.add_mod_idemp_l by lia.
      replace (n / 8 - 1 + 1) with (n / 8) by lia. apply Z.mod_small. lia. }
    cbv zeta in Hnb. rewrite Hi' in Hnb.
    unfold bind, set_mem, ret in Hnb. injection Hnb as <- <-.
    cbn [mem line trace wire1state wire1_idleloops].
    do 5 (split; [reflexivity|]). split; [|split; [|split]].
    + intros k Hk. rewrite mem_bit_store by lia.
      replace (addrOut + k / 8 =? addrOut + n / 8) with true.
      * apply Z.bits_0.
      * symmetry. apply Z.eqb_eq. f_equal.
        clear -Hk Hn E. Z.to_euclidean_division_equations. lia.
    + intros k Hk. rewrite mem_bit_store by lia.
      replace (addrOut + k / 8 =? addrOut + n / 8) with false; [reflexivity|].
      symmetry. apply Z.eqb_neq.
      clear -Hk Hn E. Z.to_euclidean_division_equations. lia.
    + intros q Hq'. apply store_neq. lia.
    + intros j Hj. unfold store. destruct (addrOut + j =? addrOut + n / 8) eqn:Ej.
      * unfold is_byte. lia.
      * apply Z.eqb_neq in Ej. apply Hby. rewrite Hq. lia.
  - apply Z.eqb_neq in E.
    assert (Hq : (n + 7) / 8 = n / 8 + 1).
    { symmetry. apply Z.div_unique with (r := n mod 8 - 1); lia. }
    unfold ret in Hnb. injection Hnb as <- <-.
    split; [|do 4 (split; [reflexivity|]); split; [|split; [|split]]].
    + subst iByte. rewrite Hq. replace (n / 8 + 1 - 1) with (n / 8) by lia.
      apply Z.mod_small. lia.
    + intros k Hk. apply Hclr. rewrite Hq. lia.
    + reflexivity.
    + reflexivity.
    + intros j Hj. apply Hby. rewrite Hq. lia.
Qed.

(** What a round that does not return does to the world, beyond the line:
    it may set bit [n] of the output buffer, and it may take [n] as the
    conflict position. *)
Lemma search_body_effect
  (addrOut addrStart lastConfPos n iByte ccp iByte' iByte2 ccp2 : Z)
  (w wc w' : World L) :
  search_next_byte addrOut n iByte w = (iByte', wc) ->
  search_body addrOut addrStart lastConfPos n (iByte, ccp) w = (inr (iByte2, ccp2), w') ->
  iByte2 = iByte' /\ (ccp2 = ccp \/ ccp2 = n) /\
  wire1state w' = wire1state wc /\ wire1_idleloops w' = wire1_idleloops wc /\
  exists b : bool,
    mem w' = if b
             then store (mem wc) (addrOut + iByte')
                        (u8 (Z.lor (mem wc (addrOut + iByte')) (BV (n mod 8))))
             else mem wc.
Proof.
  intros Hnb Hbody. unfold search_body in Hbody.
  rewrite (bind_eq _ _ _ _ _ Hnb) in Hbody.
  apply bind_inv in Hbody as (ack & w1 & Hr1 & Hbody).
  apply bind_inv in Hbody as (nack & w2 & Hr2 & Hbody).
  pose proof (frame_of _ _ _ _ line_only_readbit Hr1) as (Fm1 & Fs1 & Fi1).
  pose proof (frame_of _ _ _ _ line_only_readbit Hr2) as (Fm2 & Fs2 & Fi2).
  destruct (negb (truthy ack) && negb (truthy nack)).
  - apply bind_inv in Hbody as ([writeBit ccp'] & w3 & Hsc & Hbody).
    assert (Hc3 : w3 = w2 /\ (ccp' = ccp \/ ccp' = n)).
    { unfold search_conflict in Hsc.
      destruct (n =? lastConfPos); [|destruct (lastConfPos =? -1)].
      - injection Hsc as <- <- <-. auto.
      - injection Hsc as <- <- <-. auto.
      - unfold bind, get_mem, ret in Hsc. injection Hsc as <- <- <-.
        split; [reflexivity|]. destruct (negb _); auto. }
    destruct Hc3 as [-> Hccp].
    apply bind_inv in Hbody as ([] & w4 & Hor & Hbody).
    apply bind_inv in Hbody as ([] & w5 & Hwr & Hbody).
    injection Hbody as <- <- <-.
    pose proof (frame_of _ _ _ _ (line_only_writebit writeBit) Hwr) as (Fm5 & Fs5 & Fi5).
    split; [reflexivity|]. split; [exact Hccp|].
    destruct (truthy writeBit).
    + unfold or_mem, bind, get_mem, set_mem in Hor. injection Hor as <-.
      simpl in *. repeat split; try congruence.
      exists true. rewrite Fm5, Fm2, Fm1. reflexivity.
    + injection Hor as <-.
      repeat split; try congruence. exists false. congruence.
  - destruct (truthy ack && truthy nack); [discriminate|].
    apply bind_inv in Hbody as ([] & w3 & Hwr & Hbody).
    apply bind_inv in Hbody as ([] & w4 & Hor & Hbody).
    injection Hbody as <- <- <-.
    pose proof (frame_of _ _ _ _ (line_only_writebit ack) Hwr) as (Fm3 & Fs3 & Fi3).
    split; [reflexivity|]. split; [now left|].
    destruct (truthy ack).
    + unfold or_mem, bind, get_mem, set_mem in Hor. injection Hor as <-.
      simpl in *. repeat split; try congruence.
      exists true. rewrite Fm3, Fm2, Fm1. reflexivity.
    + injection Hor as <-.
      repeat split; try congruence. exists false. congruence.
Qed.

(** A round keeps the invariant of the output buffer, keeps the conflict
    position in range, and leaves the earlier bits and the memory outside
    the buffer as they were. *)
Lemma search_body_inv
  (addrOut addrStart lastConfPos n iByte ccp iByte2 ccp2 : Z) (w w' : World L) :
  0 <= n < 64 ->
  out_inv addrOut n iByte (mem w) ->
  0 <= ccp <= 64 ->
  search_body addrOut addrStart lastConfPos n (iByte, ccp) w = (inr (iByte2, ccp2), w') ->
  out_inv addrOut (n + 1) iByte2 (mem w') /\
  0 <= ccp2 <= 64 /\
  (forall k, 0 <= k < n -> mem_bit (mem w') addrOut k = mem_bit (mem w) addrOut k) /\
  (forall q, q < addrOut \/ addrOut + 8 <= q -> mem w' q = mem w q).
Proof.
  intros Hn Hinv Hccp Hbody.
  destruct (search_next_byte addrOut n iByte w) as [iByte' wc] eqn:Hnb.
  destruct (search_next_byte_spec _ _ _ _ _ _ Hn Hinv Hnb)
    as (Hi' & _ & _ & _ & _ & Hclr & Hold & Hout & Hby).
  destruct (search_body_effect _ _ _ _ _ _ _ _ _ _ _ _ Hnb Hbody)
    as (-> & Hc2 & _ & _ & b & Hmem).
  pose proof (Z.div_mod n 8 ltac:(lia)) as Hdm.
  pose proof (Z.mod_pos_bound n 8 ltac:(lia)) as Hmb.
  assert (Hq : (n + 1 + 7) / 8 = n / 8 + 1).
  { symmetry. apply Z.div_unique with (r := n mod 8); lia. }
  subst iByte'.
  assert (Hbits : forall k, 0 <= k ->
            mem_bit (mem w') addrOut k = mem_bit (mem wc) addrOut k || (b && (k =? n))).
  { intros k Hk. rewrite Hmem. destruct b.
    - now rewrite mem_bit_or by lia.
    - now rewrite orb_false_r. }
  split; [split; [|split]|split; [|split]].
  - rewrite Hq. replace (n / 8 + 1 - 1) with (n / 8) by lia.
    symmetry. apply Z.mod_small. lia.
  - intros k Hk. rewrite Hq in Hk. rewrite Hbits by lia.
    rewrite Hclr by lia.
    replace (k =? n) with false by (symmetry; apply Z.eqb_neq; lia).
    now rewrite andb_false_r.
  - intros j Hj. rewrite Hq in Hj. rewrite Hmem. destruct b.
    + unfold store. destruct (addrOut + j =? addrOut + n / 8);
        [apply u8_range | apply Hby; lia].
    + apply Hby. lia.
  - destruct Hc2; lia.
  - intros k Hk. rewrite Hbits by lia.
    replace (k =? n) with false by (symmetry; apply Z.eqb_neq; lia).
    rewrite andb_false_r, orb_false_r. now apply Hold.
  - intros q Hq'. rewrite Hmem. destruct b; [|now apply Hout].
    rewrite store_neq by lia. now apply Hout.
Qed.

(** The same for any number of rounds. *)
Lemma search_loop_inv (addrOut addrStart lastConfPos : Z) (n : nat) :
  forall (i iByte ccp iByte2 ccp2 : Z) (w w' : World L),
  0 <= i -> i + Z.of_nat n <= 64 ->
  out_inv addrOut i iByte (mem w) ->
  0 <= ccp <= 64 ->
  search_loop addrOut addrStart lastConfPos n i (iByte, ccp) w = (inr (iByte2, ccp2), w') ->
  out_inv addrOut (i + Z.of_nat n) iByte2 (mem w') /\
  0 <= ccp2 <= 64 /\
  (forall k, 0 <= k < i -> mem_bit (mem w') addrOut k = mem_bit (mem w) addrOut k) /\
  (forall q, q < addrOut \/ addrOut + 8 <= q -> mem w' q = mem w q).
Proof.
  induction n as [|n IH]; intros i iByte ccp iByte2 ccp2 w w' Hi Hin Hinv Hccp Hloop.
  - simpl in Hloop. injection Hloop as <- <- <-.
    rewrite Z.add_0_r. auto.
  - simpl in Hloop. apply bind_inv in Hloop as (r & w1 & Hbody & Hloop).
    destruct r as [v | [iByte1 ccp1]]; [discriminate|].
    assert (Hi64 : 0 <= i < 64) by lia.
    assert (Hi1 : 0 <= i + 1) by lia.
    assert (Hin1 : i + 1 + Z.of_nat n <= 64) by lia.
    destruct (search_body_inv _ _ _ _ _ _ _ _ _ _ Hi64 Hinv Hccp Hbody)
      as (Hinv1 & Hccp1 & Hold1 & Hout1).
    destruct (IH _ _ _ _ _ _ _ Hi1 Hin1 Hinv1 Hccp1 Hloop)
      as (Hinv2 & Hccp2 & Hold2 & Hout2).
    replace (i + Z.of_nat (S n)) with (i + 1 + Z.of_nat n) by lia.
    split; [exact Hinv2|]. split; [exact Hccp2|]. split.
    + intros k Hk. rewrite Hold2 by lia. now apply Hold1.
    + intros q Hq. rewrite Hout2 by assumption. now apply Hout1.
Qed.

(** The rounds before round [i] and round [i] itself. *)
Lemma search_loop_snoc (addrOut addrStart lastConfPos : Z) (n : nat) :
  forall (i : Z) (st st' : Z * Z) (w w' : World L),
  search_loop addrOut addrStart lastConfPos n i st w = (inr st', w') ->
  search_loop addrOut addrStart lastConfPos (S n) i st w =
  (r <- search_body addrOut addrStart lastConfPos (i + Z.of_nat n) st' ;;
   match r with
   | inl v => ret (inl v)
   | inr st2 => ret (inr st2)
   end) w'.
Proof.
  induction n as [|n IH]; intros i st st' w w' Hloop.
  - simpl in Hloop. injection Hloop as <- <-. simpl. rewrite Z.add_0_r.
    unfold bind. destruct (search_body _ _ _ _ _ _) as [[v|st2] w2]; reflexivity.
  - change (search_loop addrOut addrStart lastConfPos (S (S n)) i st w)
      with ((r <- search_body addrOut addrStart lastConfPos i st ;;
             match r with
             | inl v => ret (inl v)
             | inr st1 => search_loop addrOut addrStart lastConfPos (S n) (i + 1) st1
             end) w).
    simpl in Hloop. apply bind_inv in Hloop as (r & w1 & Hbody & Hloop).
    rewrite (bind_eq _ _ _ _ _ Hbody).
    destruct r as [v | st1]; [discriminate|].
    rewrite (IH _ _ _ _ _ Hloop).
    replace (i + 1 + Z.of_nat n) with (i + Z.of_nat (S n)) by lia. reflexivity.
Qed.

(** C4.  When the reset, the command and all 64 rounds of [wire1Search]
    went through, the call ends on the checksum of the output address: if
    byte 7 differs from [crc8(0, 0x8C, addrOut, 7)], the state becomes IDLE
    and the call returns -1; if it is equal, the state becomes
    FUNCTION_COMMAND and the call returns the conflict position of the
    rounds, a bit index from 0 to 63 or 64. *)
Theorem wire1Search_finish
  (addrOut addrStart lastConfPos rom_command iByte currConfPos : Z) (w w1 : World L) :
  search_bits addrOut addrStart lastConfPos rom_command w = (inr (iByte, currConfPos), w1) ->
  0 <= currConfPos <= 64 /\
  forall r w2,
    wire1Search addrOut addrStart lastConfPos rom_command w = (r, w2) ->
    line w2 = line w1 /\ trace w2 = trace w1 /\ mem w2 = mem w1 /\
    if mem w1 (addrOut + 7) =? crc8 0 W1_CRC_POLYNOMIAL (load (mem w1) addrOut 8) 7
    then wire1state w2 = FUNCTION_COMMAND /\ r = currConfPos
    else wire1state w2 = IDLE /\ r = -1.
Proof.
  intros Hbits. split.
  - unfold search_bits in Hbits.
    apply bind_inv in Hbits as (r0 & w0 & _ & Hbits).
    destruct (negb (r0 =? 1)); [discriminate|].
    apply bind_inv in Hbits as ([] & w0' & _ & Hloop).
    assert (H64 : 0 + Z.of_nat 64 <= 64) by (simpl; lia).
    assert (Hc : 0 <= 64 <= 64) by lia.
    pose proof (search_loop_inv _ _ _ _ _ _ _ _ _ _ _ (Z.le_refl 0) H64
                  (out_inv_start _ _) Hc Hloop) as (_ & Hr & _).
    exact Hr.
  - intros r w2 Hs. unfold wire1Search in Hs.
    rewrite (bind_eq _ _ _ _ _ Hbits) in Hs.
    unfold search_finish, bind, get_mem, set_state, ret in Hs.
    change (addrOut + W1_ADDR_BYTE_CRC) with (addrOut + 7) in Hs.
    destruct (mem w1 (addrOut + 7) =? _); injection Hs as <- <-; simpl; auto.
Qed.


End SearchRounds.

(** ** The driver on the simulated line *)

(** What the slaves see of the driver's transfers, slot by slot. *)
Section SlotLevel.

Context {S : Type} {HS : Slave S}.

Lemma readbit_bus (w w1 : World (Bus S)) (v : Z) :
  released w ->
  wire1ReadBit w = (v, w1) ->
  released w1 /\
  slaves (line w1) = snd (slave_one (slaves (line w))) /\
  v = if fst (slave_one (slaves (line w))) then 0xFF else 0.
Proof.
  destruct HS as [rst zero one].
  destruct w as [[s ml h d] t st il m]. unfold released. cbn.
  intros -> H. destruct (one s) as [lvl s'] eqn:E.
  vm_compute in H. rewrite E in H.
  destruct lvl; vm_compute in H; injection H as <- <-; cbn; auto.
Qed.

Lemma writebit_bus (w w1 : World (Bus S)) (bit : Z) :
  released w ->
  wire1WriteBit bit w = (tt, w1) ->
  released w1 /\ slaves (line w1) = slave_write bit (slaves (line w)).
Proof.
  unfold released, slave_write. destruct HS as [rst zero one].
  destruct w as [[s ml h d] t st il m]. cbn.
  intros -> H. unfold wire1WriteBit in H.
  destruct (truthy bit).
  - destruct (one s) as [lvl s'] eqn:E.
    vm_compute in H. rewrite E in H.
    destruct lvl; vm_compute in H; injection H as <-; cbn; auto.
  - vm_compute in H. injection H as <-. cbn. auto.
Qed.

Lemma reset_bus (w w1 : World (Bus S)) (r : Z) :
  released w ->
  wire1state w <> WAIT_POLL ->
  wire1Reset w = (r, w1) ->
  released w1 /\
  slaves (line w1) = snd (slave_reset (slaves (line w))) /\
  r = (if fst (slave_reset (slaves (line w))) then 1 else 0) /\
  wire1state w1 = (if fst (slave_reset (slaves (line w))) then ROM_COMMAND else IDLE) /\
  mem w1 = mem w /\ wire1_idleloops w1 = wire1_idleloops w.
Proof.
  destruct HS as [rst zero one].
  destruct w as [[s ml h d] t st il m]. unfold released. cbn.
  intros -> Hst H. destruct (rst s) as [p s'] eqn:E.
  destruct st; try contradiction;
    vm_compute in H; rewrite E in H;
    destruct p; vm_compute in H; injection H as <- <-; cbn; auto 10.
Qed.

Lemma writebyte_bus (w w1 : World (Bus S)) (b : Z) :
  released w ->
  wire1WriteByte b w = (tt, w1) ->
  released w1 /\ slaves (line w1) = slave_write_byte b (slaves (line w)).
Proof.
  intros Hr H. unfold wire1WriteByte, forM_upto in H. simpl forM_from in H.
  repeat match type of H with
  | bind _ _ _ = _ =>
      let u := fresh "u" in let w' := fresh "w" in
      let Hw := fresh "Hw" in let Hr' := fresh "Hr" in let Hs := fresh "Hs" in
      apply bind_inv in H as (u & w' & Hw & H); destruct u;
      apply writebit_bus in Hw as (Hr' & Hs); [|assumption]
  end.
  unfold ret in H. injection H as <-.
  split; [assumption|].
  unfold slave_write_byte, for_upto. simpl for_from. congruence.
Qed.

Lemma readbyte_bus (w w1 : World (Bus S)) (v : Z) :
  released w ->
  wire1ReadByte w = (v, w1) ->
  released w1 /\ (slaves (line w1), v) = slave_read_byte (slaves (line w)).
Proof.
  intros Hr H. unfold wire1ReadByte, forM_upto in H. simpl forM_from in H.
  repeat match type of H with
  | bind _ _ _ = _ =>
      let u := fresh "u" in let w' := fresh "w" in
      let Hw := fresh "Hw" in let Hr' := fresh "Hr" in let Hs := fresh "Hs" in
      let Hv := fresh "Hv" in let b := fresh "b" in let w'' := fresh "w" in
      apply bind_inv in H as (u & w' & Hw & H);
      apply bind_inv in Hw as (b & w'' & Hw & Hv);
      unfold ret in Hv; injection Hv as <- <-;
      apply readbit_bus in Hw as (Hr' & Hs & ->); [|assumption]
  end.
  unfold ret in H. injection H as <- <-.
  split; [assumption|].
  unfold slave_read_byte, for_upto. simpl for_from.
  repeat match goal with
  | Hs : slaves (line _) = _ |- _ => rewrite Hs; clear Hs
  end.
  f_equal.
  repeat match goal with
  | |- context [truthy (if ?c then 255 else 0)] =>
      replace (truthy (if c then 255 else 0)) with c by (destruct c; reflexivity)
  end.
  reflexivity.
Qed.

End SlotLevel.

(** ** The ROM commands and the session state *)

Section RomCommands.

Context {L : Type} {HL : Line L}.

(** C6, as the code has it.  [wire1MatchROM], [wire1SkipROM] and
    [wire1ReadSingleROM] do not look at the session state they are called
    in: each starts with a reset of its own.  When that reset does not
    leave the state at ROM_COMMAND, each returns -1 in the world the reset
    left: no command byte and nothing else goes over the line after the
    reset. *)
Theorem rom_commands_stop_after_failed_reset (addr : Z) (w : World L) :
  wire1state (snd (wire1Reset w)) <> ROM_COMMAND ->
  wire1MatchROM addr w = (-1, snd (wire1Reset w)) /\
  wire1SkipROM w = (-1, snd (wire1Reset w)) /\
  wire1ReadSingleROM addr w = (-1, snd (wire1Reset w)).
Proof.
  intros Hst.
  unfold wire1MatchROM, wire1SkipROM, wire1ReadSingleROM, bind, get_state.
  destruct (wire1Reset w) as [r w1]. simpl in *.
  destruct (wire1state w1); try contradiction; auto.
Qed.

(** The loop of [wire1ReadSingleROM] that reads the address. *)
Lemma read_address_state (addr : Z) (n : nat) :
  forall (i : Z) (w w1 : World L),
  forM_from n i (fun i _ => b <- wire1ReadByte ;; set_mem (addr + i) b) tt w = (tt, w1) ->
  wire1state w1 = wire1state w.
Proof.
  induction n as [|n IH]; intros i w w1 H; simpl in H.
  - now injection H as <-.
  - apply bind_inv in H as ([] & w2 & Hb & H).
    apply bind_inv in Hb as (b & w3 & Hr & Hs).
    pose proof (frame_of _ _ _ _ line_only_readbyte Hr) as (_ & Fs & _).
    unfold set_mem in Hs. injection Hs as <-.
    rewrite (IH _ _ _ H). simpl. exact Fs.
Qed.

(** C7, as the code has it.  The checksum is tested on the addresses that
    the driver reads from the bus and on no other.  [wire1ReadSingleROM],
    once its reset has succeeded, ends on the test: an address whose byte
    7 is not the checksum of bytes 0 to 6 gives 1 and the state IDLE, any
    other 0 and FUNCTION_COMMAND.  [wire1MatchROM] has no test: once its
    reset has succeeded it writes the command 0x55 and the eight bytes it
    was given, whatever they are, and returns 0 in the state
    FUNCTION_COMMAND. *)
Theorem checksum_tested_on_read_addresses_only (addr : Z) (w : World L) :
  wire1state (snd (wire1Reset w)) = ROM_COMMAND ->
  wire1MatchROM addr w =
    (0, snd ((wire1WriteByte W1_ROMCMD_MATCH ;; write_address addr ;;
              set_state FUNCTION_COMMAND) (snd (wire1Reset w)))) /\
  forall r w1,
    wire1ReadSingleROM addr w = (r, w1) ->
    let a := load (mem w1) addr 8 in
    if idx a 7 =? crc8 0 W1_CRC_POLYNOMIAL a 7
    then r = 0 /\ wire1state w1 = FUNCTION_COMMAND
    else r = 1 /\ wire1state w1 = IDLE.
Proof.
  intros Hst. split.
  - unfold wire1MatchROM, bind, get_state.
    destruct (wire1Reset w) as [r0 w0]. simpl in *. rewrite Hst. simpl.
    destruct (wire1WriteByte W1_ROMCMD_MATCH w0) as [[] w2].
    destruct (write_address addr w2) as [[] w3]. reflexivity.
  - intros r w1 H a. unfold wire1ReadSingleROM in H.
    apply bind_inv in H as (r0 & w0 & Hr & H).
    rewrite Hr in Hst. simpl in Hst.
    unfold bind at 1, get_state in H. rewrite Hst in H. simpl in H.
    apply bind_inv in H as ([] & w2 & _ & H).
    apply bind_inv in H as ([] & w3 & _ & H).
    unfold bind, get_mem, set_state, ret in H.
    assert (Ha : idx (load (mem w3) addr 8) 7 = mem w3 (addr + W1_ADDR_BYTE_CRC))
      by reflexivity.
    destruct (mem w3 (addr + W1_ADDR_BYTE_CRC) =? _) eqn:E;
      injection H as <- <-; subst a; cbn [mem wire1state];
      rewrite Ha, E; auto.
Qed.

End RomCommands.

(** *** On the simulated bus *)

Lemma rom_commands_stop_after_failed_reset_witness :
  wire1MatchROM 100 (power_up (bus_of []) cleared) =
    (-1, snd (wire1Reset (power_up (bus_of []) cleared))) /\
  wire1SkipROM (power_up (bus_of []) cleared) =
    (-1, snd (wire1Reset (power_up (bus_of []) cleared))) /\
  wire1ReadSingleROM 100 (power_up (bus_of []) cleared) =
    (-1, snd (wire1Reset (power_up (bus_of []) cleared))).
Proof.
  apply rom_commands_stop_after_failed_reset. vm_compute. discriminate.
Defined.

(** The claim C6 as it is stated fails at power-up, in the state IDLE, on a
    bus with one device: the three commands reset the bus, go on and
    succeed, and the line has been driven. *)
Lemma rom_commands_run_from_idle :
  let w := power_up (bus_of [rom_a]) cleared in
  wire1state w = IDLE /\ trace w = [] /\
  fst (wire1SkipROM w) = 0 /\
  wire1state (snd (wire1SkipROM w)) = FUNCTION_COMMAND /\
  trace (snd (wire1SkipROM w)) <> [] /\
  fst (wire1MatchROM 100 (set_bytes 100 rom_a w)) = 0 /\
  trace (snd (wire1MatchROM 100 (set_bytes 100 rom_a w))) <> [] /\
  fst (wire1ReadSingleROM 100 w) = 0 /\
  trace (snd (wire1ReadSingleROM 100 w)) <> [].
Proof. vm_compute. repeat split; discriminate. Qed.

Lemma checksum_tested_on_read_addresses_only_witness :
  let w := set_bytes 100 rom_bad (power_up (bus_of [rom_a]) cleared) in
  wire1MatchROM 100 w =
    (0, snd ((wire1WriteByte W1_ROMCMD_MATCH ;; write_address 100 ;;
              set_state FUNCTION_COMMAND) (snd (wire1Reset w)))) /\
  forall r w1,
    wire1ReadSingleROM 100 w = (r, w1) ->
    let a := load (mem w1) 100 8 in
    if idx a 7 =? crc8 0 W1_CRC_POLYNOMIAL a 7
    then r = 0 /\ wire1state w1 = FUNCTION_COMMAND
    else r = 1 /\ wire1state w1 = IDLE.
Proof.
  apply checksum_tested_on_read_addresses_only. vm_compute. reflexivity.
Defined.

(** The claim C7 as it is stated fails for the address [rom_bad], whose
    byte 7 is not the checksum of its bytes 0 to 6: [wire1MatchROM]
    returns 0 in the state FUNCTION_COMMAND, and the device on the bus has
    taken the command and all 64 address bits; it is the checksum byte
    that made it drop out. *)
Lemma wire1MatchROM_sends_bad_checksum :
  let w := set_bytes 100 rom_bad (power_up (bus_of [rom_a]) cleared) in
  idx rom_bad 7 <> crc8 0 W1_CRC_POLYNOMIAL rom_bad 7 /\
  fst (wire1MatchROM 100 w) = 0 /\
  wire1state (snd (wire1MatchROM 100 w)) = FUNCTION_COMMAND /\
  slaves (line (snd (wire1MatchROM 100 w))) = mkDevices [rom_a] [] PhFunction /\
  slaves (line (snd ((_ <- wire1Reset ;; wire1WriteByte W1_ROMCMD_MATCH ;;
                      forM_upto 7 (fun i _ => wire1WriteByte (idx rom_bad i)) tt) w))) =
    mkDevices [rom_a] [rom_a] (PhMatch 56).
Proof. vm_compute. repeat split; discriminate. Qed.

(** ** The reset on a bus without slaves *)

Section ResetFacts.

Context {S : Type} {HS : Slave S}.

(** From every state but WAIT_POLL, a reset that no slave answers returns
    0 and leaves the state IDLE. *)
Lemma wire1Reset_no_presence (w : World (Bus S)) :
  released w ->
  wire1state w <> WAIT_POLL ->
  fst (slave_reset (slaves (line w))) = false ->
  fst (wire1Reset w) = 0 /\ wire1state (snd (wire1Reset w)) = IDLE.
Proof.
  intros Hr Hst Hp.
  destruct (wire1Reset w) as [r w1] eqn:E.
  destruct (reset_bus _ _ _ Hr Hst E) as (_ & _ & Hv & Hs1 & _).
  rewrite Hp in Hv, Hs1. simpl. auto.
Qed.

(** In the state WAIT_POLL the reset starts with [wire1Poll4Idle].  When
    the first read slot already finds the line high, the loop of
    [wire1Poll4Idle] ends with [i = 0]: the function returns 0, which is
    also what it returns for a line that never went high, and
    [wire1Reset] returns -1 without a reset pulse. *)
Lemma wire1Reset_waiting_line_high (w : World (Bus S)) :
  released w ->
  wire1state w = WAIT_POLL ->
  fst (slave_one (slaves (line w))) = true ->
  wire1Reset w = (-1, snd (wire1Poll4Idle w)) /\
  wire1state (snd (wire1Poll4Idle w)) =
    (if wire1_idleloops w =? 0 then WAIT_POLL else IDLE).
Proof.
  intros Hr Hst Hone.
  assert (Hp : exists w1, wire1Poll4Idle w = (0, w1) /\
            wire1state w1 = if wire1_idleloops w =? 0 then WAIT_POLL else IDLE).
  { unfold wire1Poll4Idle, bind at 1, get_idleloops.
    unfold bind at 1. simpl poll4idle_loop.
    unfold bind at 1. destruct (wire1ReadBit w) as [v w1] eqn:E.
    destruct (readbit_bus _ _ _ Hr E) as (_ & _ & ->).
    pose proof (frame_of _ _ _ _ line_only_readbit E) as (_ & Fs & Fi).
    rewrite Hone. change (negb (truthy 255)) with false. cbv beta iota.
    unfold bind at 1, get_idleloops. cbn [andb]. unfold ret at 1.
    rewrite (Z.eqb_sym 0).
    destruct (wire1_idleloops w =? 0) eqn:E0.
    - exists w1. split; [reflexivity | congruence].
    - eexists. split; [reflexivity | reflexivity]. }
  destruct Hp as (w1 & Hp & Hs1).
  rewrite Hp. simpl. split; [|exact Hs1].
  unfold wire1Reset, bind at 1, get_state. rewrite Hst. simpl.
  unfold bind. rewrite Hp. reflexivity.
Qed.

End ResetFacts.

(** C8, where the code departs from it.  On a bus without slaves, a reset
    called in the state WAIT_POLL, here after [wire1SetupPoll4Idle(5)],
    returns -1 and not 0; after [wire1SetupPoll4Idle(0)] it also leaves
    the state at WAIT_POLL.  From the other three states it returns 0 and
    leaves IDLE ([wire1Reset_no_presence]). *)
Theorem wire1Reset_waiting_on_empty_bus :
  let w5 := snd (wire1SetupPoll4Idle 5 (power_up (bus_of []) cleared)) in
  let w0 := snd (wire1SetupPoll4Idle 0 (power_up (bus_of []) cleared)) in
  fst (wire1Reset w5) = -1 /\ wire1state (snd (wire1Reset w5)) = IDLE /\
  fst (wire1Reset w0) = -1 /\ wire1state (snd (wire1Reset w0)) = WAIT_POLL /\
  fst (wire1Reset (power_up (bus_of []) cleared)) = 0 /\
  wire1state (snd (wire1Reset (power_up (bus_of []) cleared))) = IDLE.
Proof. vm_compute. repeat split. Qed.

(** ** Bytes on a loopback bus *)

Lemma echo_eqb_eq (e1 e2 : Echo) : echo_eqb e1 e2 = true -> e1 = e2.
Proof.
  unfold echo_eqb. destruct e1, e2. simpl.
  destruct (list_eq_dec _ _ _); [|discriminate].
  destruct (list_eq_dec _ _ _); [|discriminate]. now subst.
Qed.

(** Eight write slots leave the bits of the byte with the slave, bit 0
    first, and reading them back gives the byte. *)
Lemma echo_byte (b : Z) :
  is_byte b ->
  slave_write_byte b (mkEcho [] []) = mkEcho [] (bits_of_byte b) /\
  slave_read_byte (mkEcho [] (bits_of_byte b)) = (mkEcho [] [], b).
Proof.
  intros Hb.
  assert (Hall : forallb
            (fun n => let b := Z.of_nat n in
               echo_eqb (slave_write_byte b (mkEcho [] [])) (mkEcho [] (bits_of_byte b)) &&
               echo_eqb (fst (slave_read_byte (mkEcho [] (bits_of_byte b)))) (mkEcho [] []) &&
               (snd (slave_read_byte (mkEcho [] (bits_of_byte b))) =? b))
            (seq 0 256) = true) by (vm_compute; reflexivity).
  rewrite forallb_forall in Hall. specialize (Hall (Z.to_nat b)).
  unfold is_byte in Hb. rewrite Z2Nat.id in Hall by lia.
  cbv zeta in Hall.
  assert (Hin : In (Z.to_nat b) (seq 0 256)) by (apply in_seq; lia).
  apply Hall in Hin. apply andb_prop in Hin as [Hin H3].
  apply andb_prop in Hin as [H1 H2].
  apply echo_eqb_eq in H1, H2. apply Z.eqb_eq in H3.
  split; [exact H1|].
  destruct (slave_read_byte _) as [e v]. simpl in *. congruence.
Qed.

(** Eight read slots put each bit where its slot says, the first at bit
    0. *)
Lemma echo_read_bits (q : list bool) :
  length q = 8%nat ->
  slave_read_byte (mkEcho [] q) = (mkEcho [] [], byte_of_bits q).
Proof.
  intros Hq.
  do 8 (destruct q as [|? q]; [discriminate|]).
  destruct q; [|discriminate].
  repeat match goal with b : bool |- _ => destruct b end; reflexivity.
Qed.

(** C9.  On the loopback bus: the eight write slots of [wire1WriteByte(b)]
    hand the slave the bits of [b] with bit 0 first; [wire1ReadByte] makes
    its byte of eight read slots with the first bit at bit 0; and
    [wire1ReadByte] right after [wire1WriteByte(b)] returns [b]. *)
Theorem write_then_read_byte (b : Z) (w : World (Bus Echo)) :
  is_byte b ->
  released w ->
  slaves (line w) = mkEcho [] [] ->
  slaves (line (snd (wire1WriteByte b w))) = mkEcho [] (bits_of_byte b) /\
  (forall (q : list bool) (w1 : World (Bus Echo)),
     length q = 8%nat -> released w1 -> slaves (line w1) = mkEcho [] q ->
     fst (wire1ReadByte w1) = byte_of_bits q) /\
  fst ((wire1WriteByte b ;; wire1ReadByte) w) = b.
Proof.
  intros Hb Hr Hs.
  destruct (echo_byte b Hb) as [Hw Hrd].
  destruct (wire1WriteByte b w) as [[] w1] eqn:E1.
  destruct (writebyte_bus _ _ _ Hr E1) as (Hr1 & Hs1).
  rewrite Hs, Hw in Hs1.
  split; [exact Hs1|]. split.
  - intros q w2 Hq Hr2 Hs2.
    destruct (wire1ReadByte w2) as [v w3] eqn:E2.
    destruct (readbyte_bus _ _ _ Hr2 E2) as (_ & Hv).
    rewrite Hs2, (echo_read_bits q Hq) in Hv. simpl. congruence.
  - unfold bind. rewrite E1.
    destruct (wire1ReadByte w1) as [v w2] eqn:E2.
    destruct (readbyte_bus _ _ _ Hr1 E2) as (_ & Hv).
    rewrite Hs1, Hrd in Hv. simpl. congruence.
Qed.

Lemma write_then_read_byte_witness :
  let w := power_up (mkEcho [] []) cleared in
  slaves (line (snd (wire1WriteByte 0xA7 w))) = mkEcho [] (bits_of_byte 0xA7) /\
  (forall (q : list bool) (w1 : World (Bus Echo)),
     length q = 8%nat -> released w1 -> slaves (line w1) = mkEcho [] q ->
     fst (wire1ReadByte w1) = byte_of_bits q) /\
  fst ((wire1WriteByte 0xA7 ;; wire1ReadByte) w) = 0xA7.
Proof.
  apply write_then_read_byte.
  - unfold is_byte. lia.
  - reflexivity.
  - reflexivity.
Defined.

(** ** The search as a walk down the tree of addresses *)

Section Walk.

Variable ds : list (list Z).
Variable start : Z -> bool.
Variable lc : Z.

Lemma keep_In (i : Z) (b : bool) (R : list (list Z)) (d : list Z) :
  In d (keep i b R) <-> In d R /\ rom_bit d i = b.
Proof.
  unfold keep. rewrite filter_In. now rewrite Bool.eqb_true_iff.
Qed.

Lemma all_ones_spec (i : Z) (R : list (list Z)) :
  all_ones i R = true <-> forall d, In d R -> rom_bit d i = true.
Proof. apply forallb_forall. Qed.

Lemma all_zeros_spec (i : Z) (R : list (list Z)) :
  all_zeros i R = true <-> forall d, In d R -> rom_bit d i = false.
Proof.
  unfold all_zeros. rewrite forallb_forall.
  split; intros H d Hd; specialize (H d Hd); now destruct (rom_bit d i).
Qed.

Lemma forallb_false_ex {A : Type} (f : A -> bool) (l : list A) :
  forallb f l = false -> exists x, In x l /\ f x = false.
Proof.
  induction l as [|a l IH]; simpl; [discriminate|].
  destruct (f a) eqn:E.
  - intros H. destruct (IH H) as (x & Hx & Hfx). exists x. auto.
  - intros _. exists a. auto.
Qed.

Lemma not_all_ones (i : Z) (R : list (list Z)) :
  all_ones i R = false -> exists d, In d R /\ rom_bit d i = false.
Proof. apply forallb_false_ex. Qed.

Lemma not_all_zeros (i : Z) (R : list (list Z)) :
  all_zeros i R = false -> exists d, In d R /\ rom_bit d i = true.
Proof.
  intros H. apply forallb_false_ex in H as (d & Hd & Hb).
  exists d. split; [exact Hd|]. now destruct (rom_bit d i).
Qed.

(** Devices that take part cannot answer all ones and all zeros. *)
Lemma ones_and_zeros (i : Z) (R : list (list Z)) :
  R <> [] -> all_ones i R = true -> all_zeros i R = true -> False.
Proof.
  intros HR H1 H0. destruct R as [|d R]; [contradiction|].
  rewrite all_ones_spec in H1. rewrite all_zeros_spec in H0.
  specialize (H1 d (or_introl eq_refl)). specialize (H0 d (or_introl eq_refl)).
  congruence.
Qed.

(** The bit of a round is the bit of a device that takes part. *)
Lemma walk_bit_in (i : Z) (R : list (list Z)) :
  R <> [] -> exists d, In d R /\ rom_bit d i = walk_bit start lc i R.
Proof.
  intros HR. unfold walk_bit.
  destruct (all_ones i R) eqn:H1.
  - destruct R as [|d R]; [contradiction|]. exists d. split; [now left|].
    rewrite all_ones_spec in H1. apply H1. now left.
  - destruct (all_zeros i R) eqn:H0.
    + destruct R as [|d R]; [contradiction|]. exists d. split; [now left|].
      rewrite all_zeros_spec in H0. apply H0. now left.
    + destruct ((i =? lc) || start i).
      * now apply not_all_zeros.
      * now apply not_all_ones.
Qed.

Lemma agree_below_step (f g : Z -> bool) (i : Z) (b : bool) :
  0 <= i ->
  agree_below f (fun k => if k =? i then b else g k) (i + 1) <->
  agree_below f g i /\ f i = b.
Proof.
  intros Hi. unfold agree_below. split.
  - intros H. split.
    + intros k Hk. specialize (H k ltac:(lia)).
      replace (k =? i) with false in H by (symmetry; apply Z.eqb_neq; lia).
      exact H.
    + specialize (H i ltac:(lia)). now rewrite Z.eqb_refl in H.
  - intros [H Hb] k Hk. destruct (k =? i) eqn:E.
    + apply Z.eqb_eq in E. now subst k.
    + apply Z.eqb_neq in E. apply H. lia.
Qed.

Lemma agree_below_keep (f g : Z -> bool) (i c : Z) (b : bool) :
  c <= i ->
  agree_below f g c ->
  agree_below f (fun k => if k =? i then b else g k) c.
Proof.
  intros Hc H k Hk.
  replace (k =? i) with false by (symmetry; apply Z.eqb_neq; lia).
  apply H. exact Hk.
Qed.

Lemma walk_inv_start : ds <> [] -> walk_inv ds 0 (walk_start ds).
Proof.
  clear start lc.
  intros Hds. split; [|split].
  - intros d. simpl. split; [|tauto].
    intros Hd. split; [exact Hd|]. intros k Hk. lia.
  - exact Hds.
  - now left.
Qed.

Lemma walk_inv_step (i : Z) (s : Walk) :
  0 <= i -> walk_inv ds i s -> walk_inv ds (i + 1) (walk_step start lc i s).
Proof.
  intros Hi (HA & HB & HC). split; [|split].
  - intros d. simpl. rewrite keep_In, agree_below_step, HA by lia. tauto.
  - simpl. destruct (walk_bit_in i (wk_active s) HB) as (d & Hd & Hb).
    intros Hnil. assert (Hin : In d (keep i (walk_bit start lc i (wk_active s)) (wk_active s)))
      by (apply keep_In; auto).
    rewrite Hnil in Hin. contradiction.
  - simpl. unfold walk_conf.
    destruct (negb (all_ones i (wk_active s)) && negb (all_zeros i (wk_active s)) &&
              negb (i =? lc) && negb (start i)) eqn:E.
    + right.
      apply andb_prop in E as [E E4]. apply andb_prop in E as [E E3].
      apply andb_prop in E as [E1 E2].
      apply negb_true_iff in E1, E2, E3, E4.
      rewrite Z.eqb_refl. unfold walk_bit. rewrite E1, E2, E3, E4. simpl.
      split; [lia|]. split; [reflexivity|].
      destruct (not_all_zeros _ _ E2) as (e & He & Hbit).
      apply HA in He as [He Hag].
      exists e. split; [exact He|]. split; [exact Hbit|].
      apply agree_below_keep; [lia | exact Hag].
    + destruct HC as [HC | (Hc & Hb & e & He & Hbit & Hag)]; [now left|].
      right. split; [lia|].
      replace (wk_conf s =? i) with false by (symmetry; apply Z.eqb_neq; lia).
      split; [exact Hb|].
      exists e. split; [exact He|]. split; [exact Hbit|].
      apply agree_below_keep; [lia | exact Hag].
Qed.

(** An invariant of the rounds holds after any number of them. *)
Lemma walk_from_inv (Q : Z -> Walk -> Prop) (hi : Z) :
  (forall i s, 0 <= i < hi -> Q i s -> Q (i + 1) (walk_step start lc i s)) ->
  forall (n : nat) (i : Z) (s : Walk),
  0 <= i -> i + Z.of_nat n <= hi -> Q i s -> Q (i + Z.of_nat n) (walk_from start lc n i s).
Proof.
  intros Hstep. induction n as [|n IH]; intros i s Hi Hn HQ.
  - simpl. now rewrite Z.add_0_r.
  - simpl walk_from.
    replace (i + Z.of_nat (S n)) with (i + 1 + Z.of_nat n) by lia.
    apply IH; [lia | lia |]. apply Hstep; [lia | exact HQ].
Qed.

(** *** The first call *)

Lemma first_inv_step (i : Z) (s : Walk) :
  (forall k, 0 <= k < 64 -> start k = false) -> 64 <= lc ->
  0 <= i < 64 ->
  walk_inv ds i s /\ first_inv ds i s ->
  walk_inv ds (i + 1) (walk_step start lc i s) /\ first_inv ds (i + 1) (walk_step start lc i s).
Proof.
  intros Hstart Hlc Hi [Hw Hf]. split; [apply walk_inv_step; [lia | exact Hw]|].
  destruct Hw as (HA & _ & _).
  intros d Hd. destruct (Hf d Hd) as [Hin | (j & Hj & Hag & Hb & Hdj)].
  - destruct (Bool.eqb (rom_bit d i) (walk_bit start lc i (wk_active s))) eqn:E.
    + left. simpl. apply keep_In. apply Bool.eqb_prop in E. auto.
    + right. exists i. apply Bool.eqb_false_iff in E.
      assert (Hbit : walk_bit start lc i (wk_active s) = false /\ rom_bit d i = true).
      { unfold walk_bit in *.
        destruct (all_ones i (wk_active s)) eqn:H1.
        - rewrite all_ones_spec in H1. rewrite (H1 d Hin) in E. contradiction.
        - destruct (all_zeros i (wk_active s)) eqn:H0.
          + rewrite all_zeros_spec in H0. rewrite (H0 d Hin) in E. contradiction.
          + replace (i =? lc) with false in * by (symmetry; apply Z.eqb_neq; lia).
            rewrite Hstart in * by lia. simpl in *.
            split; [reflexivity|]. now destruct (rom_bit d i). }
      destruct Hbit as [Hb Hdi].
      split; [lia|]. split; [|split].
      * apply agree_below_keep; [lia|]. apply HA in Hin. tauto.
      * simpl. now rewrite Z.eqb_refl.
      * exact Hdi.
  - right. exists j. split; [lia|]. split; [|split].
    + apply agree_below_keep; [lia | exact Hag].
    + simpl. now replace (j =? i) with false by (symmetry; apply Z.eqb_neq; lia).
    + exact Hdj.
Qed.

(** *** A later call *)

Lemma next_inv_step (P : list Z) (i : Z) (s : Walk) :
  In P ds ->
  (forall k, 0 <= k < 64 -> start k = rom_bit P k) ->
  0 <= lc < 64 -> rom_bit P lc = false ->
  (exists e, In e ds /\ rom_bit e lc = true /\
             agree_below (rom_bit e) (rom_bit P) lc) ->
  0 <= i < 64 ->
  walk_inv ds i s /\ next_inv lc P i s ->
  walk_inv ds (i + 1) (walk_step start lc i s) /\ next_inv lc P (i + 1) (walk_step start lc i s).
Proof.
  intros HP Hstart Hlc HPlc (e & He & Helc & Heag) Hi [Hw Hn].
  split; [apply walk_inv_step; [lia | exact Hw]|].
  destruct Hw as (HA & _ & _). unfold next_inv in *.
  destruct (i <=? lc) eqn:Eil.
  - apply Z.leb_le in Eil.
    assert (HPin : In P (wk_active s)).
    { apply HA. split; [exact HP|]. intros k Hk. symmetry. now apply Hn. }
    destruct (i + 1 <=? lc) eqn:Eil1.
    + apply Z.leb_le in Eil1.
      intros k Hk. simpl. destruct (k =? i) eqn:Ek.
      * apply Z.eqb_eq in Ek. subst k. unfold walk_bit.
        destruct (all_ones i (wk_active s)) eqn:H1.
        -- rewrite all_ones_spec in H1. symmetry. now apply H1.
        -- destruct (all_zeros i (wk_active s)) eqn:H0.
           ++ rewrite all_zeros_spec in H0. symmetry. now apply H0.
           ++ replace (i =? lc) with false by (symmetry; apply Z.eqb_neq; lia).
              simpl. apply Hstart. lia.
      * apply Z.eqb_neq in Ek. apply Hn. lia.
    + apply Z.leb_gt in Eil1. assert (i = lc) by lia. subst i.
      split.
      * intros k Hk. simpl.
        replace (k =? lc) with false by (symmetry; apply Z.eqb_neq; lia).
        now apply Hn.
      * simpl. rewrite Z.eqb_refl. unfold walk_bit.
        assert (Hein : In e (wk_active s)).
        { apply HA. split; [exact He|]. intros k Hk.
          rewrite Heag by exact Hk. symmetry. now apply Hn. }
        destruct (all_ones lc (wk_active s)) eqn:H1; [reflexivity|].
        destruct (all_zeros lc (wk_active s)) eqn:H0.
        -- rewrite all_zeros_spec in H0. rewrite (H0 e Hein) in Helc. discriminate.
        -- now rewrite Z.eqb_refl.
  - apply Z.leb_gt in Eil.
    replace (i + 1 <=? lc) with false by (symmetry; apply Z.leb_gt; lia).
    destruct Hn as [Hag Hb]. split.
    + intros k Hk. simpl.
      replace (k =? i) with false by (symmetry; apply Z.eqb_neq; lia).
      now apply Hag.
    + simpl. now replace (lc =? i) with false by (symmetry; apply Z.eqb_neq; lia).
Qed.

End Walk.

(** ** The rounds of the search on the simulated bus *)

Lemma dev_read_bit (ds R : list (list Z)) (i : Z) :
  slave_one (mkDevices ds R (PhSearch i SendBit)) =
  (all_ones i R, mkDevices ds R (PhSearch i SendComplement)).
Proof. reflexivity. Qed.

Lemma dev_read_complement (ds R : list (list Z)) (i : Z) :
  slave_one (mkDevices ds R (PhSearch i SendComplement)) =
  (all_zeros i R, mkDevices ds R (PhSearch i Receive)).
Proof. reflexivity. Qed.

Lemma dev_write_bit (ds R : list (list Z)) (i bit : Z) :
  0 <= i < 64 ->
  slave_write bit (mkDevices ds R (PhSearch i Receive)) =
  mkDevices ds (keep i (truthy bit) R) (phase_at (i + 1)).
Proof.
  intros Hi. unfold phase_at.
  assert (Hp : (if i =? 63 then PhFunction else PhSearch (i + 1) SendBit) =
               (if i + 1 <? 64 then PhSearch (i + 1) SendBit else PhFunction)).
  { destruct (i =? 63) eqn:E.
    - apply Z.eqb_eq in E. subst i. reflexivity.
    - apply Z.eqb_neq in E.
      now replace (i + 1 <? 64) with true by (symmetry; apply Z.ltb_lt; lia). }
  rewrite <- Hp. unfold slave_write. destruct (truthy bit); reflexivity.
Qed.

Lemma or_mem_run {L : Type} (p v : Z) (w : World L) :
  or_mem p v w =
  (tt, mkWorld (line w) (trace w) (wire1state w) (wire1_idleloops w)
               (store (mem w) p (u8 (Z.lor (mem w p) v)))).
Proof. reflexivity. Qed.

(** The bytes of a buffer whose 64 bits are those of an address are the
    bytes of the address. *)
Lemma load_eq_of_bits (m : Z -> Z) (p : Z) (d : list Z) :
  length d = 8%nat -> Forall is_byte d ->
  (forall j, 0 <= j < 8 -> is_byte (m (p + j))) ->
  (forall k, 0 <= k < 64 -> mem_bit m p k = rom_bit d k) ->
  load m p 8 = d.
Proof.
  intros Hlen Hd Hm Hb.
  assert (Hbyte : forall j, 0 <= j < 8 -> m (p + j) = idx d j).
  { intros j Hj. apply byte_bits_inj.
    - now apply Hm.
    - rewrite Forall_forall in Hd. apply Hd. unfold idx. apply nth_In. lia.
    - intros t Ht. specialize (Hb (8 * j + t) ltac:(lia)).
      rewrite mem_bit_testbit, rom_bit_testbit in Hb by lia.
      replace ((8 * j + t) / 8) with j in Hb
        by (Z.to_euclidean_division_equations; lia).
      replace ((8 * j + t) mod 8) with t in Hb
        by (Z.to_euclidean_division_equations; lia).
      exact Hb. }
  do 8 (destruct d as [|? d]; [discriminate|]).
  destruct d; [|discriminate].
  unfold load. simpl.
  pose proof (Hbyte 0 ltac:(lia)) as H0. pose proof (Hbyte 1 ltac:(lia)) as H1.
  pose proof (Hbyte 2 ltac:(lia)) as H2. pose proof (Hbyte 3 ltac:(lia)) as H3.
  pose proof (Hbyte 4 ltac:(lia)) as H4. pose proof (Hbyte 5 ltac:(lia)) as H5.
  pose proof (Hbyte 6 ltac:(lia)) as H6. pose proof (Hbyte 7 ltac:(lia)) as H7.
  unfold idx in *. simpl in *. congruence.
Qed.

Lemma search_loop_S {L : Type} {HL : Line L}
  (addrOut addrStart lastConfPos : Z) (n : nat) (i : Z) (st : Z * Z) :
  search_loop addrOut addrStart lastConfPos (S n) i st =
  (r <- search_body addrOut addrStart lastConfPos i st ;;
   match r with
   | inl v => ret (inl v)
   | inr st' => search_loop addrOut addrStart lastConfPos n (i + 1) st'
   end).
Proof. reflexivity. Qed.

Section SearchOnDevices.

Variable ds : list (list Z).
Variables addrOut addrStart lastConfPos : Z.
Variable start : Z -> bool.

Hypothesis Hsep : addrStart + 8 <= addrOut \/ addrOut + 8 <= addrStart.
Hypothesis Hlc : is_byte lastConfPos.

(** The bits of the start buffer lie outside the output buffer. *)
Lemma start_bit_outside (m m' : Z -> Z) (k : Z) :
  0 <= k < 64 ->
  (forall q, q < addrOut \/ addrOut + 8 <= q -> m' q = m q) ->
  mem_bit m' addrStart k = mem_bit m addrStart k.
Proof.
  intros Hk Hout. unfold mem_bit, maskBitInArray. rewrite Hout; [reflexivity|].
  assert (0 <= k / 8 < 8) by (Z.to_euclidean_division_equations; lia). lia.
Qed.

(** One round: the two read slots tell whether the devices taking part
    agree on bit [i]; the write slot keeps the devices that have the bit
    written; the bit and the conflict position are those of the walk. *)
Lemma search_body_devices (i iByte ccp : Z) (R : list (list Z))
  (w : World (Bus Devices)) :
  0 <= i < 64 ->
  released w ->
  slaves (line w) = mkDevices ds R (PhSearch i SendBit) ->
  R <> [] ->
  out_inv addrOut i iByte (mem w) ->
  mem_bit (mem w) addrStart i = start i ->
  exists iByte' w',
    search_body addrOut addrStart lastConfPos i (iByte, ccp) w =
      (inr (iByte', walk_conf start lastConfPos i R ccp), w') /\
    released w' /\
    slaves (line w') =
      mkDevices ds (keep i (walk_bit start lastConfPos i R) R) (phase_at (i + 1)) /\
    mem_bit (mem w') addrOut i = walk_bit start lastConfPos i R.
Proof.
  intros Hi Hrel Hsl HR Hinv Hst.
  destruct (search_next_byte addrOut i iByte w) as [iByte' wc] eqn:Hnb.
  destruct (search_next_byte_spec _ _ _ _ _ _ Hi Hinv Hnb)
    as (Hi' & Hlw & _ & _ & _ & Hclr & _ & Hout & _).
  assert (Hrelc : released wc) by (unfold released; now rewrite Hlw).
  destruct (wire1ReadBit wc) as [ack w1] eqn:H1.
  destruct (readbit_bus _ _ _ Hrelc H1) as (Hrel1 & Hs1 & Hack).
  rewrite Hlw, Hsl, dev_read_bit in Hs1, Hack. simpl in Hs1, Hack.
  destruct (wire1ReadBit w1) as [nack w2] eqn:H2.
  destruct (readbit_bus _ _ _ Hrel1 H2) as (Hrel2 & Hs2 & Hnack).
  rewrite Hs1, dev_read_complement in Hs2, Hnack. simpl in Hs2, Hnack.
  pose proof (frame_of _ _ _ _ line_only_readbit H1) as (Fm1 & _).
  pose proof (frame_of _ _ _ _ line_only_readbit H2) as (Fm2 & _).
  assert (Hm2 : mem w2 = mem wc) by congruence.
  assert (Hclr2 : mem_bit (mem w2) addrOut i = false).
  { rewrite Hm2. apply Hclr. Z.to_euclidean_division_equations. lia. }
  assert (Hst2 : mem_bit (mem w2) addrStart i = start i).
  { rewrite Hm2, <- Hst. apply start_bit_outside; [lia | exact Hout]. }
  assert (Hm1 : (lastConfPos =? -1) = false)
    by (apply Z.eqb_neq; unfold is_byte in Hlc; lia).
  (* what the write slot of the round does *)
  assert (Hwrite : forall (wb : Z) (w3 w4 : World (Bus Devices)),
            released w3 -> slaves (line w3) = slaves (line w2) ->
            wire1WriteBit wb w3 = (tt, w4) ->
            released w4 /\
            slaves (line w4) = mkDevices ds (keep i (truthy wb) R) (phase_at (i + 1)) /\
            mem w4 = mem w3).
  { intros wb w3 w4 Hrel3 Hs3 Hwr.
    destruct (writebit_bus _ _ _ Hrel3 Hwr) as (Hrel4 & Hs4).
    rewrite Hs3, Hs2, dev_write_bit in Hs4 by lia.
    pose proof (frame_of _ _ _ _ (line_only_writebit wb) Hwr) as (Fm4 & _).
    auto. }
  (* what keeping the bit does *)
  assert (Hset : forall m : Z -> Z,
            mem_bit (store m (addrOut + iByte') (u8 (Z.lor (m (addrOut + iByte')) (BV (i mod 8)))))
                    addrOut i = true).
  { intros m. rewrite Hi', mem_bit_or by lia. rewrite Z.eqb_refl. apply orb_true_r. }
  exists iByte'.
  unfold search_body.
  rewrite (bind_eq _ _ _ _ _ Hnb), (bind_eq _ _ _ _ _ H1), (bind_eq _ _ _ _ _ H2).
  unfold walk_conf, walk_bit.
  destruct (all_ones i R) eqn:E1; destruct (all_zeros i R) eqn:E0; subst ack nack.
  - exfalso. exact (ones_and_zeros i R HR E1 E0).
  - change (negb (truthy 255) && negb (truthy 0)) with false.
    change (truthy 255 && truthy 0) with false.
    change (truthy 255) with true. cbv iota. simpl negb. simpl andb. cbv iota.
    destruct (wire1WriteBit 255 w2) as [[] w3] eqn:H3.
    destruct (Hwrite 255 w2 w3 Hrel2 eq_refl H3) as (Hrel3 & Hs3 & Hm3).
    exists (snd (or_mem (addrOut + iByte') (BV (i mod 8)) w3)).
    split; [unfold bind; rewrite H3; rewrite or_mem_run; reflexivity|].
    rewrite or_mem_run. cbn [snd]. unfold released. cbn [line mem].
    split; [exact Hrel3|]. split; [exact Hs3|]. apply Hset.
  - change (negb (truthy 0) && negb (truthy 255)) with false.
    change (truthy 0 && truthy 255) with false.
    change (truthy 0) with false. cbv iota. simpl negb. simpl andb. cbv iota.
    destruct (wire1WriteBit 0 w2) as [[] w3] eqn:H3.
    destruct (Hwrite 0 w2 w3 Hrel2 eq_refl H3) as (Hrel3 & Hs3 & Hm3).
    exists w3.
    split; [unfold bind; rewrite H3; reflexivity|].
    split; [exact Hrel3|]. split; [exact Hs3|]. now rewrite Hm3.
  - change (negb (truthy 0) && negb (truthy 0)) with true. cbv iota.
    simpl negb. simpl andb.
    unfold search_conflict. rewrite Hm1.
    destruct (i =? lastConfPos) eqn:Elc.
    + simpl negb. simpl andb. simpl orb. cbv iota.
      unfold bind at 1, ret at 1. cbv iota beta.
      change (truthy 1) with true. cbv iota.
      unfold bind at 1. rewrite or_mem_run.
      set (w3 := mkWorld _ _ _ _ _).
      destruct (wire1WriteBit 1 w3) as [[] w4] eqn:H4.
      destruct (Hwrite 1 w3 w4 Hrel2 eq_refl H4) as (Hrel4 & Hs4 & Hm4).
      exists w4.
      split; [unfold bind; rewrite H4; reflexivity|].
      split; [exact Hrel4|]. split; [exact Hs4|].
      rewrite Hm4. subst w3. cbn [mem]. apply Hset.
    + simpl negb. simpl andb. simpl orb.
      unfold bind at 1. unfold bind at 1, get_mem, ret at 1. cbv iota beta zeta.
      fold (mem_bit (mem w2) addrStart i). rewrite Hst2.
      destruct (start i) eqn:Es; simpl negb; cbv iota.
      * unfold bind at 1. rewrite or_mem_run.
        set (w3 := mkWorld _ _ _ _ _).
        destruct (wire1WriteBit (maskBitInArray (mem w2) addrStart i) w3) as [[] w4] eqn:H4.
        destruct (Hwrite _ w3 w4 Hrel2 eq_refl H4) as (Hrel4 & Hs4 & Hm4).
        fold (mem_bit (mem w2) addrStart i) in Hs4. rewrite Hst2 in Hs4.
        exists w4.
        split; [unfold bind; rewrite H4; reflexivity|].
        split; [exact Hrel4|]. split; [exact Hs4|].
        rewrite Hm4. subst w3. cbn [mem]. apply Hset.
      * unfold bind at 1, ret at 1. cbv iota beta.
        destruct (wire1WriteBit (maskBitInArray (mem w2) addrStart i) w2) as [[] w4] eqn:H4.
        destruct (Hwrite _ w2 w4 Hrel2 eq_refl H4) as (Hrel4 & Hs4 & Hm4).
        fold (mem_bit (mem w2) addrStart i) in Hs4. rewrite Hst2 in Hs4.
        exists w4.
        split; [unfold bind; rewrite H4; reflexivity|].
        split; [exact Hrel4|]. split; [exact Hs4|].
        now rewrite Hm4.
Qed.

(** The rounds from [i] on follow the walk. *)
Lemma search_loop_devices (n : nat) :
  forall (i iByte : Z) (s : Walk) (w : World (Bus Devices)),
  0 <= i -> i + Z.of_nat n <= 64 ->
  released w ->
  slaves (line w) = mkDevices ds (wk_active s) (phase_at i) ->
  walk_inv ds i s ->
  out_inv addrOut i iByte (mem w) ->
  (forall k, 0 <= k < i -> mem_bit (mem w) addrOut k = wk_bits s k) ->
  (forall k, 0 <= k < 64 -> mem_bit (mem w) addrStart k = start k) ->
  exists iByte' w',
    search_loop addrOut addrStart lastConfPos n i (iByte, wk_conf s) w =
      (inr (iByte', wk_conf (walk_from start lastConfPos n i s)), w') /\
    released w' /\
    slaves (line w') =
      mkDevices ds (wk_active (walk_from start lastConfPos n i s))
                (phase_at (i + Z.of_nat n)) /\
    out_inv addrOut (i + Z.of_nat n) iByte' (mem w') /\
    (forall k, 0 <= k < i + Z.of_nat n ->
       mem_bit (mem w') addrOut k = wk_bits (walk_from start lastConfPos n i s) k) /\
    (forall q, q < addrOut \/ addrOut + 8 <= q -> mem w' q = mem w q) /\
    wire1state w' = wire1state w /\ wire1_idleloops w' = wire1_idleloops w.
Proof.
  induction n as [|n IH]; intros i iByte s w Hi Hn Hrel Hsl Hw Hinv Hbits Hst.
  - exists iByte, w. simpl. rewrite Z.add_0_r. auto 10.
  - assert (Hi64 : 0 <= i < 64) by lia.
    assert (Hph : phase_at i = PhSearch i SendBit).
    { unfold phase_at. now replace (i <? 64) with true by (symmetry; apply Z.ltb_lt; lia). }
    rewrite Hph in Hsl.
    assert (HR : wk_active s <> []) by (destruct Hw as (_ & HR & _); exact HR).
    assert (Hc : 0 <= wk_conf s <= 64) by (destruct Hw as (_ & _ & [Hc | Hc]); lia).
    destruct (search_body_devices i iByte (wk_conf s) (wk_active s) w
                Hi64 Hrel Hsl HR Hinv (Hst i Hi64))
      as (iByte1 & w1 & Hbody & Hrel1 & Hs1 & Hbit).
    destruct (search_body_inv _ _ _ _ _ _ _ _ _ _ Hi64 Hinv Hc Hbody)
      as (Hinv1 & _ & Hold1 & Hout1).
    destruct (search_next_byte addrOut i iByte w) as [iByte0 wc] eqn:Hnb.
    destruct (search_next_byte_spec _ _ _ _ _ _ Hi64 Hinv Hnb)
      as (_ & _ & _ & Hsc & Hic & _).
    destruct (search_body_effect _ _ _ _ _ _ _ _ _ _ _ _ Hnb Hbody)
      as (_ & _ & Hs1c & Hi1c & _).
    assert (Hw1 : walk_inv ds (i + 1) (walk_step start lastConfPos i s))
      by (apply walk_inv_step; [lia | exact Hw]).
    assert (Hbits1 : forall k, 0 <= k < i + 1 ->
              mem_bit (mem w1) addrOut k = wk_bits (walk_step start lastConfPos i s) k).
    { intros k Hk. simpl. destruct (k =? i) eqn:E.
      - apply Z.eqb_eq in E. subst k. exact Hbit.
      - apply Z.eqb_neq in E. rewrite Hold1 by lia. apply Hbits. lia. }
    assert (Hst1 : forall k, 0 <= k < 64 -> mem_bit (mem w1) addrStart k = start k).
    { intros k Hk. rewrite <- (Hst k Hk). now apply start_bit_outside. }
    assert (Hi1 : 0 <= i + 1) by lia.
    assert (Hn1 : i + 1 + Z.of_nat n <= 64) by lia.
    destruct (IH (i + 1) iByte1 (walk_step start lastConfPos i s) w1
                Hi1 Hn1 Hrel1 Hs1 Hw1 Hinv1 Hbits1 Hst1)
      as (iByte' & w' & Hloop & Hrel' & Hs' & Hinv' & Hbits' & Hout' & Hst' & Hil').
    exists iByte', w'.
    replace (i + Z.of_nat (S n)) with (i + 1 + Z.of_nat n) by lia.
    split; [rewrite search_loop_S; unfold bind; rewrite Hbody; exact Hloop|].
    split; [exact Hrel'|]. split; [exact Hs'|]. split; [exact Hinv'|].
    split; [exact Hbits'|]. split; [|split; congruence].
    intros q Hq. rewrite Hout' by exact Hq. now apply Hout1.
Qed.

Lemma search_command_taken :
  slave_write_byte W1_ROMCMD_SEARCH (mkDevices ds ds (PhRomCommand 0 0)) =
  mkDevices ds ds (PhSearch 0 SendBit).
Proof. reflexivity. Qed.

(** One call of [wire1SearchLargerROM] on a bus with devices: the call
    returns the conflict position of the walk, the output buffer holds a
    device, and its bits are the bits of the walk. *)
Lemma search_call (w : World (Bus Devices)) :
  ds <> [] -> Forall valid_address ds ->
  released w -> roms (slaves (line w)) = ds -> wire1state w <> WAIT_POLL ->
  (forall k, 0 <= k < 64 -> mem_bit (mem w) addrStart k = start k) ->
  exists w',
    wire1SearchLargerROM addrOut addrStart lastConfPos w =
      (wk_conf (walk_from start lastConfPos 64 0 (walk_start ds)), w') /\
    released w' /\ roms (slaves (line w')) = ds /\
    wire1state w' = FUNCTION_COMMAND /\
    In (load (mem w') addrOut 8) ds /\
    (forall k, 0 <= k < 64 ->
       rom_bit (load (mem w') addrOut 8) k =
       wk_bits (walk_from start lastConfPos 64 0 (walk_start ds)) k) /\
    (forall q, q < addrOut \/ addrOut + 8 <= q -> mem w' q = mem w q).
Proof.
  intros Hds Hvalid Hrel Hroms Hstate Hst.
  set (s := walk_from start lastConfPos 64 0 (walk_start ds)).
  (* the reset *)
  destruct (wire1Reset w) as [r w1] eqn:Hr.
  destruct (reset_bus _ _ _ Hrel Hstate Hr) as (Hrel1 & Hs1 & Hr1 & _ & Hm1 & _).
  change (slave_reset (slaves (line w))) with (dev_reset (slaves (line w))) in Hs1, Hr1.
  unfold dev_reset in Hs1, Hr1. rewrite Hroms in Hs1, Hr1. simpl in Hs1, Hr1.
  assert (Hp : match ds with [] => false | _ :: _ => true end = true)
    by (destruct ds; [contradiction | reflexivity]).
  rewrite Hp in Hr1. subst r.
  (* the command *)
  destruct (wire1WriteByte W1_ROMCMD_SEARCH w1) as [[] w2] eqn:Hw.
  destruct (writebyte_bus _ _ _ Hrel1 Hw) as (Hrel2 & Hs2).
  rewrite Hs1, search_command_taken in Hs2.
  pose proof (frame_of _ _ _ _ (line_only_writebyte W1_ROMCMD_SEARCH) Hw) as (Hm2 & _).
  (* the rounds *)
  assert (Hst2 : forall k, 0 <= k < 64 -> mem_bit (mem w2) addrStart k = start k).
  { intros k Hk. rewrite Hm2, Hm1. now apply Hst. }
  assert (H64 : 0 + Z.of_nat 64 <= 64) by (simpl; lia).
  assert (Hb0 : forall k, 0 <= k < 0 ->
            mem_bit (mem w2) addrOut k = wk_bits (walk_start ds) k) by (intros; lia).
  destruct (search_loop_devices 64 0 (u8 (-1)) (walk_start ds) w2
              (Z.le_refl 0) H64 Hrel2 Hs2 (walk_inv_start ds Hds)
              (out_inv_start _ _) Hb0 Hst2)
    as (iByte' & w3 & Hloop & Hrel3 & Hs3 & Hinv3 & Hbits3 & Hout3 & _).
  change (0 + Z.of_nat 64) with 64 in *. fold s in Hloop, Hs3, Hbits3.
  change (wk_conf (walk_start ds)) with 64 in Hloop.
  (* the device that is left *)
  assert (Hw64 : walk_inv ds 64 s).
  { apply (walk_from_inv start lastConfPos (walk_inv ds) 64) with (n := 64%nat) (i := 0);
      try lia.
    - intros i s0 Hi. apply walk_inv_step. lia.
    - apply walk_inv_start. exact Hds. }
  destruct Hw64 as (HA & HB & _).
  destruct (wk_active s) as [|d R] eqn:Eact; [contradiction|].
  assert (Hd : In d ds /\ agree_below (rom_bit d) (wk_bits s) 64)
    by (apply HA; now left).
  destruct Hd as [Hd Hag].
  rewrite Forall_forall in Hvalid. destruct (Hvalid d Hd) as (Hlen & Hby & Hcrc).
  assert (Hload : load (mem w3) addrOut 8 = d).
  { apply load_eq_of_bits; try assumption.
    - intros j Hj. destruct Hinv3 as (_ & _ & Hb3). apply Hb3.
      change ((64 + 7) / 8) with 8. exact Hj.
    - intros k Hk. rewrite Hbits3 by exact Hk. symmetry. now apply Hag. }
  (* the checksum *)
  eexists. split.
  - unfold wire1SearchLargerROM, wire1Search, search_bits.
    unfold bind at 1. unfold bind at 1. rewrite Hr.
    change (negb (1 =? 1)) with false. cbv iota.
    unfold bind at 1. rewrite Hw. rewrite Hloop.
    unfold search_finish, bind, get_mem. rewrite Hload.
    replace (mem w3 (addrOut + W1_ADDR_BYTE_CRC)) with (idx d W1_ADDR_BYTE_CRC).
    + rewrite Hcrc, Z.eqb_refl. unfold set_state, ret. reflexivity.
    + rewrite <- Hload. reflexivity.
  - cbn [line mem wire1state]. unfold released. cbn [line].
    split; [exact Hrel3|]. split; [now rewrite Hs3|]. split; [reflexivity|].
    rewrite Hload. split; [exact Hd|]. split.
    + intros k Hk. now apply Hag.
    + intros q Hq. rewrite Hout3 by exact Hq. congruence.
Qed.

End SearchOnDevices.

(** ** Enumerating the devices *)

Lemma load_S (m : Z -> Z) (p : Z) (n : nat) :
  load m p (S n) = m p :: load m (p + 1) n.
Proof.
  unfold load. simpl. rewrite Z.add_0_r. f_equal.
  rewrite <- seq_shift, map_map. apply map_ext. intros a. f_equal. lia.
Qed.

Lemma store_list_outside (bytes : list Z) :
  forall (m : Z -> Z) (p q : Z),
  q < p \/ p + Z.of_nat (length bytes) <= q ->
  store_list m p bytes q = m q.
Proof.
  induction bytes as [|b rest IH]; intros m p q Hq; simpl; [reflexivity|].
  simpl length in Hq. rewrite IH by lia. apply store_neq. lia.
Qed.

Lemma load_store_list (bytes : list Z) :
  forall (m : Z -> Z) (p : Z),
  load (store_list m p bytes) p (length bytes) = bytes.
Proof.
  induction bytes as [|b rest IH]; intros m p; [reflexivity|].
  simpl length. rewrite load_S. simpl store_list. f_equal.
  - rewrite store_list_outside by lia. apply store_eq.
  - apply IH.
Qed.

Lemma load_idx (m : Z -> Z) (p j : Z) :
  0 <= j < 8 -> idx (load m p 8) j = m (p + j).
Proof.
  intros Hj. unfold idx, load.
  assert (Hn : (Z.to_nat j < 8)%nat) by lia.
  replace j with (Z.of_nat (Z.to_nat j)) at 2 by lia.
  generalize dependent (Z.to_nat j). intros n Hn.
  do 8 (destruct n as [|n]; [reflexivity|]). lia.
Qed.

(** The bits of a buffer are the bits of the address that it holds. *)
Lemma mem_bit_load (m : Z -> Z) (p k : Z) :
  0 <= k < 64 -> mem_bit m p k = rom_bit (load m p 8) k.
Proof.
  intros Hk. unfold mem_bit, maskBitInArray, rom_bit.
  rewrite load_idx; [reflexivity|]. Z.to_euclidean_division_equations. lia.
Qed.

(** Addresses with the same 64 bits are the same address. *)
Lemma rom_bits_inj (a d : list Z) :
  length a = 8%nat -> Forall is_byte a ->
  length d = 8%nat -> Forall is_byte d ->
  (forall k, 0 <= k < 64 -> rom_bit a k = rom_bit d k) -> a = d.
Proof.
  intros Hla Ha Hld Hd Hb.
  assert (Hload : load (fun q => idx a q) 0 8 = a).
  { do 8 (destruct a as [|? a]; [discriminate|]). destruct a; [|discriminate].
    reflexivity. }
  rewrite <- Hload. apply load_eq_of_bits; try assumption.
  intros j Hj. rewrite Forall_forall in Ha. apply Ha.
  unfold idx. apply nth_In. lia.
Qed.

Lemma search_lt_irrefl (a : list Z) : ~ search_lt a a.
Proof. intros (j & _ & _ & H0 & H1). congruence. Qed.

Lemma search_lt_trans (a b c : list Z) :
  search_lt a b -> search_lt b c -> search_lt a c.
Proof.
  intros (j1 & Hj1 & Hag1 & Ha1 & Hb1) (j2 & Hj2 & Hag2 & Hb2 & Hc2).
  destruct (Z.lt_trichotomy j1 j2) as [Hlt | [Heq | Hgt]].
  - exists j1. split; [lia|]. split; [|split].
    + intros k Hk. rewrite Hag1 by lia. apply Hag2. lia.
    + exact Ha1.
    + rewrite <- Hag2 by lia. exact Hb1.
  - subst j2. congruence.
  - exists j2. split; [lia|]. split; [|split].
    + intros k Hk. rewrite Hag1 by lia. apply Hag2. lia.
    + rewrite Hag1 by lia. exact Hb2.
    + exact Hc2.
Qed.

(** Behind an open branch there is a larger device. *)
Lemma open_branch_lt (ds : list (list Z)) (a : list Z) (c : Z) :
  open_branch ds a c -> exists e, In e ds /\ search_lt a e.
Proof.
  intros (Hc & Ha & e & He & Hec & Hag).
  exists e. split; [exact He|]. exists c. split; [exact Hc|].
  split; [|split]; auto. intros k Hk. symmetry. now apply Hag.
Qed.

(** From here on the walk is used through its invariants only. *)
Opaque walk_from.

Section Calls.

Variable ds : list (list Z).
Variables addrOut addrStart : Z.

Hypothesis Hvalid : Forall valid_address ds.
Hypothesis Hsep : addrStart + 8 <= addrOut \/ addrOut + 8 <= addrStart.

(** The end of a walk, read off the output address. *)
Lemma walk_end (start : Z -> bool) (lc : Z) (a : list Z) :
  ds <> [] ->
  (forall k, 0 <= k < 64 ->
     rom_bit a k = wk_bits (walk_from start lc 64 0 (walk_start ds)) k) ->
  wk_conf (walk_from start lc 64 0 (walk_start ds)) = 64 \/
  open_branch ds a (wk_conf (walk_from start lc 64 0 (walk_start ds))).
Proof.
  intros Hds Hbits.
  assert (Hw : walk_inv ds 64 (walk_from start lc 64 0 (walk_start ds))).
  { apply (walk_from_inv start lc (walk_inv ds) 64) with (n := 64%nat) (i := 0);
      try lia.
    - intros i s0 Hi. apply walk_inv_step. lia.
    - apply walk_inv_start. exact Hds. }
  destruct Hw as (_ & _ & [Hc | (Hc & Hb & e & He & Hbit & Hag)]); [now left|].
  right. split; [exact Hc|]. split; [rewrite Hbits by lia; exact Hb|].
  exists e. split; [exact He|]. split; [exact Hbit|].
  intros k Hk. rewrite Hbits by lia. apply Hag. exact Hk.
Qed.

(** The first call, from a cleared start buffer and no conflict position,
    finds the smallest device. *)
Lemma first_call (lc : Z) (w : World (Bus Devices)) :
  ds <> [] -> 64 <= lc < 256 ->
  bus_ready ds w ->
  load (mem w) addrStart 8 = [0; 0; 0; 0; 0; 0; 0; 0] ->
  exists c w',
    wire1SearchLargerROM addrOut addrStart lc w = (c, w') /\
    bus_ready ds w' /\
    In (load (mem w') addrOut 8) ds /\
    (forall d, In d ds ->
       d = load (mem w') addrOut 8 \/ search_lt (load (mem w') addrOut 8) d) /\
    (c = 64 \/ open_branch ds (load (mem w') addrOut 8) c).
Proof.
  intros Hds Hlc (Hrel & Hroms & Hstate) Hzero.
  set (start := fun _ : Z => false).
  assert (Hst : forall k, 0 <= k < 64 -> mem_bit (mem w) addrStart k = start k).
  { intros k Hk. rewrite mem_bit_load, Hzero by exact Hk. unfold rom_bit, idx.
    assert (Hn : nth (Z.to_nat (k / 8)) [0; 0; 0; 0; 0; 0; 0; 0] 0 = 0).
    { generalize (Z.to_nat (k / 8)). intros n.
      do 8 (destruct n as [|n]; [reflexivity|]). now destruct n. }
    rewrite Hn. reflexivity. }
  assert (Hb : is_byte lc) by (unfold is_byte; lia).
  destruct (search_call ds addrOut addrStart lc start Hsep Hb w
              Hds Hvalid Hrel Hroms Hstate Hst)
    as (w' & Hcall & Hrel' & Hroms' & Hstate' & Hin & Hbits & _).
  exists (wk_conf (walk_from start lc 64 0 (walk_start ds))), w'.
  split; [exact Hcall|].
  split; [split; [exact Hrel' | split; [exact Hroms' | rewrite Hstate'; discriminate]]|].
  split; [exact Hin|]. split; [|exact (walk_end start lc _ Hds Hbits)].
  assert (Hf : walk_inv ds 64 (walk_from start lc 64 0 (walk_start ds)) /\
               first_inv ds 64 (walk_from start lc 64 0 (walk_start ds))).
  { apply (walk_from_inv start lc (fun i s => walk_inv ds i s /\ first_inv ds i s) 64)
      with (n := 64%nat) (i := 0); try lia.
    - intros i s0 Hi. apply first_inv_step; [intros k Hk; reflexivity | lia | exact Hi].
    - split; [apply walk_inv_start; exact Hds|].
      intros d Hd. now left. }
  destruct Hf as ((HA & _) & Hf).
  intros d Hd. destruct (Hf d Hd) as [Hact | (j & Hj & Hag & Hbj & Hdj)].
  - left. apply HA in Hact as [_ Hag].
    rewrite Forall_forall in Hvalid.
    destruct (Hvalid d Hd) as (Hld & Hbd & _).
    destruct (Hvalid _ Hin) as (Hla & Hba & _).
    apply (rom_bits_inj _ _ Hld Hbd Hla Hba).
    intros k Hk. rewrite Hbits by exact Hk. apply Hag. exact Hk.
  - right. exists j. split; [exact Hj|]. split; [|split].
    + intros k Hk. rewrite Hbits by lia. symmetry. apply Hag. exact Hk.
    + rewrite Hbits by lia. exact Hbj.
    + exact Hdj.
Qed.

(** A later call, from the device that the call before found and the
    conflict position that it returned, finds a larger device. *)
Lemma next_call (lc : Z) (P : list Z) (w : World (Bus Devices)) :
  bus_ready ds w ->
  In P ds -> load (mem w) addrStart 8 = P ->
  open_branch ds P lc ->
  exists c w',
    wire1SearchLargerROM addrOut addrStart lc w = (c, w') /\
    bus_ready ds w' /\
    In (load (mem w') addrOut 8) ds /\
    search_lt P (load (mem w') addrOut 8) /\
    (c = 64 \/ open_branch ds (load (mem w') addrOut 8) c).
Proof.
  intros (Hrel & Hroms & Hstate) HP Hload (Hlc & HPlc & e & He & Helc & Heag).
  assert (Hds : ds <> []) by (intros ->; contradiction).
  set (start := rom_bit P).
  assert (Hst : forall k, 0 <= k < 64 -> mem_bit (mem w) addrStart k = start k).
  { intros k Hk. now rewrite mem_bit_load, Hload by exact Hk. }
  assert (Hb : is_byte lc) by (unfold is_byte; lia).
  destruct (search_call ds addrOut addrStart lc start Hsep Hb w
              Hds Hvalid Hrel Hroms Hstate Hst)
    as (w' & Hcall & Hrel' & Hroms' & Hstate' & Hin & Hbits & _).
  exists (wk_conf (walk_from start lc 64 0 (walk_start ds))), w'.
  split; [exact Hcall|].
  split; [split; [exact Hrel' | split; [exact Hroms' | rewrite Hstate'; discriminate]]|].
  split; [exact Hin|]. split; [|exact (walk_end start lc _ Hds Hbits)].
  assert (Hn : walk_inv ds 64 (walk_from start lc 64 0 (walk_start ds)) /\
               next_inv lc P 64 (walk_from start lc 64 0 (walk_start ds))).
  { apply (walk_from_inv start lc (fun i s => walk_inv ds i s /\ next_inv lc P i s) 64)
      with (n := 64%nat) (i := 0); try lia.
    - intros i s0 Hi.
      apply (next_inv_step ds start lc P i s0 HP (fun k _ => eq_refl) Hlc HPlc
               (ex_intro _ e (conj He (conj Helc Heag))) Hi).
    - split; [apply walk_inv_start; exact Hds|].
      unfold next_inv. replace (0 <=? lc) with true by (symmetry; apply Z.leb_le; lia).
      intros k Hk. lia. }
  destruct Hn as (_ & Hn). unfold next_inv in Hn.
  replace (64 <=? lc) with false in Hn by (symmetry; apply Z.leb_gt; lia).
  destruct Hn as [Hag Hone].
  exists lc. split; [exact Hlc|]. split; [|split].
  - intros k Hk. rewrite Hbits by lia. symmetry. apply Hag. exact Hk.
  - exact HPlc.
  - rewrite Hbits by lia. exact Hone.
Qed.

End Calls.

(** ** The caller's enumeration *)



Lemma search_all_S {L : Type} {HL : Line L} (n : nat)
  (addrOut addrStart lastConfPos : Z) (w : World L) :
  search_all (S n) addrOut addrStart lastConfPos w =
  (let (r, w') := wire1SearchLargerROM addrOut addrStart lastConfPos w in
   let found := load (mem w') addrOut 8 in
   if (0 <=? r) && (r <? 64)
   then (found, r) :: search_all n addrOut addrStart r (set_bytes addrStart found w')
   else if r =? 64 then [(found, r)] else []).
Proof. reflexivity. Qed.

Section Enumeration.

Variable ds : list (list Z).
Variables addrOut addrStart : Z.

Hypothesis Hvalid : Forall valid_address ds.
Hypothesis Hsep : addrStart + 8 <= addrOut \/ addrOut + 8 <= addrStart.

Lemma set_bytes_ready (a : list Z) (w : World (Bus Devices)) :
  bus_ready ds w -> bus_ready ds (set_bytes addrStart a w).
Proof. intros H. exact H. Qed.

Lemma set_bytes_load (a : list Z) (w : World (Bus Devices)) :
  length a = 8%nat -> load (mem (set_bytes addrStart a w)) addrStart 8 = a.
Proof.
  intros Hlen. unfold set_bytes. cbn [mem]. rewrite <- Hlen at 1.
  apply load_store_list.
Qed.




End Enumeration.

(** *** Three devices *)





Lemma search_conflict_reads_start_witness :
  (255 =? -1) = false /\
  search_body 100 200 255 0 (u8 (-1), 64) round_w0 =
  (let writeBit := maskBitInArray (mem round_w2) 200 0 in
   (if truthy writeBit then or_mem (100 + 0) (BV (0 mod 8)) else ret tt) ;;
   wire1WriteBit writeBit ;;
   ret (inr (0, if truthy writeBit then 64 else 0))) round_w2.
Proof.
  assert (Hb : is_byte 255) by (unfold is_byte; lia).
  assert (Hne : 0 <> 255) by lia.
  assert (H1 : wire1ReadBit round_wc = (0, round_w1)) by (vm_compute; reflexivity).
  assert (H2 : wire1ReadBit round_w1 = (0, round_w2)) by (vm_compute; reflexivity).
  exact (search_conflict_reads_start 100 200 255 0 (u8 (-1)) 64 0
           round_w0 round_wc round_w1 round_w2 Hb Hne eq_refl H1 H2).
Defined.

Lemma wire1Search_finish_witness :
  0 <= 0 <= 64 /\
  forall r w2,
    wire1Search 100 200 255 W1_ROMCMD_SEARCH
      (power_up (bus_of [rom_a; rom_b; rom_c]) cleared) = (r, w2) ->
    line w2 = line rounds_done /\ trace w2 = trace rounds_done /\
    mem w2 = mem rounds_done /\
    if mem rounds_done (100 + 7) =?
       crc8 0 W1_CRC_POLYNOMIAL (load (mem rounds_done) 100 8) 7
    then wire1state w2 = FUNCTION_COMMAND /\ r = 0
    else wire1state w2 = IDLE /\ r = -1.
Proof.
  assert (H : search_bits 100 200 255 W1_ROMCMD_SEARCH
                (power_up (bus_of [rom_a; rom_b; rom_c]) cleared) =
              (inr (7, 0), rounds_done)) by (vm_compute; reflexivity).
  exact (wire1Search_finish 100 200 255 W1_ROMCMD_SEARCH 7 0 _ rounds_done H).
Defined.

Lemma wire1ReadPowerSupply_out_of_phase_witness :
  wire1ReadPowerSupply (power_up (bus_of [rom_a]) cleared) =
  (-2, power_up (bus_of [rom_a]) cleared).
Proof.
  apply wire1ReadPowerSupply_out_of_phase. simpl. discriminate.
Defined.
(** * Further properties of the driver *)

(** ** The checksum *)






Lemma u8_lxor (x y : Z) : u8 (Z.lxor x y) = Z.lxor (u8 x) (u8 y).
Proof.
  apply Z.bits_inj'. intros k Hk.
  rewrite Z.lxor_spec, !testbit_u8, Z.lxor_spec.
  destruct (k <? 8); reflexivity.
Qed.

Lemma u8_u8 (x : Z) : u8 (u8 x) = u8 x.
Proof. unfold u8. apply Z.mod_mod. lia. Qed.

Lemma land_1_bit (x : Z) : Z.land x (BV 0) = if Z.testbit x 0 then 1 else 0.
Proof.
  change (BV 0) with (Z.ones 1). rewrite Z.land_ones by lia.
  change (2 ^ 1) with 2. rewrite <- Z.bit0_mod.
  destruct (Z.testbit x 0); reflexivity.
Qed.

(** One step of the checksum without its branches: the shifted remainder,
    and the polynomial when the data bit and bit 0 of the remainder
    differ. *)
Lemma crc8_bit_form (p d j r : Z) :
  crc8_bit p d j r =
  Z.lxor (u8 (Z.shiftr r 1))
         (if xorb (Z.testbit d j) (Z.testbit r 0) then u8 p else 0).
Proof.
  unfold crc8_bit. rewrite !land_1_bit.
  rewrite Z.shiftr_spec by lia. rewrite Z.add_0_l.
  rewrite u8_lxor, u8_u8.
  destruct (Z.testbit d j), (Z.testbit r 0); cbn [xorb];
    [ change (truthy (Z.lxor 1 1)) with false
    | change (truthy (Z.lxor 1 0)) with true
    | change (truthy (Z.lxor 0 1)) with true
    | change (truthy (Z.lxor 0 0)) with false ];
    cbv iota; rewrite ?Z.lxor_0_r; reflexivity.
Qed.

Lemma lxor_shuffle (a b x y : Z) :
  Z.lxor (Z.lxor a b) (Z.lxor x y) = Z.lxor (Z.lxor a x) (Z.lxor b y).
Proof.
  apply Z.bits_inj'. intros k _. rewrite !Z.lxor_spec.
  destruct (Z.testbit a k), (Z.testbit b k), (Z.testbit x k), (Z.testbit y k);
    reflexivity.
Qed.

Lemma crc8_bit_lxor (p d1 d2 j r1 r2 : Z) :
  crc8_bit p (Z.lxor d1 d2) j (Z.lxor r1 r2) =
  Z.lxor (crc8_bit p d1 j r1) (crc8_bit p d2 j r2).
Proof.
  rewrite !crc8_bit_form, Z.shiftr_lxor, u8_lxor, <- lxor_shuffle.
  f_equal. rewrite !Z.lxor_spec.
  destruct (Z.testbit d1 j), (Z.testbit d2 j), (Z.testbit r1 0), (Z.testbit r2 0);
    cbn [xorb]; rewrite ?Z.lxor_0_r, ?Z.lxor_0_l, ?Z.lxor_nilpotent; reflexivity.
Qed.

Lemma for_from_lxor (n : nat) :
  forall (i : Z) (f g h : Z -> Z -> Z) (a b : Z),
  (forall k x y, i <= k < i + Z.of_nat n -> h k (Z.lxor x y) = Z.lxor (f k x) (g k y)) ->
  for_from n i h (Z.lxor a b) = Z.lxor (for_from n i f a) (for_from n i g b).
Proof.
  induction n as [|n IH]; intros i f g h a b H; [reflexivity|].
  cbn [for_from]. rewrite H by lia. apply IH. intros k x y Hk. apply H. lia.
Qed.

Lemma crc8_byte_lxor (p d1 d2 r1 r2 : Z) :
  crc8_byte p (Z.lxor d1 d2) (Z.lxor r1 r2) =
  Z.lxor (crc8_byte p d1 r1) (crc8_byte p d2 r2).
Proof.
  unfold crc8_byte, for_upto. apply for_from_lxor.
  intros k x y _. apply crc8_bit_lxor.
Qed.

(** X2.  The checksum is linear over exclusive or, for every polynomial:
    when every data byte is the exclusive or of the bytes of two other
    arrays, and the input that of two other inputs, the checksum is the
    exclusive or of the two checksums. *)
Theorem crc8_xor (polynomial c1 c2 : Z) (data data1 data2 : list Z) (size : Z) :
  (forall i, 0 <= i < size -> idx data i = Z.lxor (idx data1 i) (idx data2 i)) ->
  crc8 (Z.lxor c1 c2) polynomial data size =
  Z.lxor (crc8 c1 polynomial data1 size) (crc8 c2 polynomial data2 size).
Proof.
  intros H. unfold crc8, for_upto. apply for_from_lxor.
  intros k x y Hk. rewrite H by lia. apply crc8_byte_lxor.
Qed.

Lemma crc8_xor_witness :
  crc8 (Z.lxor 0x11 0x22) W1_CRC_POLYNOMIAL [0x29; 0xF0; 0x01] 3 =
  Z.lxor (crc8 0x11 W1_CRC_POLYNOMIAL [0x28; 0xFF; 0x4B] 3)
         (crc8 0x22 W1_CRC_POLYNOMIAL [0x01; 0x0F; 0x4A] 3).
Proof.
  apply crc8_xor. intros i Hi.
  assert (Hc : i = 0 \/ i = 1 \/ i = 2) by lia.
  destruct Hc as [-> | [-> | ->]]; reflexivity.
Defined.

Lemma crc8_S (c p : Z) (data : list Z) (n : Z) :
  0 <= n ->
  crc8 c p data (n + 1) = crc8_byte p (idx data n) (crc8 c p data n).
Proof.
  intros Hn. unfold crc8, for_upto.
  replace (Z.to_nat (n + 1)) with (S (Z.to_nat n)) by lia.
  rewrite for_from_snoc. rewrite Z.add_0_l, Z2Nat.id by lia. reflexivity.
Qed.

Lemma range_all (n : nat) (P : Z -> bool) :
  forallb P (map Z.of_nat (seq 0 n)) = true ->
  forall x, 0 <= x < Z.of_nat n -> P x = true.
Proof.
  intros H x Hx. rewrite forallb_forall in H. apply H.
  apply in_map_iff. exists (Z.to_nat x). split; [lia|].
  apply in_seq. lia.
Qed.





Lemma differing_bits_In (a b : list Z) (k : Z) :
  In k (differing_bits a b) <-> 0 <= k < 64 /\ rom_bit a k <> rom_bit b k.
Proof.
  unfold differing_bits. rewrite filter_In, in_map_iff. split.
  - intros ((n & <- & Hn) & H). apply in_seq in Hn. split; [lia|].
    destruct (rom_bit a (Z.of_nat n)), (rom_bit b (Z.of_nat n));
      simpl in H; congruence.
  - intros (Hk & H). split.
    + exists (Z.to_nat k). split; [lia|]. apply in_seq. lia.
    + destruct (rom_bit a k), (rom_bit b k); simpl; congruence.
Qed.

Lemma testbit_byte_high (x t : Z) : is_byte x -> 8 <= t -> Z.testbit x t = false.
Proof.
  intros Hx Ht. rewrite <- (u8_small x Hx), testbit_u8.
  destruct (t <? 8) eqn:E; [lia | reflexivity].
Qed.

Lemma idx_byte (a : list Z) (k : Z) : Forall is_byte a -> is_byte (idx a k).
Proof.
  intros H. unfold idx. destruct (nth_in_or_default (Z.to_nat k) a 0) as [Hin | ->].
  - rewrite Forall_forall in H. apply H. exact Hin.
  - unfold is_byte. lia.
Qed.

Lemma idx_two_bits (i j k : Z) :
  0 <= k < 8 ->
  idx (two_bits i j) k =
  Z.lor (if k =? i / 8 then BV (i mod 8) else 0)
        (if k =? j / 8 then BV (j mod 8) else 0).
Proof.
  intros Hk.
  assert (Hc : k = 0 \/ k = 1 \/ k = 2 \/ k = 3 \/ k = 4 \/ k = 5 \/ k = 6 \/ k = 7)
    by lia.
  destruct Hc as [-> | [-> | [-> | [-> | [-> | [-> | [-> | ->]]]]]]]; reflexivity.
Qed.

(** No pattern of one or two bits has the checksum 0. *)
Lemma two_bits_detected (i j : Z) :
  0 <= i < 64 -> 0 <= j < 64 ->
  crc8 0 W1_CRC_POLYNOMIAL (two_bits i j) 8 <> 0.
Proof.
  intros Hi Hj.
  assert (T : forallb (fun i => forallb (fun j =>
                 negb (crc8 0 W1_CRC_POLYNOMIAL (two_bits i j) 8 =? 0))
                 (map Z.of_nat (seq 0 64))) (map Z.of_nat (seq 0 64)) = true)
    by (vm_compute; reflexivity).
  pose proof (range_all 64 _ T i Hi) as T1. cbv beta in T1.
  pose proof (range_all 64 _ T1 j Hj) as T2. cbv beta in T2.
  intros H. rewrite H in T2. discriminate.
Qed.

Lemma valid_address_zero (a : list Z) :
  valid_address a -> crc8 0 W1_CRC_POLYNOMIAL a 8 = 0.
Proof.
  intros (_ & Hb & Hc). change 8 with (7 + 1). rewrite crc8_S by lia.
  change W1_ADDR_BYTE_CRC with 7 in Hc. rewrite <- Hc.
  apply crc8_byte_self. apply idx_byte. exact Hb.
Qed.

(** X4.  Two different addresses that both pass the checksum test of the
    driver differ in at least three of their 64 bits: no one or two wrong
    bits turn an address with a right checksum into another. *)
Theorem valid_addresses_differ_in_three_bits (a b : list Z) :
  valid_address a -> valid_address b -> a <> b ->
  (3 <= length (differing_bits a b))%nat.
Proof.
  intros Ha Hb Hne.
  destruct (Nat.le_gt_cases 3 (length (differing_bits a b))) as [H | H]; [exact H|].
  exfalso.
  pose proof (differing_bits_In a b) as Hin.
  assert (Hij : exists i j, 0 <= i < 64 /\ 0 <= j < 64 /\
            forall k, 0 <= k < 64 -> (rom_bit a k <> rom_bit b k <-> k = i \/ k = j)).
  { destruct (differing_bits a b) as [|i [|j [|x l]]].
    - exfalso. apply Hne.
      destruct Ha as (La & Ba & _), Hb as (Lb & Bb & _).
      apply rom_bits_inj; try assumption.
      intros k Hk. destruct (Bool.bool_dec (rom_bit a k) (rom_bit b k)) as [E | E];
        [exact E|]. exfalso. apply (proj2 (Hin k)). split; assumption.
    - exists i, i.
      assert (Hi : 0 <= i < 64) by (apply Hin; left; reflexivity).
      split; [exact Hi|]. split; [exact Hi|].
      intros k Hk. split.
      + intros E. destruct (proj2 (Hin k) (conj Hk E)) as [<- | []]. left; reflexivity.
      + intros [-> | ->]; apply Hin; left; reflexivity.
    - exists i, j.
      assert (Hi : 0 <= i < 64) by (apply Hin; left; reflexivity).
      assert (Hj : 0 <= j < 64) by (apply Hin; right; left; reflexivity).
      split; [exact Hi|]. split; [exact Hj|].
      intros k Hk. split.
      + intros E. destruct (proj2 (Hin k) (conj Hk E)) as [<- | [<- | []]];
          [left | right]; reflexivity.
      + intros [-> | ->]; apply Hin; [left | right; left]; reflexivity.
    - simpl in H. lia. }
  destruct Hij as (i & j & Hi & Hj & Hd).
  apply (two_bits_detected i j Hi Hj).
  rewrite <- (Z.lxor_nilpotent 0) at 1.
  unfold crc8, for_upto.
  rewrite (for_from_lxor _ _
             (fun k r => crc8_byte W1_CRC_POLYNOMIAL (idx a k) r)
             (fun k r => crc8_byte W1_CRC_POLYNOMIAL (idx b k) r)).
  - pose proof (valid_address_zero a Ha) as Za.
    pose proof (valid_address_zero b Hb) as Zb.
    unfold crc8, for_upto in Za, Zb. rewrite Za, Zb. reflexivity.
  - intros k x y Hk. rewrite <- crc8_byte_lxor. f_equal.
    destruct Ha as (_ & Ba & _), Hb as (_ & Bb & _).
    assert (Hk8 : 0 <= k < 8) by (simpl in Hk; lia).
    rewrite idx_two_bits by exact Hk8.
    apply Z.bits_inj'. intros t Ht.
    rewrite Z.lor_spec, Z.lxor_spec.
    destruct (Z.le_gt_cases 8 t) as [Hhi | Hlo].
    + rewrite (testbit_byte_high (idx a k)), (testbit_byte_high (idx b k))
        by (try apply idx_byte; assumption).
      assert (Hb0 : forall n, 0 <= n < 64 ->
                Z.testbit (if k =? n / 8 then BV (n mod 8) else 0) t = false).
      { intros n Hn. destruct (k =? n / 8); [|apply Z.bits_0].
        rewrite testbit_BV by (apply Z.mod_pos_bound; lia).
        apply Z.eqb_neq. pose proof (Z.mod_pos_bound n 8). lia. }
      rewrite !Hb0 by assumption. reflexivity.
    + assert (Hq : 0 <= 8 * k + t < 64) by lia.
      assert (Hdiv : (8 * k + t) / 8 = k)
        by (Z.to_euclidean_division_equations; lia).
      assert (Hmod : (8 * k + t) mod 8 = t)
        by (Z.to_euclidean_division_equations; lia).
      pose proof (rom_bit_testbit a (8 * k + t) (proj1 Hq)) as Ra.
      pose proof (rom_bit_testbit b (8 * k + t) (proj1 Hq)) as Rb.
      rewrite Hdiv, Hmod in Ra, Rb. rewrite <- Ra, <- Rb.
      assert (Hbit : forall n, 0 <= n < 64 ->
                Z.testbit (if k =? n / 8 then BV (n mod 8) else 0) t =
                (8 * k + t =? n)).
      { intros n Hn. destruct (k =? n / 8) eqn:E.
        - rewrite testbit_BV by (apply Z.mod_pos_bound; lia).
          apply Z.eqb_eq in E.
          destruct (n mod 8 =? t) eqn:E1; symmetry;
            [apply Z.eqb_eq | apply Z.eqb_neq];
            [apply Z.eqb_eq in E1 | apply Z.eqb_neq in E1];
            Z.to_euclidean_division_equations; lia.
        - rewrite Z.bits_0. symmetry. apply Z.eqb_neq. apply Z.eqb_neq in E.
          Z.to_euclidean_division_equations; lia. }
      rewrite !Hbit by assumption.
      specialize (Hd (8 * k + t) Hq).
      destruct (Z.eqb_spec (8 * k + t) i) as [Ei | Ei],
               (Z.eqb_spec (8 * k + t) j) as [Ej | Ej];
        destruct (rom_bit a (8 * k + t)), (rom_bit b (8 * k + t));
        cbn [xorb orb]; try reflexivity; exfalso;
        try (apply (proj2 Hd); [tauto | reflexivity]);
        try (assert (Hx : 8 * k + t = i \/ 8 * k + t = j)
               by (apply Hd; discriminate); lia).
Qed.

Lemma valid_addresses_differ_in_three_bits_witness :
  (3 <= length (differing_bits rom_a rom_b))%nat.
Proof.
  apply valid_addresses_differ_in_three_bits.
  - vm_compute. repeat split; try discriminate; try reflexivity.
    repeat constructor; discriminate.
  - vm_compute. repeat split; try discriminate; try reflexivity.
    repeat constructor; discriminate.
  - discriminate.
Defined.
(** ** The polls and the slots, on any line *)

Section LineFacts.

Context {L : Type} {HL : Line L}.

Lemma repeat_sample_cons (n : nat) (t : list LineOp) :
  repeat OpSample n ++ OpSample :: t = repeat OpSample (S n) ++ t.
Proof.
  induction n as [|n IH]; [reflexivity|].
  cbn [repeat app]. rewrite IH. reflexivity.
Qed.

Lemma sample_pin_run (w : World L) :
  sample_pin w =
  (fst (pin_sample (line w)),
   mkWorld (snd (pin_sample (line w))) (OpSample :: trace w)
           (wire1state w) (wire1_idleloops w) (mem w)).
Proof. unfold sample_pin. destruct (pin_sample (line w)). reflexivity. Qed.

(** The loop of the polls, from [count] looks left of [nloops]: the value
    returned, the looks taken and the line left behind. *)
Lemma poll_loop_spec (wanted : bool) (nloops : Z) (count : nat) :
  forall w : World L,
  0 <= nloops < 256 -> Z.of_nat count <= nloops ->
  fst (poll_loop wanted nloops count w) =
    match first_level wanted count (line w) with
    | Some k => if (k <? count)%nat then nloops - Z.of_nat count + Z.of_nat k else 0
    | None => 0
    end /\
  trace (snd (poll_loop wanted nloops count w)) =
    repeat OpSample (match first_level wanted count (line w) with
                     | Some k => k
                     | None => count
                     end) ++ trace w.
Proof.
  induction count as [|c IH]; intros w Hn Hc; [split; reflexivity|].
  cbn [poll_loop first_level]. unfold bind. rewrite sample_pin_run.
  destruct (pin_sample (line w)) as [lvl l'] eqn:E. cbn [fst snd].
  destruct (Bool.eqb lvl wanted).
  - destruct c as [|c']; cbn [ret fst snd trace]; split; try reflexivity.
    replace (S (S c') <=? S (S c'))%nat with true. 2:{ symmetry. apply Nat.leb_refl. }
    change (1 <? S (S c'))%nat with true. cbv iota.
    unfold u8. rewrite Z.mod_small by lia. lia.
  - destruct c as [|c'].
    + cbn [ret fst snd trace first_level option_map]. split; reflexivity.
    + match goal with
      | |- context [poll_loop wanted nloops (S c') ?w1] =>
          destruct (IH w1 Hn ltac:(lia)) as (IHr & IHt)
      end.
      cbn [line trace] in IHr, IHt. rewrite IHr, IHt.
      destruct (first_level wanted (S c') l') as [k|]; cbn [option_map].
      * split.
        -- change (S k <? S (S c'))%nat with (k <? S c')%nat.
           destruct (k <? S c')%nat; [lia | reflexivity].
        -- apply repeat_sample_cons.
      * split; [reflexivity | apply repeat_sample_cons].
Qed.

Lemma first_level_bound (wanted : bool) (n : nat) :
  forall (l : L) (k : nat),
  first_level wanted n l = Some k -> (1 <= k <= n)%nat.
Proof.
  induction n as [|n IH]; intros l k H; [discriminate|].
  cbn [first_level] in H. destruct (pin_sample l) as [lvl l'].
  destruct (Bool.eqb lvl wanted).
  - injection H as <-. lia.
  - destruct (first_level wanted n l') as [k'|] eqn:E; [|discriminate].
    injection H as <-. apply IH in E. lia.
Qed.

Lemma poll_spec (wanted : bool) (nloops : Z) (w : World L) :
  0 <= nloops < 256 ->
  let c := if nloops =? 0 then ret 0 else poll_loop wanted nloops (Z.to_nat nloops) in
  fst (c w) =
    match first_level wanted (Z.to_nat nloops) (line w) with
    | Some k => if Z.of_nat k <? nloops then Z.of_nat k else 0
    | None => 0
    end /\
  trace (snd (c w)) =
    repeat OpSample (match first_level wanted (Z.to_nat nloops) (line w) with
                     | Some k => k
                     | None => Z.to_nat nloops
                     end) ++ trace w.
Proof.
  intros Hn c. subst c. destruct (Z.eqb_spec nloops 0) as [-> | Hz].
  - split; reflexivity.
  - destruct (poll_loop_spec wanted nloops (Z.to_nat nloops) w Hn ltac:(lia)) as (Hr & Ht).
    rewrite Hr, Ht. split; [|reflexivity].
    destruct (first_level wanted (Z.to_nat nloops) (line w)) as [k|] eqn:E; [|reflexivity].
    apply first_level_bound in E.
    destruct (Nat.ltb_spec k (Z.to_nat nloops)), (Z.ltb_spec (Z.of_nat k) nloops);
      lia.
Qed.

(** X5.  What the two polls return.  [wire1Poll4Hold] looks at the pin up
    to [nloops] times and returns the number of the look that first found
    it low; [wire1Poll4Release] does the same for high.  They return 0
    when no look found the level, and also when only the last of the
    [nloops] looks did. *)
Theorem wire1Poll4_result (nloops : Z) (w : World L) :
  0 <= nloops < 256 ->
  fst (wire1Poll4Hold nloops w) =
    match first_level false (Z.to_nat nloops) (line w) with
    | Some k => if Z.of_nat k <? nloops then Z.of_nat k else 0
    | None => 0
    end /\
  fst (wire1Poll4Release nloops w) =
    match first_level true (Z.to_nat nloops) (line w) with
    | Some k => if Z.of_nat k <? nloops then Z.of_nat k else 0
    | None => 0
    end.
Proof.
  intros Hn. split.
  - exact (proj1 (poll_spec false nloops w Hn)).
  - exact (proj1 (poll_spec true nloops w Hn)).
Qed.

(** X6.  How long the polls take and what they leave alone.  A poll that
    returns a value other than 0 has looked at the pin that many times; a
    poll that returns 0 has looked [nloops] times.  The value is below
    [nloops].  A poll does nothing to the pin but look, and changes
    neither the state nor the memory. *)
Theorem wire1Poll4_samples (nloops : Z) (w : World L) :
  0 <= nloops < 256 ->
  (let r := fst (wire1Poll4Hold nloops w) in
   let w' := snd (wire1Poll4Hold nloops w) in
   (r = 0 \/ 0 < r < nloops) /\
   trace w' = repeat OpSample (Z.to_nat (if r =? 0 then nloops else r)) ++ trace w /\
   frame w w') /\
  (let r := fst (wire1Poll4Release nloops w) in
   let w' := snd (wire1Poll4Release nloops w) in
   (r = 0 \/ 0 < r < nloops) /\
   trace w' = repeat OpSample (Z.to_nat (if r =? 0 then nloops else r)) ++ trace w /\
   frame w w').
Proof.
  intros Hn.
  assert (H : forall wanted,
    let c := if nloops =? 0 then ret 0 else poll_loop wanted nloops (Z.to_nat nloops) in
    (fst (c w) = 0 \/ 0 < fst (c w) < nloops) /\
    trace (snd (c w)) =
      repeat OpSample (Z.to_nat (if fst (c w) =? 0 then nloops else fst (c w)))
        ++ trace w).
  { intros wanted c. destruct (poll_spec wanted nloops w Hn) as (Hr & Ht).
    fold c in Hr, Ht. rewrite Ht, Hr.
    destruct (first_level wanted (Z.to_nat nloops) (line w)) as [k|] eqn:E.
    - apply first_level_bound in E.
      destruct (Z.ltb_spec (Z.of_nat k) nloops).
      + split; [right; lia|].
        destruct (Z.eqb_spec (Z.of_nat k) 0); [lia|].
        rewrite Nat2Z.id. reflexivity.
      + split; [left; reflexivity|].
        change (0 =? 0) with true. cbv iota. f_equal. f_equal. lia.
    - split; [left; reflexivity | reflexivity]. }
  split; cbv zeta.
  - destruct (H false) as (H1 & H2). split; [exact H1|]. split; [exact H2|].
    apply line_only_poll4hold.
  - destruct (H true) as (H1 & H2). split; [exact H1|]. split; [exact H2|].
    apply line_only_poll4release.
Qed.

End LineFacts.
Section SlotFacts.

Context {L : Type} {HL : Line L}.

Lemma supersample_unrolled (i : nat) :
  forall (b : Z) (w : World L), supersample i b w = sample_times (6 * i) b w.
Proof.
  induction i as [|i IH]; intros b w; [reflexivity|].
  replace (6 * S i)%nat with (S (S (S (S (S (S (6 * i))))))) by lia.
  cbn [supersample sample_times]. unfold bind.
  repeat match goal with
         | |- context [sample_inc ?x ?y] => destruct (sample_inc x y)
         end.
  apply IH.
Qed.

Lemma sample_inc_run (b : Z) (w : World L) :
  sample_inc b w =
  ((if fst (pin_sample (line w)) then b else u8 (b + 1)),
   mkWorld (snd (pin_sample (line w))) (OpSample :: trace w)
           (wire1state w) (wire1_idleloops w) (mem w)).
Proof.
  unfold sample_inc, bind, ret. rewrite sample_pin_run. reflexivity.
Qed.

(** [n] looks from the count [b]: the count goes up exactly when a look
    finds the pin low. *)
Lemma sample_times_spec (n : nat) :
  forall (b : Z) (w : World L),
  0 <= b -> b + Z.of_nat n < 256 ->
  b <= fst (sample_times n b w) <= b + Z.of_nat n /\
  (fst (sample_times n b w) = b <-> first_level false n (line w) = None) /\
  trace (snd (sample_times n b w)) = repeat OpSample n ++ trace w /\
  frame w (snd (sample_times n b w)).
Proof.
  induction n as [|n IH]; intros b w Hb Hn.
  - cbn. split; [lia|]. split; [tauto|]. split; [reflexivity | apply frame_refl].
  - cbn [sample_times first_level]. unfold bind. rewrite sample_inc_run.
    destruct (pin_sample (line w)) as [lvl l'] eqn:E. cbn [fst snd].
    match goal with
    | |- context [sample_times n ?b1 ?w1] =>
        assert (Hb1 : 0 <= b1 /\ b1 + Z.of_nat n < 256 /\ b <= b1 <= b + 1 /\
                      (b1 = b <-> lvl = true))
          by (destruct lvl; unfold u8; rewrite ?Z.mod_small by lia;
              repeat split; try lia; try congruence; intros; lia);
        destruct Hb1 as (H1 & H2 & H3 & H4);
        destruct (IH b1 w1 H1 H2) as (I1 & I2 & I3 & I4)
    end.
    cbn [line trace] in I2, I3.
    split; [lia|]. split; [|split].
    + destruct lvl; cbn [Bool.eqb].
      * rewrite I2. destruct (first_level false n l'); cbn [option_map];
          split; congruence.
      * split; [|discriminate]. intros Hx. exfalso.
        assert (Hq : u8 (b + 1) <> b) by (intros Hq; apply H4 in Hq; discriminate).
        lia.
    + rewrite I3. apply repeat_sample_cons.
    + destruct I4 as (F1 & F2 & F3). cbn [mem wire1state wire1_idleloops] in *.
      repeat split; assumption.
Qed.

(** A read slot, in full. *)
Lemma readbit_slot_spec (w : World L) :
  fst (wire1ReadBit w) =
    match first_level false 24 (pin_release (pin_hold (line w))) with
    | Some _ => 0
    | None => 0xFF
    end /\
  trace (snd (wire1ReadBit w)) = read_slot_ops ++ trace w /\
  frame w (snd (wire1ReadBit w)).
Proof.
  unfold wire1ReadBit, bind, wire1Hold, wire1Release.
  rewrite supersample_unrolled. change (6 * 4)%nat with 24%nat.
  match goal with
  | |- context [sample_times 24 0 ?w1] =>
      destruct (sample_times_spec 24 0 w1 ltac:(lia) ltac:(lia)) as (I1 & I2 & I3 & I4);
      destruct (sample_times 24 0 w1) as [b w2]
  end.
  cbn [fst snd ret line trace] in *.
  split; [|split].
  - destruct (first_level false 24 (pin_release (pin_hold (line w)))) as [k|] eqn:E.
    + destruct (Z.gtb_spec b 0); [reflexivity|].
      assert (Hb0 : b = 0) by lia. apply I2 in Hb0. discriminate.
    + rewrite (proj2 I2 eq_refl). reflexivity.
  - rewrite I3. unfold read_slot_ops. rewrite <- app_assoc. reflexivity.
  - destruct (b >? 0); exact I4.
Qed.

Lemma poll_grows (wanted : bool) (nloops : Z) (count : nat) :
  forall w : World L, exists n,
    (match count with O => n = O | S _ => 1 <= n <= count end)%nat /\
    trace (snd (poll_loop wanted nloops count w)) = repeat OpSample n ++ trace w.
Proof.
  induction count as [|c IH]; intros w.
  - exists O. split; reflexivity.
  - cbn [poll_loop]. unfold bind. rewrite sample_pin_run.
    destruct (Bool.eqb (fst (pin_sample (line w))) wanted).
    + exists 1%nat. split; [lia | reflexivity].
    + destruct c as [|c'].
      * exists 1%nat. split; [lia | reflexivity].
      * match goal with
        | |- context [poll_loop wanted nloops (S c') ?w1] =>
            destruct (IH w1) as (n & Hn & Ht)
        end.
        exists (S n). split; [lia|]. rewrite Ht. apply repeat_sample_cons.
Qed.

(** A write slot, in full. *)
Lemma writebit_slot_spec (bit : Z) (w : World L) :
  exists n, (1 <= n <= 15)%nat /\
    trace (snd (wire1WriteBit bit w)) =
      (if truthy bit
       then repeat OpSample n ++ [OpRelease; OpHold]
       else OpRelease :: repeat OpSample n ++ [OpHold]) ++ trace w /\
    frame w (snd (wire1WriteBit bit w)).
Proof.
  pose proof (line_only_writebit bit w) as Hf.
  unfold wire1WriteBit, bind, wire1Hold, wire1Release in *.
  unfold wire1Poll4Hold, wire1Poll4Release in *.
  change (15 =? 0) with false in *. cbv iota in *.
  change (Z.to_nat 15) with 15%nat in *.
  destruct (truthy bit).
  - match goal with
    | |- context [poll_loop false 15 15 ?w1] =>
        destruct (poll_grows false 15 15 w1) as (n & Hn & Ht);
        destruct (poll_loop false 15 15 w1) as [r w2]
    end.
    exists n. split; [exact Hn|]. split; [|exact Hf].
    cbn [snd ret trace] in *. rewrite Ht. rewrite <- app_assoc. reflexivity.
  - match goal with
    | |- context [poll_loop true 15 15 ?w1] =>
        destruct (poll_grows true 15 15 w1) as (n & Hn & Ht);
        destruct (poll_loop true 15 15 w1) as [r w2]
    end.
    exists n. split; [exact Hn|]. split; [|exact Hf].
    cbn [snd ret trace] in *. rewrite Ht. cbn [app].
    rewrite <- app_assoc. reflexivity.
Qed.

Lemma last_drive_app (ops t : list LineOp) :
  last_drive (ops ++ t) =
  match last_drive ops with
  | None => last_drive t
  | Some op => Some op
  end.
Proof.
  induction ops as [|op ops IH]; [reflexivity|].
  destruct op; cbn [app last_drive]; [reflexivity | reflexivity | exact IH].
Qed.

Lemma last_drive_samples (n : nat) : last_drive (repeat OpSample n) = None.
Proof. induction n as [|n IH]; [reflexivity | exact IH]. Qed.

Lemma lets_go_ret {A : Type} (a : A) : lets_go (ret (L := L) a).
Proof. intros w. exists []. split; [reflexivity | left; reflexivity]. Qed.

Lemma lets_go_bind {A B : Type} (c : M L A) (k : A -> M L B) :
  lets_go c -> (forall a, lets_go (k a)) -> lets_go (bind c k).
Proof.
  intros Hc Hk w. unfold bind.
  destruct (Hc w) as (ops1 & T1 & D1). destruct (c w) as [a w1].
  destruct (Hk a w1) as (ops2 & T2 & D2). cbn [snd] in *.
  exists (ops2 ++ ops1). split.
  - rewrite T2, T1. apply app_assoc.
  - rewrite last_drive_app. destruct D2 as [-> | ->]; [exact D1 | right; reflexivity].
Qed.

Lemma lets_go_forM {A : Type} (body : Z -> A -> M L A) (n : nat) :
  (forall j x, lets_go (body j x)) ->
  forall (i : Z) (a : A), lets_go (forM_from n i body a).
Proof.
  intros Hb. induction n as [|n IH]; intros i a; cbn [forM_from].
  - apply lets_go_ret.
  - apply lets_go_bind; [apply Hb | intros x; apply IH].
Qed.

(** Whatever keeps its hands off the pin lets it go. *)
Lemma lets_go_same {A : Type} (c : M L A) :
  (forall w, trace (snd (c w)) = trace w) -> lets_go c.
Proof.
  intros H w. exists []. split; [apply H | left; reflexivity].
Qed.

Lemma lets_go_release : lets_go wire1Release.
Proof.
  intros w. exists [OpRelease]. split; [reflexivity | right; reflexivity].
Qed.

Lemma lets_go_poll_loop (wanted : bool) (nloops : Z) (count : nat) :
  lets_go (poll_loop wanted nloops count).
Proof.
  intros w. destruct (poll_grows wanted nloops count w) as (n & _ & Ht).
  exists (repeat OpSample n). split; [exact Ht | left; apply last_drive_samples].
Qed.

Lemma lets_go_poll4hold (n : Z) : lets_go (wire1Poll4Hold n).
Proof.
  unfold wire1Poll4Hold. destruct (n =? 0);
    [apply lets_go_ret | apply lets_go_poll_loop].
Qed.

Lemma lets_go_poll4release (n : Z) : lets_go (wire1Poll4Release n).
Proof.
  unfold wire1Poll4Release. destruct (n =? 0);
    [apply lets_go_ret | apply lets_go_poll_loop].
Qed.

Lemma lets_go_readbit : lets_go wire1ReadBit.
Proof.
  intros w. destruct (readbit_slot_spec w) as (_ & Ht & _).
  exists read_slot_ops. split; [exact Ht | right; reflexivity].
Qed.

Lemma lets_go_writebit (bit : Z) : lets_go (wire1WriteBit bit).
Proof.
  intros w. destruct (writebit_slot_spec bit w) as (n & _ & Ht & _).
  eexists. split; [exact Ht|]. right.
  destruct (truthy bit).
  - rewrite last_drive_app, last_drive_samples. reflexivity.
  - reflexivity.
Qed.

(** A pulse: the pin is driven low, something is done that ends with the
    pin let go, and more follows that lets go. *)
Lemma lets_go_pulse {A B : Type} (c : M L A) (k : M L B) :
  (forall w, exists ops, trace (snd (c w)) = ops ++ trace w) ->
  lets_go k ->
  lets_go (wire1Hold ;; _ <- c ;; wire1Release ;; k).
Proof.
  intros Hc Hk w. unfold bind, wire1Hold, wire1Release.
  match goal with
  | |- context [c ?w1] => destruct (Hc w1) as (ops1 & T1); destruct (c w1) as [a w2]
  end.
  match goal with
  | |- context [k ?w3] => destruct (Hk w3) as (ops2 & T2 & D2); destruct (k w3) as [b w4]
  end.
  cbn [snd trace] in *.
  exists (ops2 ++ OpRelease :: ops1 ++ [OpHold]). split.
  - rewrite T2, T1. rewrite <- app_assoc. cbn [app]. rewrite <- app_assoc.
    reflexivity.
  - right. rewrite last_drive_app. destruct D2 as [-> | ->]; reflexivity.
Qed.

(** X7.  A read slot: the short pulse, then exactly 24 looks at the pin,
    whatever they find.  It returns 0 when one of the looks found the pin
    low and 0xFF when none did, and changes neither the state nor the
    memory. *)
Theorem wire1ReadBit_slot (w : World L) :
  fst (wire1ReadBit w) =
    match first_level false 24 (pin_release (pin_hold (line w))) with
    | Some _ => 0
    | None => 0xFF
    end /\
  trace (snd (wire1ReadBit w)) = read_slot_ops ++ trace w /\
  frame w (snd (wire1ReadBit w)).
Proof. exact (readbit_slot_spec w). Qed.

(** X8.  A write slot.  For a 1 the pin is driven low and let go at once,
    and then looked at; for a 0 it is looked at while it is driven low and
    let go after that.  Either way there are between 1 and 15 looks, and
    neither the state nor the memory changes. *)
Theorem wire1WriteBit_slot (bit : Z) (w : World L) :
  exists n, (1 <= n <= 15)%nat /\
    trace (snd (wire1WriteBit bit w)) =
      (if truthy bit
       then repeat OpSample n ++ [OpRelease; OpHold]
       else OpRelease :: repeat OpSample n ++ [OpHold]) ++ trace w /\
    frame w (snd (wire1WriteBit bit w)).
Proof. exact (writebit_slot_spec bit w). Qed.

End SlotFacts.
(** ** The session state, on any line *)

Section StateFacts.

Context {L : Type} {HL : Line L}.

Lemma concat_slots_cons (n : nat) (t : list LineOp) :
  concat (repeat read_slot_ops n) ++ read_slot_ops ++ t =
  concat (repeat read_slot_ops (S n)) ++ t.
Proof.
  induction n as [|n IH].
  - cbn [repeat concat app]. rewrite app_nil_r. reflexivity.
  - change (repeat read_slot_ops (S n)) with (read_slot_ops :: repeat read_slot_ops n).
    cbn [concat]. rewrite <- app_assoc. rewrite IH.
    change (repeat read_slot_ops (S (S n)))
      with (read_slot_ops :: read_slot_ops :: repeat read_slot_ops n).
    change (repeat read_slot_ops (S n)) with (read_slot_ops :: repeat read_slot_ops n).
    cbn [concat]. rewrite <- !app_assoc. reflexivity.
Qed.

(** The loop of [wire1Poll4Idle] from the count [i]: it stops at a count
    [r] up to the bound, after one read slot more than it counted. *)
Lemma poll4idle_loop_spec (fuel : nat) :
  forall (i : Z) (w : World L),
  0 <= i -> (1 <= fuel)%nat -> i + Z.of_nat fuel = wire1_idleloops w + 1 ->
  let r := fst (poll4idle_loop fuel i w) in
  let w' := snd (poll4idle_loop fuel i w) in
  i <= r <= wire1_idleloops w /\
  frame w w' /\
  trace w' = concat (repeat read_slot_ops (S (Z.to_nat (r - i)))) ++ trace w.
Proof.
  induction fuel as [|fuel IH]; intros i w Hi Hf Hn; [lia|].
  cbn [poll4idle_loop]. unfold bind, get_idleloops.
  destruct (readbit_slot_spec w) as (_ & Ht & Hfr).
  destruct (wire1ReadBit w) as [b w1]. cbn [fst snd] in *.
  destruct Hfr as (F1 & F2 & F3). rewrite F3.
  destruct (negb (truthy b) && (i <? wire1_idleloops w)) eqn:E.
  - apply andb_true_iff in E as (_ & E). apply Z.ltb_lt in E.
    destruct (IH (i + 1) w1 ltac:(lia) ltac:(lia) ltac:(rewrite F3; lia))
      as (I1 & (G1 & G2 & G3) & I3).
    rewrite F3 in I1. split; [lia|]. split.
    + repeat split; congruence.
    + rewrite I3, Ht.
      replace (Z.to_nat (fst (poll4idle_loop fuel (i + 1) w1) - i))
        with (S (Z.to_nat (fst (poll4idle_loop fuel (i + 1) w1) - (i + 1)))) by lia.
      apply concat_slots_cons.
  - cbn [ret fst snd]. split; [|split].
    + assert (i <= wire1_idleloops w) by lia. lia.
    + repeat split; assumption.
    + rewrite Z.sub_diag. cbn [Z.to_nat repeat concat]. rewrite Ht, app_nil_r.
      reflexivity.
Qed.

Lemma wire1Poll4Idle_spec (w : World L) :
  0 <= wire1_idleloops w ->
  exists i, 0 <= i <= wire1_idleloops w /\
    fst (wire1Poll4Idle w) = (if i =? wire1_idleloops w then 0 else i) /\
    wire1state (snd (wire1Poll4Idle w)) =
      (if i =? wire1_idleloops w then wire1state w else IDLE) /\
    trace (snd (wire1Poll4Idle w)) =
      concat (repeat read_slot_ops (S (Z.to_nat i))) ++ trace w /\
    mem (snd (wire1Poll4Idle w)) = mem w /\
    wire1_idleloops (snd (wire1Poll4Idle w)) = wire1_idleloops w.
Proof.
  intros Hn. unfold wire1Poll4Idle, bind, get_idleloops.
  destruct (poll4idle_loop_spec (S (Z.to_nat (wire1_idleloops w))) 0 w
              ltac:(lia) ltac:(lia) ltac:(lia)) as (I1 & (F1 & F2 & F3) & I3).
  destruct (poll4idle_loop (S (Z.to_nat (wire1_idleloops w))) 0 w) as [i w1].
  cbn [fst snd] in *. rewrite Z.sub_0_r in I3.
  exists i. split; [exact I1|].
  destruct (i =? wire1_idleloops w); cbn [ret set_state fst snd wire1state trace mem
                                            wire1_idleloops];
    repeat split; assumption.
Qed.

(** X9.  [wire1Poll4Idle] makes one read slot more than the count [i] at
    which its loop stops, and [i] is at most the bound set by
    [wire1SetupPoll4Idle].  Below the bound it returns [i] and sets the
    state IDLE; at the bound it returns 0 and leaves the state as it was.
    So 0 is returned for a timeout, and also when the very first read slot
    finds the bus idle. *)
Theorem wire1Poll4Idle_slots (w : World L) :
  0 <= wire1_idleloops w ->
  exists i, 0 <= i <= wire1_idleloops w /\
    fst (wire1Poll4Idle w) = (if i =? wire1_idleloops w then 0 else i) /\
    wire1state (snd (wire1Poll4Idle w)) =
      (if i =? wire1_idleloops w then wire1state w else IDLE) /\
    trace (snd (wire1Poll4Idle w)) =
      concat (repeat read_slot_ops (S (Z.to_nat i))) ++ trace w /\
    mem (snd (wire1Poll4Idle w)) = mem w /\
    wire1_idleloops (snd (wire1Poll4Idle w)) = wire1_idleloops w.
Proof. exact (wire1Poll4Idle_spec w). Qed.

Lemma line_only_get_state : line_only (get_state (L := L)).
Proof. intros w. apply frame_refl. Qed.

Lemma line_only_get_idleloops : line_only (get_idleloops (L := L)).
Proof. intros w. apply frame_refl. Qed.

Lemma line_only_get_mem : line_only (get_mem (L := L)).
Proof. intros w. apply frame_refl. Qed.

Lemma poll4idle_loop_line_only (fuel : nat) :
  forall i : Z, line_only (poll4idle_loop (L := L) fuel i).
Proof.
  induction fuel as [|fuel IH]; intros i; cbn [poll4idle_loop].
  - apply line_only_ret.
  - apply line_only_bind; [apply line_only_readbit|]. intros b.
    apply line_only_bind; [apply line_only_get_idleloops|]. intros n.
    destruct (negb (truthy b) && (i <? n)); [apply IH | apply line_only_ret].
Qed.

(** [wire1Poll4Idle] for any bound: it keeps the memory and the bound, and
    changes the state to IDLE or not at all. *)
Lemma poll4idle_state (w : World L) :
  mem (snd (wire1Poll4Idle w)) = mem w /\
  wire1_idleloops (snd (wire1Poll4Idle w)) = wire1_idleloops w /\
  (wire1state (snd (wire1Poll4Idle w)) = wire1state w \/
   wire1state (snd (wire1Poll4Idle w)) = IDLE).
Proof.
  unfold wire1Poll4Idle, bind, get_idleloops.
  pose proof (poll4idle_loop_line_only (S (Z.to_nat (wire1_idleloops w))) 0 w)
    as (F1 & F2 & F3).
  destruct (poll4idle_loop (S (Z.to_nat (wire1_idleloops w))) 0 w) as [i w1].
  cbn [snd] in *.
  destruct (i =? wire1_idleloops w);
    cbn [ret set_state snd mem wire1state wire1_idleloops]; auto.
Qed.

(** The reset, by its result. *)
Lemma reset_cases (w : World L) :
  mem (snd (wire1Reset w)) = mem w /\
  wire1_idleloops (snd (wire1Reset w)) = wire1_idleloops w /\
  ((fst (wire1Reset w) = 1 /\ wire1state (snd (wire1Reset w)) = ROM_COMMAND) \/
   ((fst (wire1Reset w) = 0 \/ fst (wire1Reset w) = -1 \/ fst (wire1Reset w) = -2) /\
    wire1state (snd (wire1Reset w)) = IDLE) \/
   (fst (wire1Reset w) = -1 /\ wire1state w = WAIT_POLL /\
    wire1state (snd (wire1Reset w)) = WAIT_POLL)).
Proof.
  destruct (wire1Reset w) as [r w'] eqn:H. cbn [fst snd].
  unfold wire1Reset in H.
  apply bind_inv in H as (st & w0 & Hst & H).
  unfold get_state in Hst. injection Hst as <- <-.
  apply bind_inv in H as (waiting & w1 & Hw & H).
  assert (W : mem w1 = mem w /\ wire1_idleloops w1 = wire1_idleloops w /\
              (waiting = true ->
               wire1state w = WAIT_POLL /\
               (wire1state w1 = WAIT_POLL \/ wire1state w1 = IDLE))).
  { destruct (wire1state_eqb (wire1state w) WAIT_POLL) eqn:E.
    - assert (Es : wire1state w = WAIT_POLL) by (destruct (wire1state w); try discriminate; reflexivity).
      apply bind_inv in Hw as (r0 & w0 & Hp & Hw).
      unfold ret in Hw. injection Hw as <- <-.
      pose proof (poll4idle_state w) as (P1 & P2 & P3). rewrite Hp in P1, P2, P3.
      cbn [snd] in *. split; [exact P1|]. split; [exact P2|].
      intros _. split; [exact Es|]. rewrite Es in P3. exact P3.
    - unfold ret in Hw. injection Hw as <- <-.
      split; [reflexivity|]. split; [reflexivity|]. discriminate. }
  destruct W as (W1 & W2 & W3).
  destruct waiting.
  - unfold ret in H. injection H as <- <-.
    split; [exact W1|]. split; [exact W2|].
    destruct (W3 eq_refl) as (Es & [E | E]); auto 10.
  - clear W3.
    apply bind_inv in H as ([] & w2 & H2 & H).
    pose proof (frame_of _ _ _ _ line_only_hold H2) as (A1 & _ & A3).
    apply bind_inv in H as (r3 & w3 & H3 & H).
    pose proof (frame_of _ _ _ _ (line_only_poll4release 122) H3) as (B1 & _ & B3).
    apply bind_inv in H as ([] & w4 & H4 & H).
    pose proof (frame_of _ _ _ _ line_only_release H4) as (C1 & _ & C3).
    apply bind_inv in H as (r5 & w5 & H5 & H).
    pose proof (frame_of _ _ _ _ (line_only_poll4hold 15) H5) as (D1 & _ & D3).
    assert (M5 : mem w5 = mem w) by congruence.
    assert (I5 : wire1_idleloops w5 = wire1_idleloops w) by congruence.
    destruct (negb (truthy r5)).
    { unfold bind, set_state, ret in H. injection H as <- <-.
      cbn [mem wire1_idleloops wire1state]. auto 10. }
    apply bind_inv in H as (r6 & w6 & H6 & H).
    pose proof (frame_of _ _ _ _ (line_only_poll4release 60) H6) as (E1 & _ & E3).
    assert (M6 : mem w6 = mem w) by congruence.
    assert (I6 : wire1_idleloops w6 = wire1_idleloops w) by congruence.
    destruct (negb (truthy r6)).
    { unfold bind, set_state, ret in H. injection H as <- <-.
      cbn [mem wire1_idleloops wire1state]. auto 10. }
    apply bind_inv in H as (r7 & w7 & H7 & H).
    pose proof (frame_of _ _ _ _ (line_only_poll4hold 58) H7) as (G1 & _ & G3).
    assert (M7 : mem w7 = mem w) by congruence.
    assert (I7 : wire1_idleloops w7 = wire1_idleloops w) by congruence.
    destruct (truthy r7);
      unfold bind, set_state, ret in H; injection H as <- <-;
      cbn [mem wire1_idleloops wire1state]; auto 10.
Qed.

(** X10.  The result of [wire1Reset] tells the state it leaves: 1 goes
    with ROM_COMMAND and nothing else does; 0, -1 and -2 go with IDLE,
    but for a -1 that leaves the state WAIT_POLL in which the call began.
    The reset changes neither the memory nor the bound of the poll. *)
Theorem wire1Reset_result (w : World L) :
  mem (snd (wire1Reset w)) = mem w /\
  wire1_idleloops (snd (wire1Reset w)) = wire1_idleloops w /\
  ((fst (wire1Reset w) = 1 /\ wire1state (snd (wire1Reset w)) = ROM_COMMAND) \/
   ((fst (wire1Reset w) = 0 \/ fst (wire1Reset w) = -1 \/ fst (wire1Reset w) = -2) /\
    wire1state (snd (wire1Reset w)) = IDLE) \/
   (fst (wire1Reset w) = -1 /\ wire1state w = WAIT_POLL /\
    wire1state (snd (wire1Reset w)) = WAIT_POLL)).
Proof. exact (reset_cases w). Qed.

End StateFacts.
(** ** What every call keeps *)

Section CallFacts.

Context {L : Type} {HL : Line L}.

Lemma tame_step_refl (out : Z -> Prop) (w : World L) : tame_step out w w.
Proof. repeat split; auto. Qed.

Lemma tame_step_trans (out : Z -> Prop) (w1 w2 w3 : World L) :
  tame_step out w1 w2 -> tame_step out w2 w3 -> tame_step out w1 w3.
Proof.
  intros (A1 & A2 & A3) (B1 & B2 & B3). split; [congruence|]. split; [auto|].
  intros q Hq. rewrite B3, A3 by assumption. reflexivity.
Qed.

Lemma tame_of_frame (out : Z -> Prop) (w w' : World L) :
  frame w w' -> tame_step out w w'.
Proof.
  intros (F1 & F2 & F3). split; [exact F3|]. split; [congruence|].
  intros q _. rewrite F1. reflexivity.
Qed.

Lemma tame_ret {A : Type} (out : Z -> Prop) (a : A) : tame out (ret (L := L) a).
Proof. intros w. apply tame_step_refl. Qed.

Lemma tame_bind {A B : Type} (out : Z -> Prop) (c : M L A) (k : A -> M L B) :
  tame out c -> (forall a, tame out (k a)) -> tame out (bind c k).
Proof.
  intros Hc Hk w. unfold bind. specialize (Hc w). destruct (c w) as [a w1].
  apply (tame_step_trans out w w1); [exact Hc | apply Hk].
Qed.

Lemma tame_line_only {A : Type} (out : Z -> Prop) (c : M L A) :
  line_only c -> tame out c.
Proof. intros H w. apply tame_of_frame. apply H. Qed.

Lemma tame_set_state (out : Z -> Prop) (s : wire1state_t) :
  s <> WAIT_POLL -> tame out (set_state (L := L) s).
Proof.
  intros Hs w. split; [reflexivity|]. split; [|reflexivity].
  cbn. intros E. contradiction.
Qed.

Lemma tame_set_mem (out : Z -> Prop) (p v : Z) :
  out p -> tame out (set_mem (L := L) p v).
Proof.
  intros Hp w. split; [reflexivity|]. split; [auto|].
  intros q Hq. cbn. apply store_neq. intros ->. contradiction.
Qed.

Lemma tame_or_mem (out : Z -> Prop) (p v : Z) :
  out p -> tame out (or_mem (L := L) p v).
Proof.
  intros Hp. unfold or_mem. apply tame_bind.
  - apply tame_line_only, line_only_get_mem.
  - intros m. apply tame_set_mem. exact Hp.
Qed.

Lemma tame_forM {A : Type} (out : Z -> Prop) (body : Z -> A -> M L A) (n : nat) :
  forall (i : Z) (a : A),
  (forall j x, i <= j < i + Z.of_nat n -> tame out (body j x)) ->
  tame out (forM_from n i body a).
Proof.
  induction n as [|n IH]; intros i a Hb; cbn [forM_from].
  - apply tame_ret.
  - apply tame_bind; [apply Hb; lia|]. intros x. apply IH.
    intros j y Hj. apply Hb. lia.
Qed.

Lemma tame_poll4idle (out : Z -> Prop) : tame out (wire1Poll4Idle (L := L)).
Proof.
  intros w. destruct (poll4idle_state w) as (P1 & P2 & P3).
  split; [exact P2|]. split.
  - intros E. destruct P3 as [P3 | P3]; congruence.
  - intros q _. rewrite P1. reflexivity.
Qed.

Lemma tame_reset (out : Z -> Prop) : tame out (wire1Reset (L := L)).
Proof.
  intros w. destruct (reset_cases w) as (R1 & R2 & R3).
  split; [exact R2|]. split.
  - intros E. destruct R3 as [(_ & R3) | [(_ & R3) | (_ & R3 & _)]];
      congruence.
  - intros q _. rewrite R1. reflexivity.
Qed.

Lemma tame_write_address (out : Z -> Prop) (addr : Z) :
  tame out (write_address (L := L) addr).
Proof.
  apply tame_line_only. unfold write_address, forM_upto. apply line_only_forM.
  intros j x. apply line_only_bind; [apply line_only_get_mem|].
  intros m. apply line_only_writebyte.
Qed.

Lemma tame_skip (out : Z -> Prop) : tame out (wire1SkipROM (L := L)).
Proof.
  unfold wire1SkipROM.
  apply tame_bind; [apply tame_reset|]. intros _.
  apply tame_bind; [apply tame_line_only, line_only_get_state|]. intros st.
  destruct (negb (wire1state_eqb st ROM_COMMAND)); [apply tame_ret|].
  apply tame_bind; [apply tame_line_only, line_only_writebyte|]. intros _.
  apply tame_bind; [apply tame_set_state; discriminate|]. intros _.
  apply tame_ret.
Qed.

Lemma tame_match (out : Z -> Prop) (addr : Z) : tame out (wire1MatchROM (L := L) addr).
Proof.
  unfold wire1MatchROM.
  apply tame_bind; [apply tame_reset|]. intros _.
  apply tame_bind; [apply tame_line_only, line_only_get_state|]. intros st.
  destruct (negb (wire1state_eqb st ROM_COMMAND)); [apply tame_ret|].
  apply tame_bind; [apply tame_line_only, line_only_writebyte|]. intros _.
  apply tame_bind; [apply tame_write_address|]. intros _.
  apply tame_bind; [apply tame_set_state; discriminate|]. intros _.
  apply tame_ret.
Qed.

Lemma tame_read_single (addr : Z) :
  tame (window addr) (wire1ReadSingleROM (L := L) addr).
Proof.
  unfold wire1ReadSingleROM.
  apply tame_bind; [apply tame_reset|]. intros _.
  apply tame_bind; [apply tame_line_only, line_only_get_state|]. intros st.
  destruct (negb (wire1state_eqb st ROM_COMMAND)); [apply tame_ret|].
  apply tame_bind; [apply tame_line_only, line_only_writebyte|]. intros _.
  apply tame_bind.
  { unfold forM_upto. apply tame_forM. intros j x Hj.
    apply tame_bind; [apply tame_line_only, line_only_readbyte|]. intros b.
    apply tame_set_mem. unfold window. lia. }
  intros _.
  apply tame_bind; [apply tame_line_only, line_only_get_mem|]. intros m.
  destruct (_ =? _);
    (apply tame_bind; [apply tame_set_state; discriminate|]; intros _; apply tame_ret).
Qed.

Lemma tame_power (out : Z -> Prop) : tame out (wire1ReadPowerSupply (L := L)).
Proof.
  unfold wire1ReadPowerSupply.
  apply tame_bind; [apply tame_line_only, line_only_get_state|]. intros st.
  destruct (negb (wire1state_eqb st FUNCTION_COMMAND)); [apply tame_ret|].
  apply tame_bind; [apply tame_line_only, line_only_writebyte|]. intros _.
  apply tame_bind; [apply tame_line_only, line_only_readbit|]. intros b.
  apply tame_bind; [apply tame_set_state; discriminate|]. intros _.
  apply tame_ret.
Qed.

(** *** The rounds of the search *)

(** The byte that round [n] writes to: [iByte] after lines 337 to 340. *)
Lemma next_byte_index (n : Z) :
  0 <= n < 64 ->
  (if n mod 8 =? 0 then u8 (u8 ((n + 7) / 8 - 1) + 1) else u8 ((n + 7) / 8 - 1)) = n / 8.
Proof.
  intros Hn. unfold u8. destruct (Z.eqb_spec (n mod 8) 0) as [E | E].
  - assert (H7 : (n + 7) / 8 = n / 8) by (Z.to_euclidean_division_equations; lia).
    rewrite H7. destruct (Z.eq_dec n 0) as [-> | Hz]; [reflexivity|].
    assert (1 <= n / 8 < 8) by (Z.to_euclidean_division_equations; lia).
    rewrite (Z.mod_small (n / 8 - 1)) by lia.
    rewrite Z.mod_small by lia. lia.
  - assert (H7 : (n + 7) / 8 = n / 8 + 1) by (Z.to_euclidean_division_equations; lia).
    rewrite H7.
    assert (0 <= n / 8 < 8) by (Z.to_euclidean_division_equations; lia).
    rewrite Z.mod_small by lia. lia.
Qed.

Lemma search_conflict_world (addrStart lastConfPos iBit ccp : Z) (w : World L) :
  snd (search_conflict addrStart lastConfPos iBit ccp w) = w.
Proof.
  unfold search_conflict.
  destruct (iBit =? lastConfPos); [reflexivity|].
  destruct (lastConfPos =? -1); reflexivity.
Qed.

(** A round of the search keeps the state and the bound of the poll and
    writes to the output buffer only; when it leaves the loop, it is with
    -128. *)
Lemma search_body_step (addrOut addrStart lastConfPos n ccp : Z) (w : World L) :
  0 <= n < 64 ->
  let r := fst (search_body addrOut addrStart lastConfPos n (u8 ((n + 7) / 8 - 1), ccp) w) in
  let w' := snd (search_body addrOut addrStart lastConfPos n (u8 ((n + 7) / 8 - 1), ccp) w) in
  wire1state w' = wire1state w /\
  tame_step (window addrOut) w w' /\
  match r with
  | inl v => v = -128
  | inr (iByte2, _) => iByte2 = u8 ((n + 1 + 7) / 8 - 1)
  end.
Proof.
  intros Hn.
  assert (Hnext : u8 ((n + 1 + 7) / 8 - 1) = n / 8).
  { unfold u8. replace ((n + 1 + 7) / 8 - 1) with (n / 8)
      by (Z.to_euclidean_division_equations; lia).
    apply Z.mod_small. Z.to_euclidean_division_equations; lia. }
  assert (Hwin : window addrOut (addrOut + n / 8)).
  { unfold window. assert (0 <= n / 8 < 8) by (Z.to_euclidean_division_equations; lia).
    lia. }
  destruct (search_body _ _ _ _ _ w) as [r w'] eqn:H. cbn [fst snd].
  unfold search_body in H.
  apply bind_inv in H as (iByte' & wc & Hnb & H).
  assert (Hc : iByte' = n / 8 /\ wire1state wc = wire1state w /\
               tame_step (window addrOut) w wc).
  { unfold search_next_byte in Hnb. pose proof (next_byte_index n Hn) as Hi.
    destruct (n mod 8 =? 0).
    - unfold bind, set_mem, ret in Hnb. injection Hnb as <- <-.
      split; [exact Hi|]. split; [reflexivity|].
      split; [reflexivity|]. split; [auto|].
      intros q Hq. cbn [mem]. apply store_neq. intros ->.
      apply Hq. rewrite Hi. exact Hwin.
    - unfold ret in Hnb. injection Hnb as <- <-.
      split; [exact Hi|]. split; [reflexivity | apply tame_step_refl]. }
  destruct Hc as (-> & S0 & T0).
  apply bind_inv in H as (a & w1 & H1 & H).
  pose proof (frame_of _ _ _ _ line_only_readbit H1) as F1.
  apply bind_inv in H as (na & w2 & H2 & H).
  pose proof (frame_of _ _ _ _ line_only_readbit H2) as F2.
  assert (S2 : wire1state w2 = wire1state w)
    by (destruct F1 as (_ & ? & _), F2 as (_ & ? & _); congruence).
  assert (T2 : tame_step (window addrOut) w w2).
  { apply (tame_step_trans _ w wc); [exact T0|].
    apply (tame_step_trans _ wc w1); apply tame_of_frame; assumption. }
  assert (Hor : forall (b : bool) (u : unit) (wa wb : World L),
            (if b then or_mem (addrOut + n / 8) (BV (n mod 8)) else ret tt) wa = (u, wb) ->
            wire1state wb = wire1state wa /\ tame_step (window addrOut) wa wb).
  { intros b u wa wb Ho. destruct b.
    - rewrite or_mem_run in Ho. injection Ho as <- <-.
      split; [reflexivity|]. split; [reflexivity|]. split; [auto|].
      intros q Hq. cbn [mem]. apply store_neq. intros ->. apply Hq. exact Hwin.
    - unfold ret in Ho. injection Ho as <- <-.
      split; [reflexivity | apply tame_step_refl]. }
  destruct (negb (truthy a) && negb (truthy na)).
  - apply bind_inv in H as ([writeBit ccp'] & w3 & H3 & H).
    pose proof (search_conflict_world addrStart lastConfPos n ccp w2) as E3.
    rewrite H3 in E3. cbn [snd] in E3. subst w3.
    apply bind_inv in H as (u & w4 & H4 & H).
    apply Hor in H4 as (S4 & T4).
    apply bind_inv in H as ([] & w5 & H5 & H).
    pose proof (frame_of _ _ _ _ (line_only_writebit writeBit) H5) as F5.
    unfold ret in H. injection H as <- <-.
    split; [destruct F5 as (_ & ? & _); congruence|].
    split; [|symmetry; exact Hnext].
    apply (tame_step_trans _ w w2); [exact T2|].
    apply (tame_step_trans _ w2 w4); [exact T4 | apply tame_of_frame; exact F5].
  - destruct (truthy a && truthy na).
    + unfold ret in H. injection H as <- <-.
      split; [exact S2|]. split; [exact T2 | reflexivity].
    + apply bind_inv in H as ([] & w3 & H3 & H).
      pose proof (frame_of _ _ _ _ (line_only_writebit a) H3) as F3.
      apply bind_inv in H as (u & w4 & H4 & H).
      apply Hor in H4 as (S4 & T4).
      unfold ret in H. injection H as <- <-.
      split; [destruct F3 as (_ & ? & _); congruence|].
      split; [|symmetry; exact Hnext].
      apply (tame_step_trans _ w w2); [exact T2|].
      apply (tame_step_trans _ w2 w3); [apply tame_of_frame; exact F3 | exact T4].
Qed.

Lemma search_loop_step (addrOut addrStart lastConfPos : Z) (n : nat) :
  forall (i ccp : Z) (w : World L),
  0 <= i -> i + Z.of_nat n <= 64 ->
  let r := fst (search_loop addrOut addrStart lastConfPos n i (u8 ((i + 7) / 8 - 1), ccp) w) in
  let w' := snd (search_loop addrOut addrStart lastConfPos n i (u8 ((i + 7) / 8 - 1), ccp) w) in
  wire1state w' = wire1state w /\
  tame_step (window addrOut) w w' /\
  match r with
  | inl v => v = -128
  | inr _ => True
  end.
Proof.
  induction n as [|n IH]; intros i ccp w Hi Hn; cbv zeta.
  - cbn. split; [reflexivity|]. split; [apply tame_step_refl | exact I].
  - rewrite search_loop_S. unfold bind.
    pose proof (search_body_step addrOut addrStart lastConfPos i ccp w ltac:(lia))
      as (B1 & B2 & B3).
    destruct (search_body addrOut addrStart lastConfPos i (u8 ((i + 7) / 8 - 1), ccp) w)
      as [[v | [iByte2 ccp2]] w1]; cbn [fst snd] in *.
    + cbn [ret fst snd]. auto.
    + subst iByte2.
      pose proof (IH (i + 1) ccp2 w1 ltac:(lia) ltac:(lia)) as (I1 & I2 & I3).
      cbv zeta in I1, I2, I3.
      split; [congruence|]. split; [|exact I3].
      apply (tame_step_trans _ w w1); assumption.
Qed.

(** A search, by its result. *)
Lemma search_cases (addrOut addrStart lastConfPos rom_command : Z) (w : World L) :
  let r := fst (wire1Search addrOut addrStart lastConfPos rom_command w) in
  let w' := snd (wire1Search addrOut addrStart lastConfPos rom_command w) in
  tame_step (window addrOut) w w' /\
  ((0 <= r <= 64 /\ wire1state w' = FUNCTION_COMMAND) \/
   (r = -1 /\ (wire1state w' = IDLE \/
               (wire1state w' = WAIT_POLL /\ wire1state w = WAIT_POLL))) \/
   (r = -128 /\ wire1state w' = ROM_COMMAND)).
Proof.
  destruct (wire1Search addrOut addrStart lastConfPos rom_command w) as [r w'] eqn:H.
  cbn [fst snd]. unfold wire1Search, search_bits in H.
  apply bind_inv in H as (rb & wb & Hb & H).
  apply bind_inv in Hb as (r0 & w0 & H0 & Hb).
  pose proof (reset_cases w) as (R1 & R2 & R3).
  pose proof (tame_reset (window addrOut) w) as T0.
  rewrite H0 in R1, R2, R3, T0. cbn [fst snd] in R1, R2, R3, T0.
  destruct (Z.eqb_spec r0 1) as [-> | Hr0]; cbn [negb] in Hb.
  - destruct R3 as [(_ & S0) | [([E | [E | E]] & _) | (E & _)]]; try discriminate E.
    apply bind_inv in Hb as ([] & w1 & H1 & Hb).
    pose proof (frame_of _ _ _ _ (line_only_writebyte rom_command) H1) as F1.
    assert (S1 : wire1state w1 = ROM_COMMAND) by (destruct F1 as (_ & ? & _); congruence).
    pose proof (search_loop_step addrOut addrStart lastConfPos 64 0 64 w1
                  ltac:(lia) ltac:(lia)) as (L1 & L2 & L3).
    change (u8 ((0 + 7) / 8 - 1)) with (u8 (-1)) in L1, L2, L3.
    assert (T2 : tame_step (window addrOut) w wb).
    { apply (tame_step_trans _ w w0); [exact T0|].
      apply (tame_step_trans _ w0 w1); [apply tame_of_frame; exact F1|].
      rewrite Hb in L2. exact L2. }
    rewrite Hb in L1, L3. cbn [fst snd] in L1, L3.
    destruct rb as [v | [iByte ccp]].
    + unfold ret in H. injection H as <- <-. subst v.
      split; [exact T2|]. right. right. split; [reflexivity | congruence].
    + pose proof (search_loop_inv addrOut addrStart lastConfPos 64 0 (u8 (-1)) 64
                    iByte ccp w1 wb ltac:(lia) ltac:(lia)
                    (out_inv_start addrOut (mem w1)) ltac:(lia) Hb) as (_ & Hccp & _).
      unfold search_finish, bind, get_mem in H.
      destruct (_ =? _); unfold set_state, ret in H; injection H as <- <-;
        (split; [destruct T2 as (A1 & A2 & A3); split; [exact A1|];
                 split; [cbn [wire1state]; discriminate | exact A3] |]);
        cbn [wire1state]; auto 10.
  - unfold ret in Hb. injection Hb as <- <-.
    unfold ret in H. injection H as <- <-.
    split; [exact T0|]. right. left. split; [reflexivity|].
    destruct R3 as [(E & _) | [(_ & S0) | (_ & S0 & S1)]]; [contradiction | auto | auto].
Qed.

Lemma tame_search (addrOut addrStart lastConfPos rom_command : Z) :
  tame (window addrOut) (wire1Search (L := L) addrOut addrStart lastConfPos rom_command).
Proof.
  intros w. exact (proj1 (search_cases addrOut addrStart lastConfPos rom_command w)).
Qed.

(** X11.  The result of a search tells the state it leaves.  A conflict
    position from 0 to 64 goes with FUNCTION_COMMAND.  -1 goes with IDLE,
    or with the state WAIT_POLL in which the call began.  -128, returned
    when both read slots of a round found the bus idle, leaves the state
    ROM_COMMAND.  There is no other result. *)
Theorem wire1Search_result (addrOut addrStart lastConfPos : Z) (w : World L) :
  (let r := fst (wire1SearchLargerROM addrOut addrStart lastConfPos w) in
   let w' := snd (wire1SearchLargerROM addrOut addrStart lastConfPos w) in
   (0 <= r <= 64 /\ wire1state w' = FUNCTION_COMMAND) \/
   (r = -1 /\ (wire1state w' = IDLE \/
               (wire1state w' = WAIT_POLL /\ wire1state w = WAIT_POLL))) \/
   (r = -128 /\ wire1state w' = ROM_COMMAND)) /\
  (let r := fst (wire1AlarmSearchLargerROM addrOut addrStart lastConfPos w) in
   let w' := snd (wire1AlarmSearchLargerROM addrOut addrStart lastConfPos w) in
   (0 <= r <= 64 /\ wire1state w' = FUNCTION_COMMAND) \/
   (r = -1 /\ (wire1state w' = IDLE \/
               (wire1state w' = WAIT_POLL /\ wire1state w = WAIT_POLL))) \/
   (r = -128 /\ wire1state w' = ROM_COMMAND)).
Proof.
  split.
  - exact (proj2 (search_cases addrOut addrStart lastConfPos W1_ROMCMD_SEARCH w)).
  - exact (proj2 (search_cases addrOut addrStart lastConfPos W1_ROMCMD_ALARM w)).
Qed.

(** The three ROM commands have one shape: the reset, the test of the
    state, and a body that runs only in the state ROM_COMMAND. *)
Lemma rom_shape (body : M L Z) (w : World L) :
  let c := _ <- wire1Reset ;; st <- get_state ;;
           if negb (wire1state_eqb st ROM_COMMAND) then ret (-1) else body in
  (wire1state (snd (wire1Reset w)) = ROM_COMMAND /\ c w = body (snd (wire1Reset w))) \/
  ((wire1state (snd (wire1Reset w)) = IDLE \/
    (wire1state (snd (wire1Reset w)) = WAIT_POLL /\ wire1state w = WAIT_POLL)) /\
   c w = (-1, snd (wire1Reset w))).
Proof.
  cbv zeta. unfold bind, get_state.
  pose proof (reset_cases w) as (_ & _ & R3).
  destruct (wire1Reset w) as [r0 w0]. cbn [fst snd] in *.
  destruct R3 as [(_ & S0) | [(_ & S0) | (_ & S1 & S0)]]; rewrite S0; cbn; auto.
Qed.

(** X12.  The result of a ROM command tells the state it leaves: 0 goes
    with FUNCTION_COMMAND; -1 with IDLE or with the state WAIT_POLL in
    which the call began; and the 1 of [wire1ReadSingleROM] with IDLE. *)
Theorem rom_command_result (addr : Z) (w : World L) :
  (let r := fst (wire1SkipROM w) in
   let w' := snd (wire1SkipROM w) in
   (r = 0 /\ wire1state w' = FUNCTION_COMMAND) \/
   (r = -1 /\ (wire1state w' = IDLE \/
               (wire1state w' = WAIT_POLL /\ wire1state w = WAIT_POLL)))) /\
  (let r := fst (wire1MatchROM addr w) in
   let w' := snd (wire1MatchROM addr w) in
   (r = 0 /\ wire1state w' = FUNCTION_COMMAND) \/
   (r = -1 /\ (wire1state w' = IDLE \/
               (wire1state w' = WAIT_POLL /\ wire1state w = WAIT_POLL)))) /\
  (let r := fst (wire1ReadSingleROM addr w) in
   let w' := snd (wire1ReadSingleROM addr w) in
   (r = 0 /\ wire1state w' = FUNCTION_COMMAND) \/
   (r = 1 /\ wire1state w' = IDLE) \/
   (r = -1 /\ (wire1state w' = IDLE \/
               (wire1state w' = WAIT_POLL /\ wire1state w = WAIT_POLL)))).
Proof.
  split; [|split]; cbv zeta.
  - unfold wire1SkipROM.
    destruct (rom_shape (wire1WriteByte W1_ROMCMD_SKIP ;; set_state FUNCTION_COMMAND ;; ret 0) w)
      as [(_ & ->) | (S0 & ->)]; [|right; auto].
    left. unfold bind. destruct (wire1WriteByte _ _) as [[] w1]. cbn. auto.
  - unfold wire1MatchROM.
    destruct (rom_shape (wire1WriteByte W1_ROMCMD_MATCH ;; write_address addr ;;
                         set_state FUNCTION_COMMAND ;; ret 0) w)
      as [(_ & ->) | (S0 & ->)]; [|right; auto].
    left. unfold bind. destruct (wire1WriteByte _ _) as [[] w1].
    destruct (write_address addr w1) as [[] w2]. cbn. auto.
  - unfold wire1ReadSingleROM.
    match goal with
    | |- context [bind wire1Reset (fun _ => bind get_state (fun st => if _ then _ else ?b))] =>
        destruct (rom_shape b w) as [(_ & ->) | (S0 & ->)]; [|right; right; auto]
    end.
    unfold bind. destruct (wire1WriteByte _ _) as [[] w1].
    destruct (forM_upto 8 _ tt w1) as [[] w2]. unfold get_mem.
    destruct (_ =? _); cbn; auto.
Qed.

End CallFacts.
(** ** Programs of calls *)

Section ProgramFacts.

Context {L : Type} {HL : Line L}.

Lemma lets_go_get_state : lets_go (get_state (L := L)).
Proof. apply lets_go_same. reflexivity. Qed.

Lemma lets_go_set_state (s : wire1state_t) : lets_go (set_state (L := L) s).
Proof. apply lets_go_same. reflexivity. Qed.

Lemma lets_go_get_idleloops : lets_go (get_idleloops (L := L)).
Proof. apply lets_go_same. reflexivity. Qed.

Lemma lets_go_set_idleloops (n : Z) : lets_go (set_idleloops (L := L) n).
Proof. apply lets_go_same. reflexivity. Qed.

Lemma lets_go_get_mem : lets_go (get_mem (L := L)).
Proof. apply lets_go_same. reflexivity. Qed.

Lemma lets_go_set_mem (p v : Z) : lets_go (set_mem (L := L) p v).
Proof. apply lets_go_same. reflexivity. Qed.

Lemma lets_go_or_mem (p v : Z) : lets_go (or_mem (L := L) p v).
Proof. apply lets_go_same. reflexivity. Qed.

Lemma lets_go_readbyte : lets_go (wire1ReadByte (L := L)).
Proof.
  unfold wire1ReadByte, forM_upto. apply lets_go_forM. intros j x.
  apply lets_go_bind; [apply lets_go_readbit | intros b; apply lets_go_ret].
Qed.

Lemma lets_go_writebyte (b : Z) : lets_go (wire1WriteByte (L := L) b).
Proof.
  unfold wire1WriteByte, forM_upto. apply lets_go_forM. intros j x.
  apply lets_go_writebit.
Qed.

Lemma lets_go_poll4idle_loop (fuel : nat) :
  forall i : Z, lets_go (poll4idle_loop (L := L) fuel i).
Proof.
  induction fuel as [|fuel IH]; intros i; cbn [poll4idle_loop].
  - apply lets_go_ret.
  - apply lets_go_bind; [apply lets_go_readbit|]. intros b.
    apply lets_go_bind; [apply lets_go_get_idleloops|]. intros n.
    destruct (negb (truthy b) && (i <? n)); [apply IH | apply lets_go_ret].
Qed.

Lemma lets_go_poll4idle : lets_go (wire1Poll4Idle (L := L)).
Proof.
  unfold wire1Poll4Idle.
  apply lets_go_bind; [apply lets_go_get_idleloops|]. intros n.
  apply lets_go_bind; [apply lets_go_poll4idle_loop|]. intros i.
  destruct (i =? n); [apply lets_go_ret|].
  apply lets_go_bind; [apply lets_go_set_state | intros _; apply lets_go_ret].
Qed.

Lemma lets_go_reset : lets_go (wire1Reset (L := L)).
Proof.
  unfold wire1Reset.
  apply lets_go_bind; [apply lets_go_get_state|]. intros st.
  apply lets_go_bind.
  { destruct (wire1state_eqb st WAIT_POLL); [|apply lets_go_ret].
    apply lets_go_bind; [apply lets_go_poll4idle | intros r; apply lets_go_ret]. }
  intros waiting. destruct waiting; [apply lets_go_ret|].
  apply lets_go_pulse.
  { intros w. destruct (lets_go_poll4release 122 w) as (ops & Ht & _).
    exists ops. exact Ht. }
  apply lets_go_bind; [apply lets_go_poll4hold|]. intros r1.
  destruct (negb (truthy r1)).
  { apply lets_go_bind; [apply lets_go_set_state | intros _; apply lets_go_ret]. }
  apply lets_go_bind; [apply lets_go_poll4release|]. intros r2.
  destruct (negb (truthy r2)).
  { apply lets_go_bind; [apply lets_go_set_state | intros _; apply lets_go_ret]. }
  apply lets_go_bind; [apply lets_go_poll4hold|]. intros r3.
  destruct (truthy r3);
    (apply lets_go_bind; [apply lets_go_set_state | intros _; apply lets_go_ret]).
Qed.

Lemma lets_go_search_body (addrOut addrStart lastConfPos iBit : Z) (st : Z * Z) :
  lets_go (search_body (L := L) addrOut addrStart lastConfPos iBit st).
Proof.
  destruct st as [iByte ccp]. unfold search_body.
  apply lets_go_bind.
  { unfold search_next_byte. destruct (iBit mod 8 =? 0); [|apply lets_go_ret].
    apply lets_go_bind; [apply lets_go_set_mem | intros _; apply lets_go_ret]. }
  intros iByte'.
  apply lets_go_bind; [apply lets_go_readbit|]. intros a.
  apply lets_go_bind; [apply lets_go_readbit|]. intros na.
  destruct (negb (truthy a) && negb (truthy na)).
  - apply lets_go_bind.
    { unfold search_conflict. destruct (iBit =? lastConfPos); [apply lets_go_ret|].
      destruct (lastConfPos =? -1); [apply lets_go_ret|].
      apply lets_go_bind; [apply lets_go_get_mem | intros m; apply lets_go_ret]. }
    intros [writeBit ccp'].
    apply lets_go_bind.
    { destruct (truthy writeBit); [apply lets_go_or_mem | apply lets_go_ret]. }
    intros _.
    apply lets_go_bind; [apply lets_go_writebit | intros _; apply lets_go_ret].
  - destruct (truthy a && truthy na); [apply lets_go_ret|].
    apply lets_go_bind; [apply lets_go_writebit|]. intros _.
    apply lets_go_bind; [|intros _; apply lets_go_ret].
    destruct (truthy a); [apply lets_go_or_mem | apply lets_go_ret].
Qed.

Lemma lets_go_search_loop (addrOut addrStart lastConfPos : Z) (n : nat) :
  forall (i : Z) (st : Z * Z),
  lets_go (search_loop (L := L) addrOut addrStart lastConfPos n i st).
Proof.
  induction n as [|n IH]; intros i st; cbn [search_loop].
  - apply lets_go_ret.
  - apply lets_go_bind; [apply lets_go_search_body|].
    intros [v | st']; [apply lets_go_ret | apply IH].
Qed.

Lemma lets_go_search (addrOut addrStart lastConfPos rom_command : Z) :
  lets_go (wire1Search (L := L) addrOut addrStart lastConfPos rom_command).
Proof.
  unfold wire1Search, search_bits.
  apply lets_go_bind.
  { apply lets_go_bind; [apply lets_go_reset|]. intros r.
    destruct (negb (r =? 1)); [apply lets_go_ret|].
    apply lets_go_bind; [apply lets_go_writebyte|]. intros _.
    apply lets_go_search_loop. }
  intros [v | [iByte ccp]]; [apply lets_go_ret|].
  unfold search_finish.
  apply lets_go_bind; [apply lets_go_get_mem|]. intros m.
  destruct (_ =? _);
    (apply lets_go_bind; [apply lets_go_set_state | intros _; apply lets_go_ret]).
Qed.

Lemma lets_go_rom (body : M L Z) :
  lets_go body ->
  lets_go (_ <- wire1Reset ;; st <- get_state ;;
           if negb (wire1state_eqb st ROM_COMMAND) then ret (-1) else body).
Proof.
  intros Hb.
  apply lets_go_bind; [apply lets_go_reset|]. intros _.
  apply lets_go_bind; [apply lets_go_get_state|]. intros st.
  destruct (negb (wire1state_eqb st ROM_COMMAND)); [apply lets_go_ret | exact Hb].
Qed.

Lemma lets_go_call (c : Call) :
  is_hold c = false ->
  forall w : World L, exists ops,
    trace (after c w) = ops ++ trace w /\
    (last_drive ops = None \/ last_drive ops = Some OpRelease).
Proof.
  intros Hc. destruct c; try discriminate Hc; cbn [after].
  - apply lets_go_get_state.
  - apply lets_go_release.
  - apply lets_go_poll4hold.
  - apply lets_go_poll4release.
  - apply lets_go_poll4idle.
  - unfold wire1SetupPoll4Idle.
    apply lets_go_bind; [apply lets_go_set_state | intros _; apply lets_go_set_idleloops].
  - apply lets_go_reset.
  - apply lets_go_readbit.
  - apply lets_go_writebit.
  - apply lets_go_readbyte.
  - apply lets_go_writebyte.
  - apply lets_go_search.
  - apply lets_go_search.
  - unfold wire1ReadSingleROM. apply lets_go_rom.
    apply lets_go_bind; [apply lets_go_writebyte|]. intros _.
    apply lets_go_bind.
    { unfold forM_upto. apply lets_go_forM. intros j x.
      apply lets_go_bind; [apply lets_go_readbyte | intros b; apply lets_go_set_mem]. }
    intros _.
    apply lets_go_bind; [apply lets_go_get_mem|]. intros m.
    destruct (_ =? _);
      (apply lets_go_bind; [apply lets_go_set_state | intros _; apply lets_go_ret]).
  - unfold wire1MatchROM. apply lets_go_rom.
    apply lets_go_bind; [apply lets_go_writebyte|]. intros _.
    apply lets_go_bind.
    { unfold write_address, forM_upto. apply lets_go_forM. intros j x.
      apply lets_go_bind; [apply lets_go_get_mem | intros m; apply lets_go_writebyte]. }
    intros _.
    apply lets_go_bind; [apply lets_go_set_state | intros _; apply lets_go_ret].
  - unfold wire1SkipROM. apply lets_go_rom.
    apply lets_go_bind; [apply lets_go_writebyte|]. intros _.
    apply lets_go_bind; [apply lets_go_set_state | intros _; apply lets_go_ret].
  - unfold wire1ReadPowerSupply.
    apply lets_go_bind; [apply lets_go_get_state|]. intros st.
    destruct (negb (wire1state_eqb st FUNCTION_COMMAND)); [apply lets_go_ret|].
    apply lets_go_bind; [apply lets_go_writebyte|]. intros _.
    apply lets_go_bind; [apply lets_go_readbit|]. intros b.
    apply lets_go_bind; [apply lets_go_set_state | intros _; apply lets_go_ret].
Qed.

(** X13.  No call but [wire1Hold] itself leaves the pin driven low: in a
    program of calls without [wire1Hold], started when the pin is not
    driven, the last thing done to the pin, looks apart, is never a
    hold once a call has returned. *)
Theorem pin_let_go (cs : list Call) (w : World L) :
  forallb (fun c => negb (is_hold c)) cs = true ->
  last_drive (trace w) <> Some OpHold ->
  last_drive (trace (after_all cs w)) <> Some OpHold.
Proof.
  revert w. induction cs as [|c cs IH]; intros w Hcs Hw; [exact Hw|].
  cbn [forallb] in Hcs. apply andb_true_iff in Hcs as (Hc & Hcs).
  cbn [after_all]. apply IH; [exact Hcs|].
  destruct (lets_go_call c ltac:(destruct (is_hold c); [discriminate | reflexivity]) w)
    as (ops & Ht & D).
  rewrite Ht, last_drive_app. destruct D as [-> | ->]; [exact Hw | discriminate].
Qed.

Lemma tame_call (c : Call) :
  is_setup c = false ->
  forall w : World L, tame_step (output_buffer c) w (after c w).
Proof.
  intros Hc. destruct c; try discriminate Hc; cbn [after output_buffer].
  - apply tame_line_only, line_only_get_state.
  - apply tame_line_only, line_only_hold.
  - apply tame_line_only, line_only_release.
  - apply tame_line_only, line_only_poll4hold.
  - apply tame_line_only, line_only_poll4release.
  - apply tame_poll4idle.
  - apply tame_reset.
  - apply tame_line_only, line_only_readbit.
  - apply tame_line_only, line_only_writebit.
  - apply tame_line_only, line_only_readbyte.
  - apply tame_line_only, line_only_writebyte.
  - apply tame_search.
  - apply tame_search.
  - apply tame_read_single.
  - apply tame_match.
  - apply tame_skip.
  - apply tame_power.
Qed.

(** X14.  Memory is written by the searches and by [wire1ReadSingleROM]
    only, and by them in the eight bytes of their output buffer only:
    every byte outside is after a call what it was before. *)
Theorem memory_outside_output_buffer (c : Call) (w : World L) (q : Z) :
  ~ output_buffer c q -> mem (after c w) q = mem w q.
Proof.
  intros Hq. destruct (is_setup c) eqn:E.
  - destruct c; try discriminate E. reflexivity.
  - destruct (tame_call c E w) as (_ & _ & H). apply H. exact Hq.
Qed.

(** X15.  The state WAIT_POLL is entered by [wire1SetupPoll4Idle] and by
    no other call, and no other call changes the bound of the poll. *)
Theorem wait_poll_by_setup_only (c : Call) (w : World L) :
  is_setup c = false ->
  wire1_idleloops (after c w) = wire1_idleloops w /\
  (wire1state (after c w) = WAIT_POLL -> wire1state w = WAIT_POLL).
Proof.
  intros Hc. destruct (tame_call c Hc w) as (H1 & H2 & _). split; assumption.
Qed.

Lemma power_out_of_phase (w : World L) :
  wire1state w <> FUNCTION_COMMAND -> wire1ReadPowerSupply w = (-2, w).
Proof.
  intros H. unfold wire1ReadPowerSupply, bind, get_state.
  destruct (wire1state w); try contradiction; reflexivity.
Qed.

Lemma reset_stuck (w : World L) :
  wire1state w = WAIT_POLL -> wire1_idleloops w = 0 ->
  fst (wire1Reset w) = -1 /\
  wire1state (snd (wire1Reset w)) = WAIT_POLL /\
  wire1_idleloops (snd (wire1Reset w)) = 0.
Proof.
  intros Hs Hn.
  destruct (wire1Poll4Idle_spec w ltac:(lia)) as (i & Hi & Hr & Hst & _ & _ & Hl).
  assert (i = 0) by lia. subst i. rewrite Hn in Hr, Hst.
  change (0 =? 0) with true in Hr, Hst. cbv iota in Hr, Hst.
  unfold wire1Reset, bind, get_state. rewrite Hs. cbn [wire1state_eqb].
  destruct (wire1Poll4Idle w) as [r0 w0] eqn:E. cbn [fst snd] in Hr, Hst, Hl.
  subst r0. cbn. repeat split; congruence.
Qed.

Lemma rom_stuck (body : M L Z) (w : World L) :
  wire1state w = WAIT_POLL -> wire1_idleloops w = 0 ->
  (_ <- wire1Reset ;; st <- get_state ;;
   if negb (wire1state_eqb st ROM_COMMAND) then ret (-1) else body) w =
  (-1, snd (wire1Reset w)).
Proof.
  intros Hs Hn. destruct (reset_stuck w Hs Hn) as (_ & S1 & _).
  destruct (rom_shape body w) as [(S0 & _) | (_ & E)]; [congruence | exact E].
Qed.

Lemma search_stuck (addrOut addrStart lastConfPos rom_command : Z) (w : World L) :
  wire1state w = WAIT_POLL -> wire1_idleloops w = 0 ->
  wire1Search addrOut addrStart lastConfPos rom_command w = (-1, snd (wire1Reset w)).
Proof.
  intros Hs Hn. destruct (reset_stuck w Hs Hn) as (R1 & _).
  unfold wire1Search, search_bits, bind.
  destruct (wire1Reset w) as [r0 w0]. cbn [fst snd] in *. subst r0. reflexivity.
Qed.

Lemma stuck_call (c : Call) (w : World L) :
  is_setup c = false ->
  wire1state w = WAIT_POLL -> wire1_idleloops w = 0 ->
  wire1state (after c w) = WAIT_POLL /\ wire1_idleloops (after c w) = 0.
Proof.
  intros Hc Hs Hn.
  assert (Hf : forall (A : Type) (m : M L A),
            line_only m ->
            wire1state (snd (m w)) = WAIT_POLL /\ wire1_idleloops (snd (m w)) = 0).
  { intros A m Hm. destruct (Hm w) as (_ & F2 & F3). split; congruence. }
  pose proof (reset_stuck w Hs Hn) as (_ & R2 & R3).
  destruct c; try discriminate Hc; cbn [after].
  - apply Hf, line_only_get_state.
  - apply Hf, line_only_hold.
  - apply Hf, line_only_release.
  - apply Hf, line_only_poll4hold.
  - apply Hf, line_only_poll4release.
  - destruct (wire1Poll4Idle_spec w ltac:(lia)) as (i & Hi & _ & Hst & _ & _ & Hl).
    assert (i = 0) by lia. subst i. rewrite Hn in Hst.
    change (0 =? 0) with true in Hst. cbv iota in Hst.
    split; congruence.
  - split; assumption.
  - apply Hf, line_only_readbit.
  - apply Hf, line_only_writebit.
  - apply Hf, line_only_readbyte.
  - apply Hf, line_only_writebyte.
  - unfold wire1SearchLargerROM. rewrite search_stuck by assumption. split; assumption.
  - unfold wire1AlarmSearchLargerROM. rewrite search_stuck by assumption.
    split; assumption.
  - unfold wire1ReadSingleROM. rewrite rom_stuck by assumption. split; assumption.
  - unfold wire1MatchROM. rewrite rom_stuck by assumption. split; assumption.
  - unfold wire1SkipROM. rewrite rom_stuck by assumption. split; assumption.
  - rewrite power_out_of_phase by (rewrite Hs; discriminate). split; assumption.
Qed.

(** X16.  A poll set up with the bound 0 never ends.  After
    [wire1SetupPoll4Idle(0)], whatever the line does and whatever is
    called next other than [wire1SetupPoll4Idle], the state stays
    WAIT_POLL: every reset, ROM command and search returns -1, and
    [wire1ReadPowerSupply] returns -2. *)
Theorem setup_zero_sticks (cs : list Call) (w : World L) :
  forallb (fun c => negb (is_setup c)) cs = true ->
  let w1 := after_all cs (snd (wire1SetupPoll4Idle 0 w)) in
  wire1state w1 = WAIT_POLL /\
  fst (wire1Reset w1) = -1 /\
  fst (wire1SkipROM w1) = -1 /\
  (forall addr, fst (wire1MatchROM addr w1) = -1 /\
                fst (wire1ReadSingleROM addr w1) = -1) /\
  (forall addrOut addrStart lastConfPos,
     fst (wire1SearchLargerROM addrOut addrStart lastConfPos w1) = -1 /\
     fst (wire1AlarmSearchLargerROM addrOut addrStart lastConfPos w1) = -1) /\
  fst (wire1ReadPowerSupply w1) = -2.
Proof.
  intros Hcs w1.
  assert (H : wire1state w1 = WAIT_POLL /\ wire1_idleloops w1 = 0).
  { subst w1.
    assert (H0 : wire1state (snd (wire1SetupPoll4Idle 0 w)) = WAIT_POLL /\
                 wire1_idleloops (snd (wire1SetupPoll4Idle 0 w)) = 0)
      by (split; reflexivity).
    revert H0 Hcs. generalize (snd (wire1SetupPoll4Idle 0 w)).
    induction cs as [|c cs IH]; intros w0 H0 Hcs; [exact H0|].
    cbn [forallb] in Hcs. apply andb_true_iff in Hcs as (Hc & Hcs).
    cbn [after_all]. apply IH; [|exact Hcs].
    apply stuck_call; [destruct (is_setup c); [discriminate | reflexivity] | |];
      apply H0. }
  destruct H as (Hs & Hn).
  split; [exact Hs|].
  split; [exact (proj1 (reset_stuck w1 Hs Hn))|].
  split; [unfold wire1SkipROM; rewrite rom_stuck by assumption; reflexivity|].
  split; [intros addr; unfold wire1MatchROM, wire1ReadSingleROM;
          rewrite !rom_stuck by assumption; split; reflexivity|].
  split; [intros o s l; unfold wire1SearchLargerROM, wire1AlarmSearchLargerROM;
          rewrite !search_stuck by assumption; split; reflexivity|].
  rewrite power_out_of_phase by (rewrite Hs; discriminate). reflexivity.
Qed.

(** X17.  [wire1ReadPowerSupply] in the state FUNCTION_COMMAND: it writes
    the command 0xB4 and makes one read slot; it returns 1 when a look of
    that slot found the pin low and 0 when none did, leaves the state
    IDLE, and keeps the memory. *)
Theorem wire1ReadPowerSupply_in_phase (w : World L) :
  wire1state w = FUNCTION_COMMAND ->
  let w1 := snd (wire1WriteByte W1_FUNC_PARASITE_POWER w) in
  fst (wire1ReadPowerSupply w) =
    match first_level false 24 (pin_release (pin_hold (line w1))) with
    | Some _ => 1
    | None => 0
    end /\
  wire1state (snd (wire1ReadPowerSupply w)) = IDLE /\
  trace (snd (wire1ReadPowerSupply w)) = read_slot_ops ++ trace w1 /\
  mem (snd (wire1ReadPowerSupply w)) = mem w.
Proof.
  intros Hs w1. subst w1.
  unfold wire1ReadPowerSupply, bind, get_state. rewrite Hs. cbn [wire1state_eqb negb].
  pose proof (line_only_writebyte W1_FUNC_PARASITE_POWER w) as (F1 & _ & _).
  destruct (wire1WriteByte W1_FUNC_PARASITE_POWER w) as [[] w1]. cbn [snd] in *.
  destruct (readbit_slot_spec w1) as (Hr & Ht & (G1 & _ & _)).
  destruct (wire1ReadBit w1) as [b w2]. cbn [fst snd set_state ret wire1state trace mem] in *.
  split; [|split; [reflexivity|split; [exact Ht | congruence]]].
  rewrite Hr. destruct (first_level false 24 _); reflexivity.
Qed.

Lemma writebit_truth (x y : Z) (w : World L) :
  truthy x = truthy y -> wire1WriteBit x w = wire1WriteBit y w.
Proof. intros H. unfold wire1WriteBit. rewrite H. reflexivity. Qed.

Lemma truthy_bit (b i : Z) :
  0 <= i < 8 -> truthy (u8 (Z.land b (BV i))) = Z.testbit b i.
Proof.
  intros Hi. rewrite <- (truthy_land_BV b i) by lia.
  assert (Hl : Z.land b (BV i) = if Z.testbit b i then BV i else 0).
  { apply Z.bits_inj'. intros k Hk. rewrite Z.land_spec, testbit_BV by lia.
    destruct (Z.eqb_spec i k) as [-> | Hne].
    - destruct (Z.testbit b k); [rewrite testbit_BV by lia; rewrite Z.eqb_refl|
                                 rewrite Z.bits_0]; reflexivity.
    - rewrite andb_false_r. destruct (Z.testbit b i);
        [rewrite testbit_BV by lia; symmetry; apply Z.eqb_neq; exact Hne |
         rewrite Z.bits_0; reflexivity]. }
  rewrite Hl. destruct (Z.testbit b i); [|reflexivity].
  assert (Hc : i = 0 \/ i = 1 \/ i = 2 \/ i = 3 \/ i = 4 \/ i = 5 \/ i = 6 \/ i = 7)
    by lia.
  destruct Hc as [-> | [-> | [-> | [-> | [-> | [-> | [-> | ->]]]]]]]; reflexivity.
Qed.

(** X19.  [wire1WriteByte] is eight write slots, one for each of the low
    eight bits of its argument, the lowest first. *)
Theorem wire1WriteByte_lsb_first (writeByte : Z) (w : World L) :
  wire1WriteByte writeByte w = write_slots (bits_of_byte writeByte) w.
Proof.
  unfold wire1WriteByte, forM_upto, bits_of_byte.
  cbn [forM_from map write_slots Z.add Pos.add Pos.succ]. unfold bind, ret.
  do 8 (match goal with
        | |- context [wire1WriteBit (u8 (Z.land writeByte (BV ?i))) ?w0] =>
            rewrite (writebit_truth (u8 (Z.land writeByte (BV i)))
                                    (if Z.testbit writeByte i then 1 else 0) w0)
              by (rewrite truthy_bit by lia; destruct (Z.testbit writeByte i); reflexivity);
            destruct (wire1WriteBit (if Z.testbit writeByte i then 1 else 0) w0) as [[] ?]
        end; cbv beta iota).
  reflexivity.
Qed.

End ProgramFacts.
(** ** The address that a call leaves in its buffer *)

Section FoundFacts.

Context {L : Type} {HL : Line L}.

Lemma byte_of_bits_range (q : list bool) :
  length q = 8%nat -> is_byte (byte_of_bits q).
Proof.
  intros H.
  do 9 (destruct q as [|? q]; try discriminate H).
  repeat match goal with b : bool |- _ => destruct b end;
    vm_compute; (split; [discriminate | reflexivity]).
Qed.

Lemma read_slots_length (n : nat) :
  forall w : World L, length (fst (read_slots n w)) = n.
Proof.
  induction n as [|n IH]; intros w; [reflexivity|].
  cbn [read_slots]. unfold bind. destruct (wire1ReadBit w) as [b w1].
  specialize (IH w1). destruct (read_slots n w1) as [rest w2].
  cbn [ret fst length] in *. congruence.
Qed.

Lemma readbyte_slots (w : World L) :
  wire1ReadByte w = (byte_of_bits (fst (read_slots 8 w)), snd (read_slots 8 w)).
Proof.
  unfold wire1ReadByte, forM_upto. cbn [forM_from read_slots]. unfold bind, ret.
  do 8 (match goal with
        | |- context [wire1ReadBit ?w0] => destruct (wire1ReadBit w0) as [? ?]
        end; cbv beta iota).
  cbn [fst snd].
  repeat match goal with
         | |- context [truthy ?b] => destruct (truthy b)
         end; reflexivity.
Qed.

Lemma readbyte_range (w : World L) : is_byte (fst (wire1ReadByte w)).
Proof.
  rewrite readbyte_slots. cbn [fst]. apply byte_of_bits_range, read_slots_length.
Qed.

(** The loop of [wire1ReadSingleROM] from byte [i]: the bytes it stores
    are bytes. *)
Lemma read_address_bytes (addr : Z) (n : nat) :
  forall (i : Z) (w w' : World L) (u : unit),
  forM_from n i (fun i _ => b <- wire1ReadByte ;; set_mem (addr + i) b) tt w = (u, w') ->
  (forall j, i <= j < i + Z.of_nat n -> is_byte (mem w' (addr + j))) /\
  (forall q, q < addr + i \/ addr + i + Z.of_nat n <= q -> mem w' q = mem w q).
Proof.
  induction n as [|n IH]; intros i w w' u H.
  - cbn in H. injection H as <- <-. split; [lia | reflexivity].
  - cbn [forM_from] in H.
    apply bind_inv in H as (x & w2 & Hbody & H).
    apply bind_inv in Hbody as (b & w1 & Hrb & Hset).
    pose proof (readbyte_range w) as Hb. rewrite Hrb in Hb. cbn [fst] in Hb.
    pose proof (frame_of _ _ _ _ line_only_readbyte Hrb) as (F1 & _ & _).
    unfold set_mem in Hset. injection Hset as <- <-.
    apply IH in H as (I1 & I2). cbn [mem] in I2. split.
    + intros j Hj. destruct (Z.eq_dec j i) as [-> | Hne].
      * rewrite I2 by lia. rewrite store_eq. exact Hb.
      * apply I1. lia.
    + intros q Hq. rewrite I2 by lia. rewrite store_neq by lia.
      rewrite F1. reflexivity.
Qed.

Lemma load_bytes (m : Z -> Z) (p : Z) :
  (forall j, 0 <= j < 8 -> is_byte (m (p + j))) ->
  length (load m p 8) = 8%nat /\ Forall is_byte (load m p 8).
Proof.
  intros H. split; [reflexivity|].
  unfold load. cbn [seq map Z.of_nat Pos.of_succ_nat Pos.succ].
  repeat constructor; apply H; lia.
Qed.

(** X20.  What a successful call leaves in its buffer is an address with
    a right checksum: after a search that returned a conflict position,
    and after a [wire1ReadSingleROM] that returned 0, the eight bytes of
    the buffer are bytes and the last is the checksum of the first
    seven. *)
Theorem found_address_valid (addrOut addrStart lastConfPos : Z) (w : World L) :
  (0 <= fst (wire1SearchLargerROM addrOut addrStart lastConfPos w) ->
   valid_address
     (load (mem (snd (wire1SearchLargerROM addrOut addrStart lastConfPos w))) addrOut 8)) /\
  (0 <= fst (wire1AlarmSearchLargerROM addrOut addrStart lastConfPos w) ->
   valid_address
     (load (mem (snd (wire1AlarmSearchLargerROM addrOut addrStart lastConfPos w))) addrOut 8)) /\
  (fst (wire1ReadSingleROM addrOut w) = 0 ->
   valid_address (load (mem (snd (wire1ReadSingleROM addrOut w))) addrOut 8)).
Proof.
  assert (Hsearch : forall cmd,
    0 <= fst (wire1Search addrOut addrStart lastConfPos cmd w) ->
    valid_address (load (mem (snd (wire1Search addrOut addrStart lastConfPos cmd w))) addrOut 8)).
  { intros cmd. destruct (wire1Search addrOut addrStart lastConfPos cmd w) as [r w'] eqn:H.
    cbn [fst snd]. intros Hr. unfold wire1Search in H.
    apply bind_inv in H as (rb & wb & Hb & H).
    destruct rb as [v | [iByte ccp]].
    - unfold ret in H. injection H as <- <-.
      unfold search_bits in Hb. apply bind_inv in Hb as (r0 & w0 & H0 & Hb).
      destruct (negb (r0 =? 1)).
      + unfold ret in Hb. injection Hb as <- <-. lia.
      + apply bind_inv in Hb as ([] & w1 & H1 & Hb).
        pose proof (search_loop_step addrOut addrStart lastConfPos 64 0 64 w1
                      ltac:(lia) ltac:(lia)) as (_ & _ & L3).
        change (u8 ((0 + 7) / 8 - 1)) with (u8 (-1)) in L3.
        rewrite Hb in L3. cbn [fst] in L3. lia.
    - unfold search_bits in Hb. apply bind_inv in Hb as (r0 & w0 & H0 & Hb).
      destruct (negb (r0 =? 1)); [unfold ret in Hb; discriminate Hb|].
      apply bind_inv in Hb as ([] & w1 & H1 & Hb).
      pose proof (search_loop_inv addrOut addrStart lastConfPos 64 0 (u8 (-1)) 64
                    iByte ccp w1 wb ltac:(lia) ltac:(lia)
                    (out_inv_start addrOut (mem w1)) ltac:(lia) Hb)
        as ((_ & _ & Hbytes) & _).
      unfold search_finish, bind, get_mem in H.
      destruct (_ =? _) eqn:E; unfold set_state, ret in H; injection H as <- <-;
        [|lia].
      cbn [mem]. apply Z.eqb_eq in E.
      destruct (load_bytes (mem wb) addrOut) as (B1 & B2).
      { intros j Hj. apply Hbytes. change ((0 + Z.of_nat 64 + 7) / 8) with 8. lia. }
      split; [exact B1|]. split; [exact B2|].
      rewrite load_idx by (unfold W1_ADDR_BYTE_CRC; lia). exact E. }
  split; [apply Hsearch|]. split; [apply Hsearch|].
  destruct (wire1ReadSingleROM addrOut w) as [r w'] eqn:H. cbn [fst snd].
  intros ->. unfold wire1ReadSingleROM in H.
  apply bind_inv in H as (r0 & w0 & H0 & H).
  apply bind_inv in H as (st & w0' & Hst & H).
  unfold get_state in Hst. injection Hst as <- <-.
  destruct (negb (wire1state_eqb (wire1state w0) ROM_COMMAND));
    [unfold ret in H; discriminate H|].
  apply bind_inv in H as ([] & w1 & H1 & H).
  apply bind_inv in H as ([] & w2 & H2 & H).
  unfold forM_upto in H2.
  pose proof (read_address_bytes addrOut 8 0 w1 w2 tt H2) as (B & _).
  unfold bind, get_mem in H.
  destruct (_ =? _) eqn:E; unfold set_state, ret in H; [|discriminate H].
  injection H as <-. cbn [mem]. apply Z.eqb_eq in E.
  destruct (load_bytes (mem w2) addrOut) as (B1 & B2).
  { intros j Hj. apply B. lia. }
  split; [exact B1|]. split; [exact B2|].
  rewrite load_idx by (unfold W1_ADDR_BYTE_CRC; lia). exact E.
Qed.

(** X18.  [wire1ReadByte] is eight read slots, and the byte it returns
    has the bit that the first slot found as its lowest. *)
Theorem wire1ReadByte_lsb_first (w : World L) :
  wire1ReadByte w = (byte_of_bits (fst (read_slots 8 w)), snd (read_slots 8 w)).
Proof. exact (readbyte_slots w). Qed.

End FoundFacts.
(** ** The ROM commands on a bus with devices *)

Lemma dev_match_bit (ds R : list (list Z)) (i bit : Z) :
  0 <= i < 64 ->
  slave_write bit (mkDevices ds R (PhMatch i)) =
  mkDevices ds (keep i (truthy bit) R) (match_phase (i + 1)).
Proof.
  intros Hi. unfold match_phase.
  assert (Hp : (if i =? 63 then PhFunction else PhMatch (i + 1)) =
               (if i + 1 <? 64 then PhMatch (i + 1) else PhFunction)).
  { destruct (Z.eqb_spec i 63) as [-> | E]; [reflexivity|].
    destruct (Z.ltb_spec (i + 1) 64); [reflexivity | lia]. }
  rewrite <- Hp. unfold slave_write. destruct (truthy bit); reflexivity.
Qed.

Lemma dev_read_rom_bit (ds R : list (list Z)) (i : Z) :
  0 <= i < 64 ->
  slave_one (mkDevices ds R (PhRead i)) =
  (all_ones i R, mkDevices ds R (read_phase (i + 1))).
Proof.
  intros Hi. unfold read_phase.
  assert (Hp : (if i =? 63 then PhFunction else PhRead (i + 1)) =
               (if i + 1 <? 64 then PhRead (i + 1) else PhFunction)).
  { destruct (Z.eqb_spec i 63) as [-> | E]; [reflexivity|].
    destruct (Z.ltb_spec (i + 1) 64); [reflexivity | lia]. }
  rewrite <- Hp. reflexivity.
Qed.

(** The write slots of a byte from bit [t] on, heard by devices that
    match an address: the devices that stay are the ones with the bits of
    the byte. *)
Lemma match_bits (ds : list (list Z)) (b base : Z) (n : nat) :
  forall (t : Z) (R : list (list Z)),
  0 <= t -> t + Z.of_nat n <= 8 -> 0 <= base -> base + 8 <= 64 ->
  exists R',
    for_from n t (fun i s => slave_write (u8 (Z.land b (BV i))) s)
             (mkDevices ds R (match_phase (base + t))) =
    mkDevices ds R' (match_phase (base + t + Z.of_nat n)) /\
    forall d, In d R' <->
      In d R /\ forall k, t <= k < t + Z.of_nat n -> rom_bit d (base + k) = Z.testbit b k.
Proof.
  induction n as [|n IH]; intros t R Ht Hn Hb0 Hb8.
  - exists R. cbn [for_from]. rewrite Z.add_0_r. split; [reflexivity|].
    intros d. split; [intros H; split; [exact H | intros k Hk; lia] | tauto].
  - cbn [for_from].
    assert (Hph : match_phase (base + t) = PhMatch (base + t)).
    { unfold match_phase. destruct (Z.ltb_spec (base + t) 64); [reflexivity | lia]. }
    rewrite Hph, dev_match_bit by lia. rewrite truthy_bit by lia.
    replace (base + t + 1) with (base + (t + 1)) by lia.
    destruct (IH (t + 1) (keep (base + t) (Z.testbit b t) R)
                ltac:(lia) ltac:(lia) Hb0 Hb8) as (R' & HR & Hin).
    exists R'. split.
    + rewrite HR. f_equal. f_equal. lia.
    + intros d. rewrite Hin, keep_In. split.
      * intros ((Hd & Ht0) & Hk). split; [exact Hd|].
        intros k Hk'. destruct (Z.eq_dec k t) as [-> | Hne]; [exact Ht0 | apply Hk; lia].
      * intros (Hd & Hk). split; [split; [exact Hd | apply Hk; lia]|].
        intros k Hk'. apply Hk. lia.
Qed.

Lemma match_byte (ds R : list (list Z)) (b i : Z) :
  0 <= i < 8 ->
  exists R',
    slave_write_byte b (mkDevices ds R (match_phase (8 * i))) =
    mkDevices ds R' (match_phase (8 * (i + 1))) /\
    forall d, In d R' <->
      In d R /\ forall k, 0 <= k < 8 -> rom_bit d (8 * i + k) = Z.testbit b k.
Proof.
  intros Hi.
  destruct (match_bits ds b (8 * i) 8 0 R ltac:(lia) ltac:(lia) ltac:(lia) ltac:(lia))
    as (R' & HR & Hin).
  exists R'. split.
  - unfold slave_write_byte, for_upto.
    rewrite Z.add_0_r in HR. rewrite HR. f_equal. f_equal. lia.
  - intros d. rewrite Hin. reflexivity.
Qed.

(** The loop of [wire1MatchROM] from byte [i] on a bus with devices. *)
Lemma write_address_devices (ds : list (list Z)) (addr : Z) (n : nat) :
  forall (i : Z) (R : list (list Z)) (w w' : World (Bus Devices)) (u : unit),
  0 <= i -> i + Z.of_nat n <= 8 ->
  released w ->
  slaves (line w) = mkDevices ds R (match_phase (8 * i)) ->
  forM_from n i (fun i _ => m <- get_mem ;; wire1WriteByte (m (addr + i))) tt w = (u, w') ->
  released w' /\ frame w w' /\
  exists R',
    slaves (line w') = mkDevices ds R' (match_phase (8 * (i + Z.of_nat n))) /\
    forall d, In d R' <->
      In d R /\
      forall k, 8 * i <= k < 8 * (i + Z.of_nat n) -> rom_bit d k = mem_bit (mem w) addr k.
Proof.
  induction n as [|n IH]; intros i R w w' u Hi Hn Hrel Hs H.
  - cbn in H. injection H as <- <-. rewrite Z.add_0_r.
    split; [exact Hrel|]. split; [apply frame_refl|].
    exists R. split; [exact Hs|].
    intros d. split; [intros Hd; split; [exact Hd | intros k Hk; lia] | tauto].
  - cbn [forM_from] in H.
    apply bind_inv in H as ([] & w1 & Hbody & H).
    unfold bind, get_mem in Hbody.
    destruct (writebyte_bus _ _ _ Hrel Hbody) as (Hrel1 & Hs1).
    pose proof (frame_of _ _ _ _ (line_only_writebyte (mem w (addr + i))) Hbody) as F1.
    rewrite Hs in Hs1.
    destruct (match_byte ds R (mem w (addr + i)) i ltac:(lia)) as (R1 & HR1 & Hin1).
    rewrite HR1 in Hs1.
    destruct (IH (i + 1) R1 w1 w' u ltac:(lia) ltac:(lia) Hrel1 Hs1 H)
      as (Hrel' & F' & R' & HR' & Hin').
    split; [exact Hrel'|]. split; [apply (frame_trans w w1 w'); assumption|].
    exists R'. split.
    + rewrite HR'. f_equal. f_equal. lia.
    + intros d. rewrite Hin', Hin1.
      destruct F1 as (M1 & _).
      assert (Hbit : forall k, 0 <= k < 8 ->
                Z.testbit (mem w (addr + i)) k = mem_bit (mem w) addr (8 * i + k)).
      { intros k Hk. rewrite mem_bit_testbit by lia.
        replace ((8 * i + k) / 8) with i by (Z.to_euclidean_division_equations; lia).
        replace ((8 * i + k) mod 8) with k by (Z.to_euclidean_division_equations; lia).
        reflexivity. }
      split.
      * intros ((Hd & Hb) & Hk). split; [exact Hd|].
        intros k Hk'. destruct (Z.lt_ge_cases k (8 * (i + 1))) as [Hlo | Hhi].
        -- replace k with (8 * i + (k - 8 * i)) by lia.
           rewrite Hb by lia. apply Hbit. lia.
        -- rewrite Hk by lia. rewrite M1. reflexivity.
      * intros (Hd & Hk). split; [split; [exact Hd|]|].
        -- intros k Hk'. rewrite Hk by lia. symmetry. apply Hbit. exact Hk'.
        -- intros k Hk'. rewrite M1. apply Hk. lia.
Qed.

Lemma reset_devices (ds : list (list Z)) (w : World (Bus Devices)) :
  ds <> [] -> bus_ready ds w ->
  fst (wire1Reset w) = 1 /\
  released (snd (wire1Reset w)) /\
  slaves (line (snd (wire1Reset w))) = mkDevices ds ds (PhRomCommand 0 0) /\
  wire1state (snd (wire1Reset w)) = ROM_COMMAND /\
  mem (snd (wire1Reset w)) = mem w /\
  wire1_idleloops (snd (wire1Reset w)) = wire1_idleloops w.
Proof.
  intros Hds (Hrel & Hroms & Hstate).
  destruct (wire1Reset w) as [r w1] eqn:Hr. cbn [fst snd].
  destruct (reset_bus _ _ _ Hrel Hstate Hr) as (Hrel1 & Hs1 & Hr1 & Hst1 & Hm1 & Hl1).
  change (slave_reset (slaves (line w))) with (dev_reset (slaves (line w)))
    in Hs1, Hr1, Hst1.
  unfold dev_reset in Hs1, Hr1, Hst1. rewrite Hroms in Hs1, Hr1, Hst1.
  cbn [fst snd] in Hs1, Hr1, Hst1.
  assert (Hp : match ds with [] => false | _ :: _ => true end = true)
    by (destruct ds; [contradiction | reflexivity]).
  rewrite Hp in Hr1, Hst1. auto 10.
Qed.

(** [wire1MatchROM] on a bus with devices. *)
Lemma match_selects (ds : list (list Z)) (addr : Z) (w : World (Bus Devices)) :
  ds <> [] -> bus_ready ds w ->
  let w' := snd (wire1MatchROM addr w) in
  fst (wire1MatchROM addr w) = 0 /\
  wire1state w' = FUNCTION_COMMAND /\
  phase (slaves (line w')) = PhFunction /\
  forall d, In d (active (slaves (line w'))) <->
    In d ds /\ forall k, 0 <= k < 64 -> rom_bit d k = mem_bit (mem w) addr k.
Proof.
  intros Hds Hready. cbv zeta.
  destruct (reset_devices ds w Hds Hready) as (R1 & Hrel1 & Hs1 & Hst1 & Hm1 & _).
  unfold wire1MatchROM, bind, get_state.
  destruct (wire1Reset w) as [r w1]. cbn [fst snd] in *. rewrite Hst1.
  cbn [wire1state_eqb negb].
  destruct (wire1WriteByte W1_ROMCMD_MATCH w1) as [[] w2] eqn:Hw.
  destruct (writebyte_bus _ _ _ Hrel1 Hw) as (Hrel2 & Hs2).
  pose proof (frame_of _ _ _ _ (line_only_writebyte W1_ROMCMD_MATCH) Hw) as (Hm2 & _).
  rewrite Hs1 in Hs2.
  change (slave_write_byte W1_ROMCMD_MATCH (mkDevices ds ds (PhRomCommand 0 0)))
    with (mkDevices ds ds (match_phase (8 * 0))) in Hs2.
  destruct (write_address addr w2) as [[] w3] eqn:Ha.
  unfold write_address, forM_upto in Ha.
  destruct (write_address_devices ds addr 8 0 ds w2 w3 tt
              ltac:(lia) ltac:(lia) Hrel2 Hs2 Ha) as (_ & _ & R' & HR' & Hin).
  cbn [set_state ret fst snd wire1state line].
  rewrite HR'. cbn [phase active].
  split; [reflexivity|]. split; [reflexivity|]. split; [reflexivity|].
  intros d. rewrite Hin. rewrite Hm2, Hm1.
  split; intros (Hd & Hk); (split; [exact Hd|]); intros k Hk'; apply Hk; lia.
Qed.

(** The read slots of a byte from bit [t] on, answered by devices that
    send their address: every bit is the wired AND of the bits of the
    devices. *)
Lemma read_bits (ds R : list (list Z)) (base : Z) (n : nat) :
  forall (t acc : Z),
  0 <= t -> t + Z.of_nat n <= 8 -> 0 <= base -> base + 8 <= 64 ->
  is_byte acc -> (forall k, t <= k -> Z.testbit acc k = false) ->
  exists acc',
    for_from n t
      (fun i '(s, acc) =>
         (snd (slave_one s),
          if fst (slave_one s) then u8 (Z.lor acc (BV i)) else acc))
      (mkDevices ds R (read_phase (base + t)), acc) =
    (mkDevices ds R (read_phase (base + t + Z.of_nat n)), acc') /\
    is_byte acc' /\
    forall k, 0 <= k ->
      Z.testbit acc' k =
      if (t <=? k) && (k <? t + Z.of_nat n) then all_ones (base + k) R
      else Z.testbit acc k.
Proof.
  induction n as [|n IH]; intros t acc Ht Hn Hb0 Hb8 Hacc Hhi.
  - exists acc. cbn [for_from]. rewrite !Z.add_0_r. split; [reflexivity|].
    split; [exact Hacc|]. intros k Hk.
    destruct (Z.leb_spec t k), (Z.ltb_spec k t); cbn [andb]; try reflexivity; lia.
  - cbn [for_from].
    assert (Hph : read_phase (base + t) = PhRead (base + t)).
    { unfold read_phase. destruct (Z.ltb_spec (base + t) 64); [reflexivity | lia]. }
    rewrite Hph, dev_read_rom_bit by lia. cbn [fst snd].
    replace (base + t + 1) with (base + (t + 1)) by lia.
    set (acc1 := if all_ones (base + t) R then u8 (Z.lor acc (BV t)) else acc).
    assert (H1 : is_byte acc1) by (subst acc1; destruct (all_ones _ _); [apply u8_range | exact Hacc]).
    assert (B1 : forall k, 0 <= k ->
               Z.testbit acc1 k = if k =? t then all_ones (base + t) R else Z.testbit acc k).
    { intros k Hk. subst acc1. destruct (all_ones (base + t) R).
      - rewrite testbit_u8, Z.lor_spec, testbit_BV by lia.
        destruct (Z.eqb_spec k t) as [-> | Hne].
        + rewrite Z.eqb_refl, orb_true_r.
          destruct (Z.ltb_spec t 8); [reflexivity | lia].
        + destruct (Z.eqb_spec t k); [lia|]. rewrite orb_false_r.
          destruct (Z.ltb_spec k 8); [reflexivity|].
          cbn [andb]. symmetry. apply testbit_byte_high; [exact Hacc | lia].
      - destruct (Z.eqb_spec k t) as [-> | Hne]; [apply Hhi; lia | reflexivity]. }
    destruct (IH (t + 1) acc1 ltac:(lia) ltac:(lia) Hb0 Hb8 H1) as (acc' & HR & Hb' & Hbits).
    { intros k Hk. rewrite B1 by lia. destruct (Z.eqb_spec k t); [lia|]. apply Hhi. lia. }
    exists acc'. split.
    + rewrite HR. f_equal. f_equal. f_equal. lia.
    + split; [exact Hb'|]. intros k Hk. rewrite Hbits by exact Hk.
      rewrite B1 by exact Hk.
      destruct (Z.leb_spec (t + 1) k), (Z.leb_spec t k), (Z.ltb_spec k (t + 1 + Z.of_nat n)),
               (Z.ltb_spec k (t + Z.of_nat (S n))), (Z.eqb_spec k t);
        cbn [andb]; try reflexivity; try lia.
      subst k. reflexivity.
Qed.

Lemma read_byte_devices (ds R : list (list Z)) (i : Z) :
  0 <= i < 8 ->
  exists v,
    slave_read_byte (mkDevices ds R (read_phase (8 * i))) =
    (mkDevices ds R (read_phase (8 * (i + 1))), v) /\
    is_byte v /\
    forall k, 0 <= k < 8 -> Z.testbit v k = all_ones (8 * i + k) R.
Proof.
  intros Hi.
  destruct (read_bits ds R (8 * i) 8 0 0 ltac:(lia) ltac:(lia) ltac:(lia) ltac:(lia))
    as (v & HR & Hv & Hbits).
  { unfold is_byte. lia. }
  { intros k _. apply Z.bits_0. }
  exists v. split.
  - unfold slave_read_byte, for_upto. rewrite Z.add_0_r in HR. rewrite HR.
    f_equal. f_equal. f_equal. lia.
  - split; [exact Hv|]. intros k Hk. rewrite Hbits by lia.
    destruct (Z.leb_spec 0 k), (Z.ltb_spec k (0 + Z.of_nat 8)); cbn [andb];
      try reflexivity; lia.
Qed.

(** The loop of [wire1ReadSingleROM] from byte [i] on a bus with
    devices. *)
Lemma read_address_devices (ds R : list (list Z)) (addr : Z) (n : nat) :
  forall (i : Z) (w w' : World (Bus Devices)) (u : unit),
  0 <= i -> i + Z.of_nat n <= 8 ->
  released w ->
  slaves (line w) = mkDevices ds R (read_phase (8 * i)) ->
  forM_from n i (fun i _ => b <- wire1ReadByte ;; set_mem (addr + i) b) tt w = (u, w') ->
  released w' /\
  slaves (line w') = mkDevices ds R (read_phase (8 * (i + Z.of_nat n))) /\
  (forall k, 8 * i <= k < 8 * (i + Z.of_nat n) ->
     mem_bit (mem w') addr k = all_ones k R) /\
  (forall q, q < addr + i \/ addr + i + Z.of_nat n <= q -> mem w' q = mem w q).
Proof.
  induction n as [|n IH]; intros i w w' u Hi Hn Hrel Hs H.
  - cbn in H. injection H as <- <-. rewrite Z.add_0_r.
    split; [exact Hrel|]. split; [exact Hs|]. split; [intros k Hk; lia | reflexivity].
  - cbn [forM_from] in H.
    apply bind_inv in H as ([] & w2 & Hbody & H).
    apply bind_inv in Hbody as (b & w1 & Hrb & Hset).
    destruct (readbyte_bus _ _ _ Hrel Hrb) as (Hrel1 & Hs1).
    pose proof (frame_of _ _ _ _ line_only_readbyte Hrb) as (F1 & _ & _).
    rewrite Hs in Hs1.
    destruct (read_byte_devices ds R i ltac:(lia)) as (v & Hv & Hvb & Hbits).
    rewrite Hv in Hs1. injection Hs1 as Hs1 Hbv. subst b.
    unfold set_mem in Hset. injection Hset as <-.
    assert (Hrel2 : released
              (mkWorld (line w1) (trace w1) (wire1state w1) (wire1_idleloops w1)
                       (store (mem w1) (addr + i) v))) by exact Hrel1.
    destruct (IH (i + 1) _ w' u ltac:(lia) ltac:(lia) Hrel2 Hs1 H)
      as (Hrel' & Hs' & Hbits' & Hout').
    cbn [mem] in Hout'.
    split; [exact Hrel'|]. split; [rewrite Hs'; f_equal; f_equal; lia|]. split.
    + intros k Hk. destruct (Z.lt_ge_cases k (8 * (i + 1))) as [Hlo | Hhi].
      * rewrite mem_bit_testbit by lia.
        assert (Hd : k / 8 = i) by (Z.to_euclidean_division_equations; lia).
        rewrite Hd, Hout' by lia. rewrite store_eq.
        rewrite Hbits by (Z.to_euclidean_division_equations; lia).
        f_equal. Z.to_euclidean_division_equations; lia.
      * apply Hbits'. lia.
    + intros q Hq. rewrite Hout' by lia. rewrite store_neq by lia.
      rewrite F1. reflexivity.
Qed.

(** X22.  [wire1ReadSingleROM] on a bus with devices reads, bit by bit,
    the wired AND of their addresses.  With one device, whose address has a
    right checksum, it returns 0 and the buffer holds that address. *)
Theorem wire1ReadSingleROM_reads (ds : list (list Z)) (addr : Z) (w : World (Bus Devices)) :
  ds <> [] -> bus_ready ds w ->
  let w' := snd (wire1ReadSingleROM addr w) in
  (forall k, 0 <= k < 64 -> mem_bit (mem w') addr k = all_ones k ds) /\
  (forall d, ds = [d] -> valid_address d ->
     fst (wire1ReadSingleROM addr w) = 0 /\
     load (mem w') addr 8 = d /\
     wire1state w' = FUNCTION_COMMAND).
Proof.
  intros Hds Hready. cbv zeta.
  destruct (reset_devices ds w Hds Hready) as (R1 & Hrel1 & Hs1 & Hst1 & Hm1 & _).
  unfold wire1ReadSingleROM, bind, get_state.
  destruct (wire1Reset w) as [r w1]. cbn [fst snd] in *. rewrite Hst1.
  cbn [wire1state_eqb negb].
  destruct (wire1WriteByte W1_ROMCMD_READ w1) as [[] w2] eqn:Hw.
  destruct (writebyte_bus _ _ _ Hrel1 Hw) as (Hrel2 & Hs2).
  rewrite Hs1 in Hs2.
  change (slave_write_byte W1_ROMCMD_READ (mkDevices ds ds (PhRomCommand 0 0)))
    with (mkDevices ds ds (read_phase (8 * 0))) in Hs2.
  destruct (forM_upto 8 _ tt w2) as [[] w3] eqn:Ha.
  unfold forM_upto in Ha.
  destruct (read_address_devices ds ds addr 8 0 w2 w3 tt
              ltac:(lia) ltac:(lia) Hrel2 Hs2 Ha) as (_ & _ & Hbits & _).
  pose proof (read_address_bytes addr 8 0 w2 w3 tt Ha) as (Hbytes & _).
  unfold get_mem.
  assert (Hmem : forall b : bool,
            mem (snd ((if b then set_state FUNCTION_COMMAND ;; ret 0
                       else set_state IDLE ;; ret 1) w3)) = mem w3)
    by (intros []; reflexivity).
  split.
  - intros k Hk. rewrite Hmem. apply Hbits. lia.
  - intros d -> (Hlen & Hby & Hcrc).
    assert (Hload : load (mem w3) addr 8 = d).
    { apply load_eq_of_bits; [exact Hlen | exact Hby | |].
      - intros j Hj. apply Hbytes. lia.
      - intros k Hk. rewrite Hbits by lia. unfold all_ones. cbn [forallb].
        apply andb_true_r. }
    rewrite Hmem, Hload.
    replace (mem w3 (addr + W1_ADDR_BYTE_CRC)) with (idx d W1_ADDR_BYTE_CRC)
      by (rewrite <- Hload; reflexivity).
    rewrite Hcrc, Z.eqb_refl. cbn. auto.
Qed.

(** X23.  [wire1SkipROM] on a bus with devices returns 0 and leaves every
    device taking part in what follows; on a bus without devices it
    returns -1 and the state is IDLE. *)
Theorem wire1SkipROM_addresses_all (ds : list (list Z)) (w : World (Bus Devices)) :
  bus_ready ds w ->
  let w' := snd (wire1SkipROM w) in
  match ds with
  | [] => fst (wire1SkipROM w) = -1 /\ wire1state w' = IDLE
  | _ :: _ =>
      fst (wire1SkipROM w) = 0 /\ wire1state w' = FUNCTION_COMMAND /\
      slaves (line w') = mkDevices ds ds PhFunction
  end.
Proof.
  intros Hready. cbv zeta. destruct ds as [|d0 ds0] eqn:Eds.
  - destruct Hready as (Hrel & Hroms & Hstate).
    destruct (wire1Reset w) as [r w1] eqn:Hr.
    destruct (reset_bus _ _ _ Hrel Hstate Hr) as (_ & _ & Hr1 & Hst1 & _).
    change (slave_reset (slaves (line w))) with (dev_reset (slaves (line w))) in Hr1, Hst1.
    unfold dev_reset in Hr1, Hst1. rewrite Hroms in Hr1, Hst1. cbn [fst] in Hr1, Hst1.
    unfold wire1SkipROM, bind, get_state. rewrite Hr, Hst1. cbn. auto.
  - rewrite <- Eds in *. assert (Hds : ds <> []) by (rewrite Eds; discriminate).
    destruct (reset_devices ds w Hds Hready) as (R1 & Hrel1 & Hs1 & Hst1 & _).
    unfold wire1SkipROM, bind, get_state.
    destruct (wire1Reset w) as [r w1]. cbn [fst snd] in *. rewrite Hst1.
    cbn [wire1state_eqb negb].
    destruct (wire1WriteByte W1_ROMCMD_SKIP w1) as [[] w2] eqn:Hw.
    destruct (writebyte_bus _ _ _ Hrel1 Hw) as (Hrel2 & Hs2).
    rewrite Hs1 in Hs2.
    cbn [set_state ret fst snd wire1state line]. rewrite Hs2. auto.
Qed.

(** X21.  [wire1MatchROM] on a bus with devices: the devices that take
    part in what follows are exactly the ones whose 64 address bits are
    the bits of the buffer, whether the buffer has a right checksum or
    not. *)
Theorem wire1MatchROM_selects (ds : list (list Z)) (addr : Z) (w : World (Bus Devices)) :
  ds <> [] -> bus_ready ds w ->
  let w' := snd (wire1MatchROM addr w) in
  fst (wire1MatchROM addr w) = 0 /\
  wire1state w' = FUNCTION_COMMAND /\
  phase (slaves (line w')) = PhFunction /\
  forall d, In d (active (slaves (line w'))) <->
    In d ds /\ forall k, 0 <= k < 64 -> rom_bit d k = mem_bit (mem w) addr k.
Proof. exact (match_selects ds addr w). Qed.
(** ** More on the search on a bus with devices *)

Lemma zeros_bit (m : Z -> Z) (p k : Z) :
  0 <= k < 64 ->
  load m p 8 = [0; 0; 0; 0; 0; 0; 0; 0] ->
  mem_bit m p k = false.
Proof.
  intros Hk Hzero. rewrite mem_bit_load, Hzero by exact Hk. unfold rom_bit, idx.
  assert (Hn : nth (Z.to_nat (k / 8)) [0; 0; 0; 0; 0; 0; 0; 0] 0 = 0).
  { generalize (Z.to_nat (k / 8)). intros n.
    do 8 (destruct n as [|n]; [reflexivity|]). now destruct n. }
  rewrite Hn. reflexivity.
Qed.

(** While the first walk has met no conflict, no device has dropped
    out. *)
Lemma first_walk_keeps_all (ds : list (list Z)) (start : Z -> bool) (lc : Z) :
  (forall k, 0 <= k < 64 -> start k = false) -> 64 <= lc ->
  wk_conf (walk_from start lc 64 0 (walk_start ds)) = 64 ->
  forall d, In d ds -> In d (wk_active (walk_from start lc 64 0 (walk_start ds))).
Proof.
  intros Hstart Hlc.
  apply (walk_from_inv start lc
           (fun _ s => wk_conf s = 64 -> forall d, In d ds -> In d (wk_active s)) 64)
    with (n := 64%nat) (i := 0); try lia.
  - intros i s Hi IH Hc d Hd. cbn [walk_step wk_conf wk_active] in *.
    unfold walk_conf in Hc.
    assert (Hi_lc : (i =? lc) = false) by (apply Z.eqb_neq; lia).
    rewrite Hi_lc, (Hstart i Hi) in Hc. cbn [negb andb] in Hc.
    rewrite !andb_true_r in Hc.
    destruct (all_ones i (wk_active s)) eqn:E1; cbn [negb andb] in Hc.
    + specialize (IH Hc d Hd). apply keep_In. split; [exact IH|].
      unfold walk_bit. rewrite E1. apply (proj1 (all_ones_spec i _) E1). exact IH.
    + destruct (all_zeros i (wk_active s)) eqn:E0; cbn [negb] in Hc; [|lia].
      specialize (IH Hc d Hd). apply keep_In. split; [exact IH|].
      unfold walk_bit. rewrite E1, E0. apply (proj1 (all_zeros_spec i _) E0). exact IH.
  - intros _ d Hd. exact Hd.
Qed.

(** With one device the walk meets no conflict. *)
Lemma single_walk (d : list Z) (start : Z -> bool) (lc : Z) :
  wk_conf (walk_from start lc 64 0 (walk_start [d])) = 64.
Proof.
  assert (H : wk_active (walk_from start lc 64 0 (walk_start [d])) = [d] /\
              wk_conf (walk_from start lc 64 0 (walk_start [d])) = 64).
  { apply (walk_from_inv start lc
             (fun _ s => wk_active s = [d] /\ wk_conf s = 64) 64)
      with (n := 64%nat) (i := 0); try lia.
    - intros i s Hi (Ha & Hc). cbn [walk_step wk_conf wk_active].
      rewrite Ha, Hc. unfold walk_conf, walk_bit, all_ones, all_zeros, keep.
      cbn [forallb filter]. destruct (rom_bit d i); cbn; auto.
    - split; reflexivity. }
  exact (proj2 H).
Qed.

Section MoreCalls.

Variables addrOut addrStart : Z.
Hypothesis Hsep : addrStart + 8 <= addrOut \/ addrOut + 8 <= addrStart.

(** X24.  With one device on the bus, a search returns 64 and the address
    of the device, whatever the start address and whatever the last
    conflict position it is given. *)
Theorem single_device_search (d : list Z) (lc : Z) (w : World (Bus Devices)) :
  valid_address d -> is_byte lc -> bus_ready [d] w ->
  fst (wire1SearchLargerROM addrOut addrStart lc w) = 64 /\
  load (mem (snd (wire1SearchLargerROM addrOut addrStart lc w))) addrOut 8 = d /\
  wire1state (snd (wire1SearchLargerROM addrOut addrStart lc w)) = FUNCTION_COMMAND.
Proof.
  intros Hd Hlc (Hrel & Hroms & Hstate).
  destruct (search_call [d] addrOut addrStart lc (mem_bit (mem w) addrStart) Hsep Hlc w
              ltac:(discriminate) (Forall_cons _ Hd (Forall_nil _)) Hrel Hroms Hstate
              (fun k _ => eq_refl))
    as (w' & Hcall & _ & _ & Hst & Hin & _).
  rewrite Hcall. cbn [fst snd]. split; [apply single_walk|].
  split; [|exact Hst]. destruct Hin as [E | []]. symmetry. exact E.
Qed.

(** X25.  A search followed by [wire1MatchROM] on its output buffer
    addresses the device that the search found and no other. *)
Theorem search_then_match (ds : list (list Z)) (lc : Z) (w : World (Bus Devices)) :
  ds <> [] -> Forall valid_address ds -> is_byte lc -> bus_ready ds w ->
  let w1 := snd (wire1SearchLargerROM addrOut addrStart lc w) in
  let w2 := snd (wire1MatchROM addrOut w1) in
  In (load (mem w1) addrOut 8) ds /\
  fst (wire1MatchROM addrOut w1) = 0 /\
  wire1state w2 = FUNCTION_COMMAND /\
  forall d, In d (active (slaves (line w2))) <->
            In d ds /\ d = load (mem w1) addrOut 8.
Proof.
  intros Hds Hvalid Hlc (Hrel & Hroms & Hstate). cbv zeta.
  destruct (search_call ds addrOut addrStart lc (mem_bit (mem w) addrStart) Hsep Hlc w
              Hds Hvalid Hrel Hroms Hstate (fun k _ => eq_refl))
    as (w1 & Hcall & Hrel1 & Hroms1 & Hst1 & Hin & _).
  rewrite Hcall. cbn [snd].
  assert (Hready1 : bus_ready ds w1).
  { split; [exact Hrel1|]. split; [exact Hroms1|]. rewrite Hst1. discriminate. }
  destruct (match_selects ds addrOut w1 Hds Hready1) as (M1 & M2 & _ & M4).
  split; [exact Hin|]. split; [exact M1|]. split; [exact M2|].
  intros d. rewrite M4. rewrite Forall_forall in Hvalid.
  destruct (Hvalid _ Hin) as (La & Ba & _).
  split.
  - intros (Hd & Hbits). split; [exact Hd|].
    destruct (Hvalid _ Hd) as (Ld & Bd & _).
    apply rom_bits_inj; try assumption.
    intros k Hk. rewrite Hbits by exact Hk. apply mem_bit_load. exact Hk.
  - intros (Hd & ->). split; [exact Hin|].
    intros k Hk. symmetry. apply mem_bit_load. exact Hk.
Qed.

(** X26.  Two devices are both found.  On a bus with two devices, the
    first call of the caller's enumeration finds the one that is smaller in
    the order of the search and returns the bit in which they differ first,
    and the second call finds the other and returns 64. *)
Theorem two_devices_both_found (a b : list Z) (lc : Z) (w : World (Bus Devices)) :
  valid_address a -> valid_address b -> a <> b ->
  64 <= lc < 256 ->
  bus_ready [a; b] w ->
  load (mem w) addrStart 8 = [0; 0; 0; 0; 0; 0; 0; 0] ->
  exists x y c,
    search_all 2 addrOut addrStart lc w = [(x, c); (y, 64)] /\
    0 <= c < 64 /\ search_lt x y /\
    ((x = a /\ y = b) \/ (x = b /\ y = a)).
Proof.
  intros Ha Hb Hne Hlc Hready Hzero.
  set (ds := [a; b]) in *.
  assert (Hds : ds <> []) by discriminate.
  assert (Hvalid : Forall valid_address ds)
    by exact (Forall_cons _ Ha (Forall_cons _ Hb (Forall_nil _))).
  (* the first call *)
  destruct (first_call ds addrOut addrStart Hvalid Hsep lc w Hds Hlc Hready Hzero)
    as (c & w1 & Hcall & Hready1 & Hin & Hsmall & Hc).
  assert (Hopen : open_branch ds (load (mem w1) addrOut 8) c).
  { destruct Hc as [-> | Hc]; [exfalso | exact Hc].
    destruct Hready as (Hrel & Hroms & Hstate).
    set (start := fun _ : Z => false).
    assert (Hst : forall k, 0 <= k < 64 -> mem_bit (mem w) addrStart k = start k)
      by (intros k Hk; apply zeros_bit; assumption).
    destruct (search_call ds addrOut addrStart lc start Hsep ltac:(unfold is_byte; lia) w
                Hds Hvalid Hrel Hroms Hstate Hst) as (w1' & Hcall' & _).
    assert (Hconf : wk_conf (walk_from start lc 64 0 (walk_start ds)) = 64).
    { rewrite Hcall in Hcall'. symmetry. exact (f_equal fst Hcall'). }
    pose proof (first_walk_keeps_all ds start lc (fun k _ => eq_refl) ltac:(lia) Hconf)
      as Hall.
    assert (Hinv : walk_inv ds 64 (walk_from start lc 64 0 (walk_start ds))).
    { apply (walk_from_inv start lc (walk_inv ds) 64) with (n := 64%nat) (i := 0);
        try lia.
      - intros i s Hi. apply walk_inv_step. lia.
      - apply walk_inv_start. exact Hds. }
    destruct Hinv as (HA & _).
    apply Hne. destruct Ha as (La & Ba & _), Hb as (Lb & Bb & _).
    apply rom_bits_inj; try assumption.
    intros k Hk.
    destruct (proj1 (HA a) (Hall a ltac:(left; reflexivity))) as (_ & Ga).
    destruct (proj1 (HA b) (Hall b ltac:(right; left; reflexivity))) as (_ & Gb).
    rewrite (Ga k Hk), (Gb k Hk). reflexivity. }
  set (x := load (mem w1) addrOut 8) in *.
  assert (Hcr : 0 <= c < 64) by (destruct Hopen as (H & _); exact H).
  assert (Lx : length x = 8%nat).
  { rewrite Forall_forall in Hvalid. destruct (Hvalid x Hin) as (H & _). exact H. }
  (* the second call *)
  destruct (next_call ds addrOut addrStart Hvalid Hsep c x (set_bytes addrStart x w1)
              (set_bytes_ready ds addrStart x w1 Hready1) Hin
              (set_bytes_load addrStart x w1 Lx) Hopen)
    as (c2 & w2 & Hcall2 & _ & Hin2 & Hlt & Hc2).
  set (y := load (mem w2) addrOut 8) in *.
  assert (Hc64 : c2 = 64).
  { destruct Hc2 as [E | Hopen2]; [exact E | exfalso].
    destruct (open_branch_lt _ _ _ Hopen2) as (e & He & Hlt2).
    assert (Hxy : forall z, In z ds -> z = x \/ z = y).
    { intros z Hz.
      assert (x <> y) by (intros E; rewrite E in Hlt; exact (search_lt_irrefl _ Hlt)).
      destruct Hin as [<- | [<- | []]], Hin2 as [<- | [<- | []]],
               Hz as [<- | [<- | []]]; auto; contradiction. }
    destruct (Hxy e He) as [-> | ->].
    - exact (search_lt_irrefl _ (search_lt_trans _ _ _ Hlt Hlt2)).
    - exact (search_lt_irrefl _ Hlt2). }
  subst c2.
  exists x, y, c. split; [|split; [exact Hcr | split; [exact Hlt|]]].
  - rewrite search_all_S, Hcall. cbv beta iota zeta. fold x.
    destruct (Z.leb_spec 0 c); [|lia]. destruct (Z.ltb_spec c 64); [|lia].
    cbn [andb]. rewrite search_all_S, Hcall2. cbv beta iota zeta. fold y.
    reflexivity.
  - assert (x <> y) by (intros E; rewrite E in Hlt; exact (search_lt_irrefl _ Hlt)).
    destruct Hin as [<- | [<- | []]], Hin2 as [<- | [<- | []]]; auto; contradiction.
Qed.

End MoreCalls.
(** ** The search with one buffer for both addresses *)

Section InPlace.

Context {L : Type} {HL : Line L}.

(** X27.  The comment of the search allows the start address and the
    output address to be the same buffer.  Then a conflict away from the
    last conflict position always finds the start bit 0, because the
    round has cleared the byte before it reads it: the search writes 0
    and records the round as the conflict position, whatever address the
    buffer held at the call. *)
Theorem search_in_place_conflict
  (addrOut lastConfPos iBit iByte currConfPos iByte' : Z) (w0 w wc w1 w2 : World L) :
  is_byte lastConfPos ->
  0 <= iBit < 64 ->
  iBit <> lastConfPos ->
  search_loop addrOut addrOut lastConfPos (Z.to_nat iBit) 0 (u8 (-1), 64) w0 =
    (inr (iByte, currConfPos), w) ->
  search_next_byte addrOut iBit iByte w = (iByte', wc) ->
  wire1ReadBit wc = (0, w1) ->
  wire1ReadBit w1 = (0, w2) ->
  maskBitInArray (mem w2) addrOut iBit = 0 /\
  search_body addrOut addrOut lastConfPos iBit (iByte, currConfPos) w =
    (inr (iByte', iBit), snd (wire1WriteBit 0 w2)).
Proof.
  intros Hlc Hi Hne Hloop Hnb H1 H2.
  pose proof (search_loop_inv addrOut addrOut lastConfPos (Z.to_nat iBit) 0 (u8 (-1)) 64
                iByte currConfPos w0 w ltac:(lia) ltac:(lia)
                (out_inv_start addrOut (mem w0)) ltac:(lia) Hloop) as (Hinv & _).
  replace (0 + Z.of_nat (Z.to_nat iBit)) with iBit in Hinv by lia.
  pose proof (search_next_byte_spec addrOut iBit iByte iByte' w wc Hi Hinv Hnb)
    as (_ & _ & _ & _ & _ & Hclear & _).
  pose proof (frame_of _ _ _ _ line_only_readbit H1) as (F1 & _).
  pose proof (frame_of _ _ _ _ line_only_readbit H2) as (F2 & _).
  assert (Hmask : maskBitInArray (mem w2) addrOut iBit = 0).
  { assert (Hb : mem_bit (mem w2) addrOut iBit = false).
    { rewrite F2, F1. apply Hclear.
      pose proof (Z.mod_pos_bound iBit 8). Z.to_euclidean_division_equations; lia. }
    unfold mem_bit, truthy in Hb. apply negb_false_iff, Z.eqb_eq in Hb. exact Hb. }
  split; [exact Hmask|].
  unfold search_body.
  rewrite (bind_eq _ _ _ _ _ Hnb), (bind_eq _ _ _ _ _ H1), (bind_eq _ _ _ _ _ H2).
  change (negb (truthy 0) && negb (truthy 0)) with true. cbv iota.
  unfold search_conflict.
  assert (E1 : (iBit =? lastConfPos) = false) by (apply Z.eqb_neq; exact Hne).
  assert (E2 : (lastConfPos =? -1) = false)
    by (apply Z.eqb_neq; unfold is_byte in Hlc; lia).
  rewrite E1, E2. unfold bind, get_mem, ret. rewrite Hmask.
  change (truthy 0) with false. cbn [negb]. cbv iota.
  destruct (wire1WriteBit 0 w2) as [[] w4]. reflexivity.
Qed.

End InPlace.

(** X28.  [maskBitInArray] reads the byte [bit / 8] of the array and
    returns 0 or the single bit [bit % 8]; it is not 0 exactly when that
    bit of that byte is set. *)
Theorem maskBitInArray_bit (m : Z -> Z) (arr bit : Z) :
  0 <= bit ->
  maskBitInArray m arr bit =
    (if Z.testbit (m (arr + bit / 8)) (bit mod 8) then BV (bit mod 8) else 0) /\
  truthy (maskBitInArray m arr bit) = Z.testbit (m (arr + bit / 8)) (bit mod 8).
Proof.
  intros Hb. pose proof (Z.mod_pos_bound bit 8 ltac:(lia)) as Hm.
  split.
  - unfold maskBitInArray. apply Z.bits_inj'. intros k Hk.
    rewrite Z.land_spec, testbit_BV by lia.
    destruct (Z.eqb_spec (bit mod 8) k) as [<- | Hne].
    + rewrite andb_true_r.
      destruct (Z.testbit (m (arr + bit / 8)) (bit mod 8));
        [rewrite testbit_BV by lia; symmetry; apply Z.eqb_refl | rewrite Z.bits_0; reflexivity].
    + rewrite andb_false_r.
      destruct (Z.testbit (m (arr + bit / 8)) (bit mod 8));
        [rewrite testbit_BV by lia; symmetry; apply Z.eqb_neq; exact Hne |
         rewrite Z.bits_0; reflexivity].
  - unfold maskBitInArray. apply truthy_land_BV. lia.
Qed.

(** ** Examples of the further properties *)

Lemma wire1Poll4_result_witness :
  fst (wire1Poll4Hold 15 one_device) =
    match first_level false (Z.to_nat 15) (line one_device) with
    | Some k => if Z.of_nat k <? 15 then Z.of_nat k else 0
    | None => 0
    end /\
  fst (wire1Poll4Release 15 one_device) =
    match first_level true (Z.to_nat 15) (line one_device) with
    | Some k => if Z.of_nat k <? 15 then Z.of_nat k else 0
    | None => 0
    end.
Proof. apply wire1Poll4_result. lia. Defined.

Lemma wire1Poll4_samples_witness :
  (let r := fst (wire1Poll4Hold 15 one_device) in
   let w' := snd (wire1Poll4Hold 15 one_device) in
   (r = 0 \/ 0 < r < 15) /\
   trace w' = repeat OpSample (Z.to_nat (if r =? 0 then 15 else r)) ++ trace one_device /\
   frame one_device w') /\
  (let r := fst (wire1Poll4Release 15 one_device) in
   let w' := snd (wire1Poll4Release 15 one_device) in
   (r = 0 \/ 0 < r < 15) /\
   trace w' = repeat OpSample (Z.to_nat (if r =? 0 then 15 else r)) ++ trace one_device /\
   frame one_device w').
Proof. apply wire1Poll4_samples. lia. Defined.

Lemma wire1Poll4Idle_slots_witness :
  let w := snd (wire1SetupPoll4Idle 5 one_device) in
  exists i, 0 <= i <= wire1_idleloops w /\
    fst (wire1Poll4Idle w) = (if i =? wire1_idleloops w then 0 else i) /\
    wire1state (snd (wire1Poll4Idle w)) =
      (if i =? wire1_idleloops w then wire1state w else IDLE) /\
    trace (snd (wire1Poll4Idle w)) =
      concat (repeat read_slot_ops (S (Z.to_nat i))) ++ trace w /\
    mem (snd (wire1Poll4Idle w)) = mem w /\
    wire1_idleloops (snd (wire1Poll4Idle w)) = wire1_idleloops w.
Proof. apply wire1Poll4Idle_slots. vm_compute. discriminate. Defined.

Lemma pin_let_go_witness :
  last_drive (trace (after_all [CallReset; CallSkipROM; CallReadPowerSupply] one_device))
  <> Some OpHold.
Proof. apply pin_let_go; [reflexivity | discriminate]. Defined.

Lemma memory_outside_output_buffer_witness :
  mem (after (CallSearchLargerROM 100 200 255) one_device) 200 = mem one_device 200.
Proof. apply memory_outside_output_buffer. cbn. lia. Defined.

Lemma wait_poll_by_setup_only_witness :
  wire1_idleloops (after CallReset one_device) = wire1_idleloops one_device /\
  (wire1state (after CallReset one_device) = WAIT_POLL ->
   wire1state one_device = WAIT_POLL).
Proof. apply wait_poll_by_setup_only. reflexivity. Defined.

Lemma setup_zero_sticks_witness :
  let w1 := after_all [CallReset; CallReadBit] (snd (wire1SetupPoll4Idle 0 one_device)) in
  wire1state w1 = WAIT_POLL /\
  fst (wire1Reset w1) = -1 /\
  fst (wire1SkipROM w1) = -1 /\
  (forall addr, fst (wire1MatchROM addr w1) = -1 /\
                fst (wire1ReadSingleROM addr w1) = -1) /\
  (forall addrOut addrStart lastConfPos,
     fst (wire1SearchLargerROM addrOut addrStart lastConfPos w1) = -1 /\
     fst (wire1AlarmSearchLargerROM addrOut addrStart lastConfPos w1) = -1) /\
  fst (wire1ReadPowerSupply w1) = -2.
Proof. apply setup_zero_sticks. reflexivity. Defined.

Lemma wire1ReadPowerSupply_in_phase_witness :
  let w := snd (wire1SkipROM one_device) in
  let w1 := snd (wire1WriteByte W1_FUNC_PARASITE_POWER w) in
  fst (wire1ReadPowerSupply w) =
    match first_level false 24 (pin_release (pin_hold (line w1))) with
    | Some _ => 1
    | None => 0
    end /\
  wire1state (snd (wire1ReadPowerSupply w)) = IDLE /\
  trace (snd (wire1ReadPowerSupply w)) = read_slot_ops ++ trace w1 /\
  mem (snd (wire1ReadPowerSupply w)) = mem w.
Proof. apply wire1ReadPowerSupply_in_phase. vm_compute. reflexivity. Defined.

Lemma found_address_valid_witness :
  valid_address (load (mem (snd (wire1SearchLargerROM 100 200 255 one_device))) 100 8) /\
  valid_address (load (mem (snd (wire1ReadSingleROM 100 one_device))) 100 8).
Proof.
  split.
  - apply (proj1 (found_address_valid 100 200 255 one_device)). vm_compute. discriminate.
  - apply (proj2 (proj2 (found_address_valid 100 200 255 one_device))).
    vm_compute. reflexivity.
Defined.

Lemma wire1MatchROM_selects_witness :
  let w := set_bytes 100 rom_b two_devices in
  let w' := snd (wire1MatchROM 100 w) in
  fst (wire1MatchROM 100 w) = 0 /\
  wire1state w' = FUNCTION_COMMAND /\
  phase (slaves (line w')) = PhFunction /\
  forall d, In d (active (slaves (line w'))) <->
    In d [rom_a; rom_b] /\ forall k, 0 <= k < 64 -> rom_bit d k = mem_bit (mem w) 100 k.
Proof.
  apply (wire1MatchROM_selects [rom_a; rom_b] 100 (set_bytes 100 rom_b two_devices)).
  - discriminate.
  - repeat split. discriminate.
Defined.

Lemma wire1ReadSingleROM_reads_witness :
  let w' := snd (wire1ReadSingleROM 100 one_device) in
  (forall k, 0 <= k < 64 -> mem_bit (mem w') 100 k = all_ones k [rom_a]) /\
  (forall d, [rom_a] = [d] -> valid_address d ->
     fst (wire1ReadSingleROM 100 one_device) = 0 /\
     load (mem w') 100 8 = d /\
     wire1state w' = FUNCTION_COMMAND).
Proof.
  apply (wire1ReadSingleROM_reads [rom_a] 100 one_device).
  - discriminate.
  - repeat split. discriminate.
Defined.

Lemma wire1SkipROM_addresses_all_witness :
  fst (wire1SkipROM one_device) = 0 /\
  wire1state (snd (wire1SkipROM one_device)) = FUNCTION_COMMAND /\
  slaves (line (snd (wire1SkipROM one_device))) = mkDevices [rom_a] [rom_a] PhFunction.
Proof.
  apply (wire1SkipROM_addresses_all [rom_a] one_device). repeat split. discriminate.
Defined.

Lemma single_device_search_witness :
  fst (wire1SearchLargerROM 100 200 7 one_device) = 64 /\
  load (mem (snd (wire1SearchLargerROM 100 200 7 one_device))) 100 8 = rom_a /\
  wire1state (snd (wire1SearchLargerROM 100 200 7 one_device)) = FUNCTION_COMMAND.
Proof.
  apply (single_device_search 100 200).
  - right. lia.
  - split; [reflexivity|]. split; [|vm_compute; reflexivity].
    repeat constructor; unfold is_byte; lia.
  - unfold is_byte. lia.
  - repeat split. discriminate.
Defined.

Lemma search_then_match_witness :
  let w1 := snd (wire1SearchLargerROM 100 200 255 two_devices) in
  let w2 := snd (wire1MatchROM 100 w1) in
  In (load (mem w1) 100 8) [rom_a; rom_b] /\
  fst (wire1MatchROM 100 w1) = 0 /\
  wire1state w2 = FUNCTION_COMMAND /\
  forall d, In d (active (slaves (line w2))) <->
            In d [rom_a; rom_b] /\ d = load (mem w1) 100 8.
Proof.
  apply (search_then_match 100 200).
  - right. lia.
  - discriminate.
  - repeat constructor; try (unfold is_byte; lia); vm_compute; reflexivity.
  - unfold is_byte. lia.
  - repeat split. discriminate.
Defined.

Lemma two_devices_both_found_witness :
  exists x y c,
    search_all 2 100 200 255 two_devices = [(x, c); (y, 64)] /\
    0 <= c < 64 /\ search_lt x y /\
    ((x = rom_a /\ y = rom_b) \/ (x = rom_b /\ y = rom_a)).
Proof.
  apply (two_devices_both_found 100 200).
  - right. lia.
  - split; [reflexivity|]. split; [|vm_compute; reflexivity].
    repeat constructor; unfold is_byte; lia.
  - split; [reflexivity|]. split; [|vm_compute; reflexivity].
    repeat constructor; unfold is_byte; lia.
  - discriminate.
  - lia.
  - repeat split. discriminate.
  - reflexivity.
Defined.

Lemma search_in_place_conflict_witness :
  maskBitInArray (mem round_w2) 100 0 = 0 /\
  search_body 100 100 255 0 (u8 (-1), 64) round_w0 =
    (inr (0, 0), snd (wire1WriteBit 0 round_w2)).
Proof.
  assert (Hb : is_byte 255) by (unfold is_byte; lia).
  assert (Hi : 0 <= 0 < 64) by lia.
  assert (Hne : 0 <> 255) by lia.
  assert (H1 : wire1ReadBit round_wc = (0, round_w1)) by (vm_compute; reflexivity).
  assert (H2 : wire1ReadBit round_w1 = (0, round_w2)) by (vm_compute; reflexivity).
  exact (search_in_place_conflict 100 255 0 (u8 (-1)) 64 0
           round_w0 round_w0 round_wc round_w1 round_w2
           Hb Hi Hne eq_refl eq_refl H1 H2).
Defined.

Lemma maskBitInArray_bit_witness :
  maskBitInArray (store_list cleared 100 rom_a) 100 1 =
    (if Z.testbit (store_list cleared 100 rom_a (100 + 1 / 8)) (1 mod 8)
     then BV (1 mod 8) else 0) /\
  truthy (maskBitInArray (store_list cleared 100 rom_a) 100 1) =
    Z.testbit (store_list cleared 100 rom_a (100 + 1 / 8)) (1 mod 8).
Proof. apply maskBitInArray_bit. lia. Defined.
(** ** A reset while a poll is pending *)

Section Waiting.

Context {L : Type} {HL : Line L}.

(** X29.  A reset in the state WAIT_POLL on a line that is already idle:
    when no look of the first read slot finds the pin low, the loop of
    [wire1Poll4Idle] stops at the count 0, which is also the value for a
    timeout, and [wire1Reset] returns -1 after that one slot without
    sending its pulse.  The state is IDLE after it, or still WAIT_POLL
    when the bound is 0. *)
Theorem wire1Reset_waiting_on_idle_line (w : World L) :
  wire1state w = WAIT_POLL ->
  first_level false 24 (pin_release (pin_hold (line w))) = None ->
  fst (wire1Reset w) = -1 /\
  wire1state (snd (wire1Reset w)) =
    (if wire1_idleloops w =? 0 then WAIT_POLL else IDLE) /\
  trace (snd (wire1Reset w)) = read_slot_ops ++ trace w /\
  line (snd (wire1Reset w)) = line (snd (wire1ReadBit w)).
Proof.
  intros Hs Hidle.
  destruct (readbit_slot_spec w) as (Hr & Ht & (_ & Fs & Fl)).
  rewrite Hidle in Hr.
  unfold wire1Reset, wire1Poll4Idle. cbn [poll4idle_loop].
  cbv [bind get_state get_idleloops ret]. rewrite Hs. cbn [wire1state_eqb].
  destruct (wire1ReadBit w) as [b w1]. cbn [fst snd] in *. subst b.
  change (truthy 255) with true. cbn [negb andb]. cbv beta iota.
  rewrite (Z.eqb_sym 0).
  destruct (wire1_idleloops w =? 0); cbv [set_state]; cbn; rewrite ?Fs, ?Hs; auto.
Qed.

End Waiting.

Lemma wire1Reset_waiting_on_idle_line_witness :
  let w := snd (wire1SetupPoll4Idle 5 one_device) in
  fst (wire1Reset w) = -1 /\
  wire1state (snd (wire1Reset w)) =
    (if wire1_idleloops w =? 0 then WAIT_POLL else IDLE) /\
  trace (snd (wire1Reset w)) = read_slot_ops ++ trace w /\
  line (snd (wire1Reset w)) = line (snd (wire1ReadBit w)).
Proof.
  apply wire1Reset_waiting_on_idle_line; vm_compute; reflexivity.
Defined.
